(** * Draft: variable resolution and template rendering

    A shallow embedding of [pkg/config/draftconfig.go] and
    [pkg/handlers/template.go], and the properties of the default-resolution
    engine, the variable accessors, the deep copy and the renderer.

    Layout of the development:
    - Part I   errors, the data model and the collaborators' interfaces;
    - Part II  the config operations over values (a config holds its
               variables in declaration order);
    - Part III the same config over a store of variable objects, where
               [Variables] holds pointers (used for the aliasing questions
               of [DeepCopy]);
    - Part IV  the renderer;
    - Part V   sample collaborators and sample configs;
    - Part VI  the notions the statements use;
    - Part VII the theorems.

    Calls of the logger are left out: they change nothing the properties
    speak of. *)

From Stdlib Require Import Ascii String.
From stdpp Require Import base strings list gmap.

Set Default Proof Using "Type".

(* ===================================================================== *)
(** * Part I: errors, data model, collaborators *)
(* ===================================================================== *)

(** Go's [error] values. The source builds them with [errors.New] and
    [fmt.Errorf]; a ["%w"] verb wraps an inner error behind a fixed prefix. *)
Inductive error : Type :=
| ErrorNew (msg : string)
| ErrorWrap (prefix : string) (err : error).

(** A Go result pair [(A, error)]: either the value with a nil error, or the
    error. *)
Inductive result (A : Type) : Type :=
| Ok (a : A)
| Err (e : error).
Arguments Ok {A} a.
Arguments Err {A} e.

(** [type VariableValidator func(string) error]; [None] is the nil error. *)
Definition VariableValidator : Type := string → option error.
(** [type VariableTransformer func(string) (string, error)]. *)
Definition VariableTransformer : Type := string → result string.

(** [BuilderVarDefault]. The field [Value] of the source is [DefaultValue]
    here, Rocq records sharing one name space. *)
Record BuilderVarDefault : Type := mkBuilderVarDefault {
  IsPromptDisabled : bool;
  ReferenceVar : string;
  DefaultValue : string
}.

(** [BuilderVarConditionalReference]; its field [ReferenceVar] is
    [CondReferenceVar] here. *)
Record BuilderVarConditionalReference : Type := mkBuilderVarConditionalReference {
  CondReferenceVar : string
}.

(** [BuilderVar]; the field [Type] of the source is [VarType] here. *)
Record BuilderVar : Type := mkBuilderVar {
  Name : string;
  ConditionalRef : BuilderVarConditionalReference;
  Default : BuilderVarDefault;
  Description : string;
  ExampleValues : list string;
  VarType : string;
  Kind : string;
  Value : string;
  Versions : string
}.

(** The zero values of the structs. *)
Definition zeroDefault : BuilderVarDefault := mkBuilderVarDefault false "" "".
Definition zeroConditionalRef : BuilderVarConditionalReference :=
  mkBuilderVarConditionalReference "".

(** The assignment [variable.Value = value]. *)
Definition withValue (variable : BuilderVar) (value : string) : BuilderVar :=
  mkBuilderVar (Name variable) (ConditionalRef variable) (Default variable)
    (Description variable) (ExampleValues variable) (VarType variable)
    (Kind variable) value (Versions variable).

(** The literal [&BuilderVar{Name: name, Value: value}] of [SetVariable]. *)
Definition newBuilderVar (name value : string) : BuilderVar :=
  mkBuilderVar name zeroConditionalRef zeroDefault "" [] "" "" value "".

(** The fields of [DraftConfig] other than [Variables]. [Description],
    [Type] and [Versions] of the source are [ConfigDescription],
    [ConfigType] and [ConfigVersions] here. A nil Go map reads like the
    empty map. The record is parameterised by the type of a [Variables]
    entry: a [BuilderVar] in Part II, a pointer in Part III. *)
Record DraftConfigOf (V : Type) : Type := mkDraftConfig {
  TemplateName : string;
  DisplayName : string;
  ConfigDescription : string;
  ConfigType : string;
  ConfigVersions : string;
  DefaultVersion : string;
  Variables : list V;
  FileNameOverrideMap : gmap string string;
  Validators : gmap string VariableValidator;
  Transformers : gmap string VariableTransformer
}.
Arguments mkDraftConfig {V}.
Arguments TemplateName {V}.
Arguments DisplayName {V}.
Arguments ConfigDescription {V}.
Arguments ConfigType {V}.
Arguments ConfigVersions {V}.
Arguments DefaultVersion {V}.
Arguments Variables {V}.
Arguments FileNameOverrideMap {V}.
Arguments Validators {V}.
Arguments Transformers {V}.

(** The assignment [d.Variables = vars]. *)
Definition withVariables {V W : Type} (d : DraftConfigOf V) (vars : list W) : DraftConfigOf W :=
  mkDraftConfig (TemplateName d) (DisplayName d) (ConfigDescription d)
    (ConfigType d) (ConfigVersions d) (DefaultVersion d) vars
    (FileNameOverrideMap d) (Validators d) (Transformers d).

(** The built-in catalogue of the packages [validators] and [transformers],
    which live outside the files embedded here. *)
Class Builtins : Type := {
  validators_GetValidator : string → VariableValidator;
  transformers_GetTransformer : string → VariableTransformer
}.

(** The part of [github.com/blang/semver/v4] the config uses:
    [semver.Parse] and [semver.ParseRange]; a parsed range is a predicate
    on versions. *)
Class Semver : Type := {
  Version : Type;
  semver_Parse : string → result Version;
  semver_ParseRange : string → result (Version → bool)
}.

(** The error values of the config, by the text the source gives them. *)
Definition errNotFound (name : string) : error :=
  ErrorNew ("variable " +:+ name +:+ " not found").
Definition errNoValue (name : string) : error :=
  ErrorNew ("variable " +:+ name +:+ " has no value").
Definition errValidation (err : error) : error :=
  ErrorWrap "failed variable validation: " err.
Definition errTransformation (err : error) : error :=
  ErrorWrap "failed variable transformation: " err.
Definition errApplyDefault (err : error) : error :=
  ErrorWrap "apply default variables: " err.
Definition errRecurse (err : error) : error :=
  ErrorWrap "recurse reference vars: " err.
Definition errCyclical : error :=
  ErrorNew "cyclical reference detected".
Definition errNoDefault (name : string) : error :=
  ErrorNew ("variable " +:+ name +:+ " has no default value").
Definition errInvalidVersion (err : error) : error :=
  ErrorWrap "invalid version: " err.
Definition errInvalidConfigRange (err : error) : error :=
  ErrorWrap "invalid config version range: " err.
Definition errOutOfRange (version versions : string) : error :=
  ErrorNew ("version " +:+ version +:+ " is outside of config version range " +:+ versions).
Definition errInvalidVariableVersions (err : error) : error :=
  ErrorWrap "invalid variable versions: " err.

(* ===================================================================== *)
(** * Part II: the config over values *)
(* ===================================================================== *)

(** Within one config the entries of [Variables] are distinct objects (the
    decoder, [SetVariable] and [DeepCopy] each allocate them), so an
    in-place update of the entry at index [i] is the update of position [i]
    of the list. *)
Abbreviation DraftConfig := (DraftConfigOf BuilderVar).

(** The assignment [variable.Value = value] for the entry at index [i]. *)
Definition setVariableValue (d : DraftConfig) (i : nat) (variable : BuilderVar)
    (value : string) : DraftConfig :=
  withVariables d (<[i := withValue variable value]> (Variables d)).

(** The loop of [GetVariable]: the first entry with the name. *)
Fixpoint findVariable (vars : list BuilderVar) (name : string) : option BuilderVar :=
  match vars with
  | [] => None
  | variable :: rest =>
      if decide (Name variable = name) then Some variable
      else findVariable rest name
  end.

Definition GetVariable (d : DraftConfig) (name : string) : result BuilderVar :=
  match findVariable (Variables d) name with
  | Some variable => Ok variable
  | None => Err (errNotFound name)
  end.

(** [GetVariableMap]: later entries of a name overwrite earlier ones. *)
Definition GetVariableMap (d : DraftConfig) : gmap string string :=
  foldl (λ variableMap variable, <[Name variable := Value variable]> variableMap)
    ∅ (Variables d).

(** [GetVariableExampleValues]. *)
Definition GetVariableExampleValues (d : DraftConfig) : gmap string (list string) :=
  foldl (λ m variable,
           if decide (0 < length (ExampleValues variable))
           then <[Name variable := ExampleValues variable]> m else m)
    ∅ (Variables d).

Section Registry.
Context `{!Builtins}.

(** [GetVariableTransformer]: the caller's override, else the built-in. *)
Definition GetVariableTransformer {V} (d : DraftConfigOf V) (kind : string) : VariableTransformer :=
  match Transformers d !! kind with
  | Some transformer => transformer
  | None => transformers_GetTransformer kind
  end.

(** [GetVariableValidator]: the caller's override, else the built-in. *)
Definition GetVariableValidator {V} (d : DraftConfigOf V) (kind : string) : VariableValidator :=
  match Validators d !! kind with
  | Some validator => validator
  | None => validators_GetValidator kind
  end.

(** The loop of [GetVariableValue] over the entries still to visit. *)
Fixpoint getVariableValueFrom (d : DraftConfig) (vars : list BuilderVar)
    (name : string) : result string :=
  match vars with
  | [] => Err (errNotFound name)
  | variable :: rest =>
      if decide (Name variable = name) then
        if decide (Value variable = "") then Err (errNoValue name)
        else
          match GetVariableValidator d (Kind variable) (Value variable) with
          | Some err => Err (errValidation err)
          | None =>
              match GetVariableTransformer d (Kind variable) (Value variable) with
              | Err err => Err (errTransformation err)
              | Ok response => Ok response
              end
          end
      else getVariableValueFrom d rest name
  end.

Definition GetVariableValue (d : DraftConfig) (name : string) : result string :=
  getVariableValueFrom d (Variables d) name.
End Registry.

(** [SetVariableTransformer] and [SetVariableValidator]. *)
Definition SetVariableTransformer {V} (d : DraftConfigOf V) (kind : string)
    (transformer : VariableTransformer) : DraftConfigOf V :=
  mkDraftConfig (TemplateName d) (DisplayName d) (ConfigDescription d)
    (ConfigType d) (ConfigVersions d) (DefaultVersion d) (Variables d)
    (FileNameOverrideMap d) (Validators d) (<[kind := transformer]> (Transformers d)).

Definition SetVariableValidator {V} (d : DraftConfigOf V) (kind : string)
    (validator : VariableValidator) : DraftConfigOf V :=
  mkDraftConfig (TemplateName d) (DisplayName d) (ConfigDescription d)
    (ConfigType d) (ConfigVersions d) (DefaultVersion d) (Variables d)
    (FileNameOverrideMap d) (<[kind := validator]> (Validators d)) (Transformers d).

(** [SetFileNameOverride]. *)
Definition SetFileNameOverride {V} (d : DraftConfigOf V) (input override : string) : DraftConfigOf V :=
  mkDraftConfig (TemplateName d) (DisplayName d) (ConfigDescription d)
    (ConfigType d) (ConfigVersions d) (DefaultVersion d) (Variables d)
    (<[input := override]> (FileNameOverrideMap d)) (Validators d) (Transformers d).

(** [SetVariable] over values: the first entry named [name] takes the
    value; without one, a new entry is appended. *)
Fixpoint setFirst (vars : list BuilderVar) (name value : string) : option (list BuilderVar) :=
  match vars with
  | [] => None
  | variable :: rest =>
      if decide (Name variable = name) then Some (withValue variable value :: rest)
      else cons variable <$> setFirst rest name value
  end.

Definition SetVariable (d : DraftConfig) (name value : string) : DraftConfig :=
  match setFirst (Variables d) name value with
  | None => withVariables d (Variables d ++ [newBuilderVar name value])
  | Some vars => withVariables d vars
  end.

(** ** Default resolution *)

(** [recurseReferenceVars]. The recursion of the source has no measure
    that decreases, so the embedding counts the calls it may still make:
    [None] says that [fuel] calls did not reach a [return]. *)
Fixpoint recurseReferenceVars (fuel : nat) (d : DraftConfig)
    (referenceVar variableCheck : BuilderVar) (isFirst : bool) : option (result string) :=
  match fuel with
  | 0 => None
  | S fuel' =>
      if negb isFirst && bool_decide (Name referenceVar = Name variableCheck)
      then Some (Err errCyclical)
      else if decide (Value referenceVar ≠ "") then Some (Ok (Value referenceVar))
      else if decide (ReferenceVar (Default referenceVar) ≠ "") then
        match GetVariable d (ReferenceVar (Default referenceVar)) with
        | Err err => Some (Err (errRecurse err))
        | Ok referenceVar' => recurseReferenceVars fuel' d referenceVar' variableCheck false
        end
      else Some (Ok (DefaultValue (Default referenceVar)))
  end.

(** What a mutating method leaves behind: the config as it stands at the
    [return], and the error returned ([None] for nil). *)
Definition outcome : Type := DraftConfig * option error.

(** [for _, variable := range d.Variables { body }]: the slice is read once,
    so there are [n] iterations; iteration [i] runs the body on the entry
    at index [i] as it stands then. A body that returns an error ends the
    method. *)
Fixpoint rangeVariables (body : DraftConfig → nat → BuilderVar → option outcome)
    (n i : nat) (d : DraftConfig) : option outcome :=
  match n with
  | 0 => Some (d, None)
  | S n' =>
      match Variables d !! i with
      | None => Some (d, None)
      | Some variable =>
          match body d i variable with
          | None => None
          | Some (d', Some err) => Some (d', Some err)
          | Some (d', None) => rangeVariables body n' (S i) d'
          end
      end
  end.

(** The second [if variable.Value == ""] of the loop bodies (lines 191-198
    and 247-254): the inline default, or the error. *)
Definition inlineDefault (d : DraftConfig) (i : nat) (variable : BuilderVar) : outcome :=
  if decide (Value variable = "") then
    if decide (DefaultValue (Default variable) ≠ "")
    then (setVariableValue d i variable (DefaultValue (Default variable)), None)
    else (d, Some (errNoDefault (Name variable)))
  else (d, None).

(** The resolution of one unset variable, the text that
    [ApplyDefaultVariables] (lines 178-198) and
    [ApplyDefaultVariablesForVersion] (lines 233-254) share. *)
Definition resolveDefault (fuel : nat) (d : DraftConfig) (i : nat)
    (variable : BuilderVar) : option outcome :=
  if decide (ReferenceVar (Default variable) ≠ "") then
    match GetVariable d (ReferenceVar (Default variable)) with
    | Err err => Some (d, Some (errApplyDefault err))
    | Ok referenceVar =>
        match recurseReferenceVars fuel d referenceVar referenceVar true with
        | None => None
        | Some (Err err) => Some (d, Some (errApplyDefault err))
        | Some (Ok defaultVal) =>
            Some (inlineDefault (setVariableValue d i variable defaultVal) i
                    (withValue variable defaultVal))
        end
    end
  else Some (inlineDefault d i variable).

(** The loop body of [ApplyDefaultVariables]. *)
Definition applyDefaultBody (fuel : nat) (d : DraftConfig) (i : nat)
    (variable : BuilderVar) : option outcome :=
  if decide (Value variable = "") then resolveDefault fuel d i variable
  else Some (d, None).

Definition ApplyDefaultVariables (fuel : nat) (d : DraftConfig) : option outcome :=
  rangeVariables (applyDefaultBody fuel) (length (Variables d)) 0 d.

Section ForVersion.
Context `{!Semver}.

(** The loop body of [ApplyDefaultVariablesForVersion]. *)
Definition applyDefaultForVersionBody (fuel : nat) (v : Version) (d : DraftConfig)
    (i : nat) (variable : BuilderVar) : option outcome :=
  if decide (Value variable = "") then
    match semver_ParseRange (Versions variable) with
    | Err err => Some (d, Some (errInvalidVariableVersions err))
    | Ok expectedRange =>
        if negb (expectedRange v) then Some (d, None)
        else resolveDefault fuel d i variable
    end
  else Some (d, None).

Definition ApplyDefaultVariablesForVersion (fuel : nat) (d : DraftConfig)
    (version : string) : option outcome :=
  match semver_Parse version with
  | Err err => Some (d, Some (errInvalidVersion err))
  | Ok v =>
      match semver_ParseRange (ConfigVersions d) with
      | Err err => Some (d, Some (errInvalidConfigRange err))
      | Ok expectedConfigVersionRange =>
          if negb (expectedConfigVersionRange v)
          then Some (d, Some (errOutOfRange version (ConfigVersions d)))
          else rangeVariables (applyDefaultForVersionBody fuel v)
                 (length (Variables d)) 0 d
      end
  end.
End ForVersion.

(* ===================================================================== *)
(** * Part III: the config over a store of variable objects *)
(* ===================================================================== *)

(** [Variables] is a [[]*BuilderVar]: the entries are pointers, and two
    configs may hold the same object. The store lists the [BuilderVar]
    objects allocated so far, a pointer is a position in it, and nothing is
    ever freed. A pointer the store does not hold stands for nil:
    dereferencing it panics, which the operations below report as [None]. *)
Abbreviation ptr := nat.
Abbreviation store := (list BuilderVar).
Abbreviation DraftConfigP := (DraftConfigOf ptr).

(** Allocation, [&BuilderVar{...}]. *)
Definition new (h : store) (bv : BuilderVar) : ptr * store := (length h, h ++ [bv]).

(** Every entry of the config points to an object. *)
Definition allocated (h : store) (d : DraftConfigP) : Prop :=
  Forall (λ p : ptr, p < length h) (Variables d).

(** The config as one reads it through its pointers. *)
Definition readConfig (h : store) (d : DraftConfigP) : option DraftConfig :=
  withVariables d <$> mapM (λ p : ptr, h !! p) (Variables d).

(** The loop of [GetVariable], which returns the pointer. *)
Fixpoint findVariableP (h : store) (ptrs : list ptr) (name : string) : option (result ptr) :=
  match ptrs with
  | [] => Some (Err (errNotFound name))
  | p :: rest =>
      variable ← h !! p;
      if decide (Name variable = name) then Some (Ok p)
      else findVariableP h rest name
  end.

Definition GetVariableP (h : store) (d : DraftConfigP) (name : string) : option (result ptr) :=
  findVariableP h (Variables d) name.

(** [SetVariable]: the object found takes the value in place; without one,
    a new object is allocated and appended. *)
Definition SetVariableP (h : store) (d : DraftConfigP) (name value : string)
    : option (DraftConfigP * store) :=
  found ← GetVariableP h d name;
  match found with
  | Err _ =>
      let '(p, h') := new h (newBuilderVar name value) in
      Some (withVariables d (Variables d ++ [p]), h')
  | Ok p =>
      variable ← h !! p;
      Some (d, <[p := withValue variable value]> h)
  end.

(** Go's [copy(dst, src)]: the first [min (len dst) (len src)] elements of
    [src] overwrite those of [dst]. *)
Definition copy {A : Type} (dst src : list A) : list A :=
  take (length dst) src ++ drop (length src) dst.

(** [func (bv *BuilderVar) DeepCopy() *BuilderVar]. The literal names no
    [ConditionalRef], which is therefore the zero value. *)
Definition BuilderVar_DeepCopy (h : store) (bv : ptr) : option (ptr * store) :=
  v ← h !! bv;
  Some (new h (mkBuilderVar (Name v) zeroConditionalRef (Default v) (Description v)
                 (copy (replicate (length (ExampleValues v)) "") (ExampleValues v))
                 (VarType v) (Kind v) (Value v) (Versions v))).

(** The loop [newConfig.Variables[i] = variable.DeepCopy()]: the copies in
    the order of the originals. The entries are pointers of the store of
    the call, [h0]: one that [h0] does not hold is nil, and [DeepCopy] on
    it panics, whatever the loop has allocated by then in [h]. *)
Fixpoint deepCopyVariables (h0 h : store) (ptrs : list ptr) : option (list ptr * store) :=
  match ptrs with
  | [] => Some ([], h)
  | variable :: rest =>
      _ ← h0 !! variable;
      '(p, h1) ← BuilderVar_DeepCopy h variable;
      '(ps, h2) ← deepCopyVariables h0 h1 rest;
      Some (p :: ps, h2)
  end.

(** [func (d *DraftConfig) DeepCopy() *DraftConfig]. The literal names
    neither [Validators] nor [Transformers]; the file name overrides are
    inserted one by one into a new map. *)
Definition DeepCopy (h : store) (d : DraftConfigP) : option (DraftConfigP * store) :=
  '(ptrs, h') ← deepCopyVariables h h (Variables d);
  Some (mkDraftConfig (TemplateName d) (DisplayName d) (ConfigDescription d)
          (ConfigType d) (ConfigVersions d) (DefaultVersion d) ptrs
          (list_to_map (map_to_list (FileNameOverrideMap d))) ∅ ∅, h').

(* ===================================================================== *)
(** * Part IV: the renderer *)
(* ===================================================================== *)

(** ** The standard library the renderer calls *)

(** An [fs.DirEntry] together with what lies behind it: for a file, what
    [fs.ReadFile] returns for its path; for a directory, the entries
    [fs.ReadDir] lists, in its (lexical) order. *)
#[local] Unset Elimination Schemes.
Inductive DirEntry : Type :=
| File (name : string) (contents : result string)
| Dir (name : string) (entries : list DirEntry).
#[local] Set Elimination Schemes.

Definition DirEntry_Name (d : DirEntry) : string :=
  match d with File name _ => name | Dir name _ => name end.

Definition IsDir (d : DirEntry) : bool :=
  match d with File _ _ => false | Dir _ _ => true end.

(** An [fs.FS], by the entry a root path names; [None] where [fs.Stat]
    fails. *)
Definition fs_FS : Type := string → option DirEntry.

(** [path.Join name elem] on the clean paths of an [fs.FS], whose root is
    ["."]. *)
Definition path_Join (name elem : string) : string :=
  if decide (name = ".") then elem else name +:+ "/" +:+ elem.

Definition isSlash (c : ascii) : bool := bool_decide (c = "/"%char).

Fixpoint hasSlash (s : string) : bool :=
  match s with
  | EmptyString => false
  | String c rest => isSlash c || hasSlash rest
  end.

(** The path without its trailing separators. *)
Fixpoint stripTrailingSlashes (s : string) : string :=
  match s with
  | EmptyString => EmptyString
  | String c rest =>
      match stripTrailingSlashes rest with
      | EmptyString => if isSlash c then EmptyString else String c EmptyString
      | rest' => String c rest'
      end
  end.

(** The text after the last separator. *)
Fixpoint afterLastSlash (s : string) : string :=
  match s with
  | EmptyString => EmptyString
  | String c rest =>
      if hasSlash rest then afterLastSlash rest
      else if isSlash c then rest else String c rest
  end.

(** [filepath.Base] (with [/] as the separator and no volume names): ["."]
    for the empty path, the last element once trailing separators are
    removed, and ["/"] for a path of separators only. *)
Definition filepath_Base (path : string) : string :=
  if decide (path = "") then "."
  else
    let last := afterLastSlash (stripTrailingSlashes path) in
    if decide (last = "") then "/" else last.

(** Folding of the ASCII letters. *)
Definition foldAscii (c : ascii) : ascii :=
  let n := nat_of_ascii c in
  if decide (65 ≤ n ∧ n ≤ 90) then ascii_of_nat (n + 32) else c.

Fixpoint foldString (s : string) : string :=
  match s with
  | EmptyString => EmptyString
  | String c rest => String (foldAscii c) (foldString rest)
  end.

(** [strings.EqualFold] against a text of ASCII letters other than k and s
    (the only letters with a fold outside ASCII), which ["draft.yaml"]
    is: equality up to the case of the ASCII letters. *)
Definition strings_EqualFold (s t : string) : bool :=
  bool_decide (foldString s = foldString t).

(** ** The collaborators *)

(** [templatewriter.TemplateWriter]: the writer has a state of its own,
    which [WriteFile] may change whether or not it returns an error. *)
Class TemplateWriter : Type := {
  writerState : Type;
  WriteFile : string → string → writerState → writerState * option error
}.

(** [handlers.Template]. A nil [Config] or [templateFiles] is [None]. The
    field [templateWriter] is kept apart: the renderer is given first for
    a template whose writer is set, with the state of that writer
    threaded, and then for a template whose [templateWriter] is nil. *)
Record Template : Type := mkTemplate {
  Config : option DraftConfig;
  templateFiles : option fs_FS;
  src : string;
  dest : string;
  version : string
}.

(** The assignment to the config that [t.Config] points to. *)
Definition withConfig (t : Template) (d : DraftConfig) : Template :=
  mkTemplate (Some d) (templateFiles t) (src t) (dest t) (version t).

(** [text/template]: [New("template").Option("missingkey=error").Parse]
    and [Execute], which runs the parsed text against the [Template]. *)
Class TemplateEngine : Type := {
  parsedTemplate : Type;
  tmpl_Parse : string → result parsedTemplate;
  tmpl_Execute : parsedTemplate → Template → result string
}.

(** ** [generateTemplate], [writeTemplate], [validate] and [Generate] *)

Section Renderer.
Context `{!TemplateWriter, !TemplateEngine}.

(** [writeTemplate]. [file] is what [fs.ReadFile(templateFiles, inputFile)]
    returns, which the walk finds at the entry it stands on. *)
Definition writeTemplate (draftTemplate : Template) (inputFile : string)
    (file : result string) (w : writerState) : writerState * option error :=
  match file with
  | Err err => (w, Some err)
  | Ok text =>
      match tmpl_Parse text with
      | Err err => (w, Some err)
      | Ok tmpl =>
          match tmpl_Execute tmpl draftTemplate with
          | Err err => (w, Some err)
          | Ok buf =>
              WriteFile (dest draftTemplate +:+ "/" +:+ filepath_Base inputFile) buf w
          end
      end
  end.

(** The function literal that [generateTemplate] hands to [fs.WalkDir]. *)
Definition walkFn (template : Template) (path : string) (d : DirEntry)
    (w : writerState) : writerState * option error :=
  if IsDir d then (w, None)
  else if strings_EqualFold (DirEntry_Name d) "draft.yaml" then (w, None)
  else
    match d with
    | File _ contents => writeTemplate template path contents w
    | Dir _ _ => (w, None)
    end.

(** [fs.walkDir]: the function is called on the entry and then, for a
    directory, on each of its entries in turn; the first error ends the
    walk. (The function above returns nil or an error of a collaborator,
    never the walk's own [SkipDir] or [SkipAll]; an error of [fs.ReadDir]
    is handed to the function, which returns nil on a directory, and the
    walk goes on with the entries that were listed.) *)
Fixpoint walkDir (fn : string → DirEntry → writerState → writerState * option error)
    (name : string) (d : DirEntry) (w : writerState) : writerState * option error :=
  match fn name d w with
  | (w1, Some err) => (w1, Some err)
  | (w1, None) =>
      match d with
      | File _ _ => (w1, None)
      | Dir _ dirs =>
          (fix walkEntries (dirs : list DirEntry) (w : writerState)
             : writerState * option error :=
             match dirs with
             | [] => (w, None)
             | d1 :: rest =>
                 match walkDir fn (path_Join name (DirEntry_Name d1)) d1 w with
                 | (w2, Some err) => (w2, Some err)
                 | (w2, None) => walkEntries rest w2
                 end
             end) dirs w1
      end
  end.

(** [generateTemplate]. When [fs.Stat] fails on the root, [fs.WalkDir]
    calls the function with a nil entry, whose [d.IsDir()] panics: [None]. *)
Definition generateTemplate (template : Template) (w : writerState)
    : option (writerState * option error) :=
  fsys ← templateFiles template;
  root ← fsys (src template);
  Some (walkDir (walkFn template) (src template) root w).

(** [validate]. *)
Definition validate (t : option Template) : option error :=
  match t with
  | None => Some (ErrorNew "template is nil")
  | Some t =>
      if decide (Config t = None) then Some (ErrorNew "template draft config is nil")
      else if decide (src t = "") then Some (ErrorNew "template source is empty")
      else if decide (dest t = "") then Some (ErrorNew "template destination is empty")
      else if decide (templateFiles t = None) then Some (ErrorNew "template files is nil")
      else if decide (version t = "") then Some (ErrorNew "template version is empty")
      else None
  end.
End Renderer.

(** How a call of [Generate] ends. *)
Inductive execution (A : Type) : Type :=
| Returns (a : A)
| Panics
| OutOfFuel.
Arguments Returns {A} a.
Arguments Panics {A}.
Arguments OutOfFuel {A}.

Section Generate.
Context `{!Semver, !TemplateWriter, !TemplateEngine}.

(** [Generate]: the template and the writer as they stand at the [return],
    and the error returned. *)
Definition Generate (fuel : nat) (t : option Template) (w : writerState)
    : execution (option Template * writerState * option error) :=
  match validate t with
  | Some err => Returns (t, w, Some err)
  | None =>
      match t with
      | None => Panics
      | Some t0 =>
          match Config t0 with
          | None => Panics
          | Some d =>
              match ApplyDefaultVariablesForVersion fuel d (version t0) with
              | None => OutOfFuel
              | Some (d', Some err) =>
                  Returns (Some (withConfig t0 d'), w,
                           Some (ErrorWrap "create workflow files: " err))
              | Some (d', None) =>
                  let t1 := withConfig t0 d' in
                  match generateTemplate t1 w with
                  | None => Panics
                  | Some (w1, Some err) => Returns (Some t1, w1, Some err)
                  | Some (w1, None) =>
                      match generateTemplate t1 w1 with
                      | None => Panics
                      | Some (w2, err) => Returns (Some t1, w2, err)
                      end
                  end
              end
          end
      end
  end.
End Generate.

(** ** The renderer on a template without a writer *)

(** [templateWriter] is an interface value: [GetTemplate] stores it as it
    is given, and [validate] does not look at it. On a template whose
    [templateWriter] is nil the call of [WriteFile] (line 141) panics,
    [None]; the steps before it are those of [writeTemplate] above.
    Nothing is written, so there is no state of a writer to thread. *)
Section NilWriter.
Context `{!TemplateEngine}.

Definition writeTemplateNil (draftTemplate : Template) (inputFile : string)
    (file : result string) : option (option error) :=
  match file with
  | Err err => Some (Some err)
  | Ok text =>
      match tmpl_Parse text with
      | Err err => Some (Some err)
      | Ok tmpl =>
          match tmpl_Execute tmpl draftTemplate with
          | Err err => Some (Some err)
          | Ok buf => None
          end
      end
  end.

Definition walkFnNil (template : Template) (path : string) (d : DirEntry)
    : option (option error) :=
  if IsDir d then Some None
  else if strings_EqualFold (DirEntry_Name d) "draft.yaml" then Some None
  else
    match d with
    | File _ contents => writeTemplateNil template path contents
    | Dir _ _ => Some None
    end.

(** [fs.walkDir], for a function that may panic. *)
Fixpoint walkDirNil (fn : string → DirEntry → option (option error))
    (name : string) (d : DirEntry) : option (option error) :=
  match fn name d with
  | None => None
  | Some (Some err) => Some (Some err)
  | Some None =>
      match d with
      | File _ _ => Some None
      | Dir _ dirs =>
          (fix walkEntries (dirs : list DirEntry) : option (option error) :=
             match dirs with
             | [] => Some None
             | d1 :: rest =>
                 match walkDirNil fn (path_Join name (DirEntry_Name d1)) d1 with
                 | None => None
                 | Some (Some err) => Some (Some err)
                 | Some None => walkEntries rest
                 end
             end) dirs
      end
  end.

Definition generateTemplateNil (template : Template) : option (option error) :=
  fsys ← templateFiles template;
  root ← fsys (src template);
  walkDirNil (walkFnNil template) (src template) root.
End NilWriter.

Section GenerateNil.
Context `{!Semver, !TemplateEngine}.

(** [Generate] on a template whose [templateWriter] is nil: the template
    as it stands at the [return], and the error returned. *)
Definition GenerateNil (fuel : nat) (t : option Template)
    : execution (option Template * option error) :=
  match validate t with
  | Some err => Returns (t, Some err)
  | None =>
      match t with
      | None => Panics
      | Some t0 =>
          match Config t0 with
          | None => Panics
          | Some d =>
              match ApplyDefaultVariablesForVersion fuel d (version t0) with
              | None => OutOfFuel
              | Some (d', Some err) =>
                  Returns (Some (withConfig t0 d'),
                           Some (ErrorWrap "create workflow files: " err))
              | Some (d', None) =>
                  let t1 := withConfig t0 d' in
                  match generateTemplateNil t1 with
                  | None => Panics
                  | Some (Some err) => Returns (Some t1, Some err)
                  | Some None =>
                      match generateTemplateNil t1 with
                      | None => Panics
                      | Some err => Returns (Some t1, err)
                      end
                  end
              end
          end
      end
  end.
End GenerateNil.

(* ===================================================================== *)
(** * Part IV-a: the other operations of the config and of the handlers *)
(* ===================================================================== *)

(** [VariableMapToDraftConfig]. Go ranges over a map in an order of its
    own choosing: [order] is that order, an enumeration of the entries of
    the map, each key once. *)
Definition VariableMapToDraftConfig (d : DraftConfig) (order : list (string * string))
    : DraftConfig :=
  foldl (λ d flag, SetVariable d flag.1 flag.2) d order.

(** What [GetTemplate] calls and the files here do not hold:
    [IsValidVersion] of the same package, [strings.ToLower], and
    [filepath.Abs], of which only the error matters. *)
Class Handlers : Type := {
  IsValidVersion : string → string → bool;
  strings_ToLower : string → string;
  filepath_Abs : string → option error
}.

(** The catalogue [templateConfigs] maps a name to a pointer to a
    [Template]; an entry is the object it points to, together with the
    [templateWriter] field that the record of Part IV leaves out ([None]
    for the nil interface). [GetTemplate] assigns to the object in the
    catalogue and returns the pointer, which the key stands for. [None]
    is the panic of [template.Config.DefaultVersion] and
    [template.Config.Versions] on a nil [Config]. *)
Definition GetTemplate `{!Handlers} {W : Type} (templateConfigs : gmap string (Template * option W))
    (name version dest : string) (templateWriter : option W)
    : option (gmap string (Template * option W) * result string) :=
  match templateConfigs !! strings_ToLower name with
  | None => Some (templateConfigs, Err (ErrorNew ("template not found: " +:+ name)))
  | Some (template, _) =>
      config ← Config template;
      let version := if decide (version = "") then DefaultVersion config else version in
      if negb (IsValidVersion (ConfigVersions config) version)
      then Some (templateConfigs, Err (ErrorNew ("invalid version: " +:+ version)))
      else
        let dest := if decide (dest = "") then "." else dest in
        match filepath_Abs dest with
        | Some _ => Some (templateConfigs, Err (ErrorNew ("invalid destination: " +:+ dest)))
        | None =>
            Some (<[strings_ToLower name :=
                      (mkTemplate (Config template) (templateFiles template) (src template)
                         dest version, templateWriter)]> templateConfigs,
                  Ok (strings_ToLower name))
        end
  end.

(* ===================================================================== *)
(** * Part IV-b: the languages *)
(* ===================================================================== *)

(** What [languages.go] uses and does not hold: the type [Config] of its
    package, of which it builds [Config{Language: lang}]; the embedded
    tree [builders], read by path; [viper], whose state is global;
    [os.WriteFile]; and [embedutils.EmbedFStoMap]. *)
Class LanguagesEnv : Type := {
  LangConfig : Type;
  ConfigOfLanguage : string → LangConfig;
  builders_ReadDir : string → result (list DirEntry);
  builders_ReadFile : string → result string;
  viperState : Type;
  viper_SetConfigFile : string → viperState → viperState;
  viper_ReadConfig : string → viperState → viperState;
  viper_Unmarshal : viperState → result LangConfig;
  osState : Type;
  os_WriteFile : string → string → osState → osState * option error;
  embedutils_EmbedFStoMap : string → result (gmap string DirEntry)
}.

Definition parentDirName : string := "builders".

(** [path.Base], which is [filepath.Base] where the separator is [/]. *)
Definition path_Base (path : string) : string := filepath_Base path.

(** [Languages]. A Go map that is nil reads like the empty map, and a
    write to it panics: [configs] is [None] when nil. *)
Record Languages `{!LanguagesEnv} : Type := mkLanguages {
  langs : gmap string DirEntry;
  configs : option (gmap string LangConfig)
}.
Arguments mkLanguages {_} langs configs.

Section Languages.
Context `{!LanguagesEnv}.

Definition ContainsLanguage (l : Languages) (lang : string) : bool :=
  match langs l !! lang with
  | Some _ => true
  | None => false
  end.

(** The loop of [CreateDockerfileForLanguage] over the files still to
    copy. *)
Fixpoint copyFiles (dir : string) (files : list DirEntry) (os : osState)
    : osState * option error :=
  match files with
  | [] => (os, None)
  | f :: rest =>
      let filePath := dir +:+ "/" +:+ DirEntry_Name f in
      match builders_ReadFile filePath with
      | Err err => (os, Some err)
      | Ok file =>
          match os_WriteFile (path_Base (DirEntry_Name f)) file os with
          | (os1, Some err) => (os1, Some err)
          | (os1, None) => copyFiles dir rest os1
          end
      end
  end.

Definition CreateDockerfileForLanguage (l : Languages) (lang : string) (os : osState)
    : osState * option error :=
  match langs l !! lang with
  | None => (os, Some (ErrorNew ("language " +:+ lang +:+ " is not supported")))
  | Some val =>
      let dir := parentDirName +:+ "/" +:+ DirEntry_Name val in
      match builders_ReadDir dir with
      | Err err => (os, Some err)
      | Ok files => copyFiles dir files os
      end
  end.

(** [loadConfig]; the error of [viper.ReadConfig] is dropped. *)
Definition loadConfig (l : Languages) (lang : string) (vs : viperState)
    : viperState * result LangConfig :=
  match langs l !! lang with
  | None => (vs, Err (ErrorNew ("language " +:+ lang +:+ " unsupported")))
  | Some val =>
      let configPath := parentDirName +:+ "/" +:+ DirEntry_Name val +:+ "/config.yaml" in
      match builders_ReadFile configPath with
      | Err err => (vs, Err err)
      | Ok configBytes =>
          let vs' := viper_ReadConfig configBytes (viper_SetConfigFile "yaml" vs) in
          (vs', viper_Unmarshal vs')
      end
  end.

(** [GetConfig]; [None] is the nil pointer. *)
Definition GetConfig (l : Languages) (lang : string) : option LangConfig :=
  match configs l with
  | None => None
  | Some m => m !! lang
  end.

(** One iteration of [PopulateConfigs]; [None] is the panic of the
    assignment to an entry of a nil map. *)
Definition populateConfig (l : Languages) (lang : string) (vs : viperState)
    : option (Languages * viperState) :=
  let '(vs', loaded) := loadConfig l lang vs in
  let config := match loaded with
                | Err _ => ConfigOfLanguage lang
                | Ok config => config
                end in
  m ← configs l;
  Some (mkLanguages (langs l) (Some (<[lang := config]> m)), vs').

(** [PopulateConfigs], ranging over [langs] in the order [order]. *)
Fixpoint PopulateConfigs (order : list string) (l : Languages) (vs : viperState)
    : option (Languages * viperState) :=
  match order with
  | [] => Some (l, vs)
  | lang :: rest =>
      '(l', vs') ← populateConfig l lang vs;
      PopulateConfigs rest l' vs'
  end.

(** How [CreateLanguages] ends: with the languages, with [log.Fatal], or
    with a panic. *)
Inductive created : Type :=
| Created (l : Languages) (vs : viperState)
| Fatal (err : error)
| Panicked.

(** [CreateLanguages]; [order] is the order in which [PopulateConfigs]
    ranges over the map that [EmbedFStoMap] returns. *)
Definition CreateLanguages (order : list string) (vs : viperState) : created :=
  match embedutils_EmbedFStoMap parentDirName with
  | Err err => Fatal err
  | Ok langMap =>
      match PopulateConfigs order (mkLanguages langMap None) vs with
      | None => Panicked
      | Some (l, vs') => Created l vs'
      end
  end.
End Languages.

(* ===================================================================== *)
(** * Part V: sample collaborators and sample configs *)
(* ===================================================================== *)

(** The theorems of Part VII hold for every collaborator. The instances here
    serve to run them: a semver of plain [MAJOR.MINOR.PATCH] versions and
    ranges of comparators separated by blanks, a catalogue with one
    validator, a template language of variable references, and a writer
    that keeps what it is given. *)

Fixpoint splitOn (sep : ascii) (s : string) : list string :=
  match s with
  | EmptyString => [EmptyString]
  | String c rest =>
      if decide (c = sep) then EmptyString :: splitOn sep rest
      else
        match splitOn sep rest with
        | [] => [String c EmptyString]
        | part :: parts => String c part :: parts
        end
  end.

Definition digit (c : ascii) : option nat :=
  let n := nat_of_ascii c in
  if decide (48 ≤ n ∧ n ≤ 57) then Some (n - 48) else None.

Fixpoint parseDigits (acc : nat) (s : string) : option nat :=
  match s with
  | EmptyString => Some acc
  | String c rest => d ← digit c; parseDigits (10 * acc + d) rest
  end.

(** A numeric identifier: digits, without a leading zero. *)
Definition parseNumber (s : string) : option nat :=
  match s with
  | EmptyString => None
  | String c rest =>
      if decide (c = "0"%char ∧ rest ≠ EmptyString) then None else parseDigits 0 s
  end.

Definition sampleParse (s : string) : result (nat * nat * nat) :=
  match splitOn "."%char s with
  | [major; minor; patch] =>
      match parseNumber major, parseNumber minor, parseNumber patch with
      | Some x, Some y, Some z => Ok (x, y, z)
      | _, _, _ => Err (ErrorNew ("Invalid character(s) found in version " +:+ s))
      end
  | _ => Err (ErrorNew "No Major.Minor.Patch elements found")
  end.

Definition versionLt (v w : nat * nat * nat) : bool :=
  let '(a, b, c) := v in
  let '(x, y, z) := w in
  bool_decide (a < x ∨ (a = x ∧ (b < y ∨ (b = y ∧ c < z)))).

Definition versionEq (v w : nat * nat * nat) : bool := bool_decide (v = w).

Definition comparatorOn (s : string) (cmp : nat * nat * nat → nat * nat * nat → bool)
    : result (nat * nat * nat → bool) :=
  match sampleParse s with
  | Ok bound => Ok (λ v, cmp v bound)
  | Err err => Err (ErrorWrap "Could not parse version in range: " err)
  end.

Definition parseComparator (s : string) : result (nat * nat * nat → bool) :=
  match s with
  | String ">" (String "=" rest) => comparatorOn rest (λ v b, negb (versionLt v b))
  | String "<" (String "=" rest) => comparatorOn rest (λ v b, negb (versionLt b v))
  | String "!" (String "=" rest) => comparatorOn rest (λ v b, negb (versionEq v b))
  | String ">" rest => comparatorOn rest (λ v b, versionLt b v)
  | String "<" rest => comparatorOn rest versionLt
  | String "=" rest => comparatorOn rest versionEq
  | _ => comparatorOn s versionEq
  end.

Fixpoint allComparators (parts : list string) : result (nat * nat * nat → bool) :=
  match parts with
  | [] => Ok (λ _, true)
  | part :: rest =>
      match parseComparator part, allComparators rest with
      | Ok f, Ok g => Ok (λ v, f v && g v)
      | Err err, _ => Err err
      | _, Err err => Err err
      end
  end.

Definition sampleParseRange (s : string) : result (nat * nat * nat → bool) :=
  if decide (s = "") then Err (ErrorNew "empty range")
  else allComparators (splitOn " "%char s).

Definition sampleSemver : Semver :=
  {| Version := nat * nat * nat;
     semver_Parse := sampleParse;
     semver_ParseRange := sampleParseRange |}.

(** A catalogue whose kind ["int"] accepts the texts of digits; any other
    kind validates everything and transforms nothing. *)
Definition sampleBuiltins : Builtins :=
  {| validators_GetValidator := λ kind value,
       if decide (kind = "int") then
         match parseDigits 0 value with
         | Some _ => None
         | None => Some (ErrorNew ("not an integer: " +:+ value))
         end
       else None;
     transformers_GetTransformer := λ kind value, Ok value |}.

(** A template language: the text ["$NAME"] stands for
    [{{ .Config.GetVariableValue "NAME" }}], any other text for itself; a
    lone ["$"] does not parse. *)
Definition sampleEngine : TemplateEngine :=
  {| parsedTemplate := string;
     tmpl_Parse := λ text,
       if decide (text = "$") then Err (ErrorNew "template: missing name") else Ok text;
     tmpl_Execute := λ tmpl data,
       match tmpl with
       | String "$" name =>
           match Config data with
           | Some d => @GetVariableValue sampleBuiltins d name
           | None => Err (ErrorNew "nil pointer evaluating Config")
           end
       | _ => Ok tmpl
       end |}.

(** A writer that keeps the files in the order of the calls, and never
    fails. *)
Definition recordingWriter : TemplateWriter :=
  {| writerState := list (string * string);
     WriteFile := λ path bytes w, (w ++ [(path, bytes)], None) |}.

(** A writer that keeps the files and refuses a path it has been given
    before. *)
Definition exclusiveWriter : TemplateWriter :=
  {| writerState := list (string * string);
     WriteFile := λ path bytes w,
       if decide (path ∈ w.*1) then (w, Some (ErrorNew ("file exists: " +:+ path)))
       else (w ++ [(path, bytes)], None) |}.

(** Sample variables: one that refers to another, one with an inline
    default, one with a value. Each applies from version 0.0.1 on. *)
Definition referring (name ref : string) : BuilderVar :=
  mkBuilderVar name zeroConditionalRef (mkBuilderVarDefault false ref "") "" [] "string" "" "" ">=0.0.1".
Definition inlined (name value : string) : BuilderVar :=
  mkBuilderVar name zeroConditionalRef (mkBuilderVarDefault false "" value) "" [] "string" "" "" ">=0.0.1".
Definition valued (name kind value : string) : BuilderVar :=
  mkBuilderVar name zeroConditionalRef zeroDefault "" [] "string" kind value ">=0.0.1".

Definition configOf {V : Type} (vars : list V) : DraftConfigOf V :=
  mkDraftConfig "sample" "Sample" "" "deployment" ">=0.0.1" "0.0.1" vars ∅ ∅ ∅.

(** A -> B -> A. *)
Definition cfgABA : DraftConfig := configOf [referring "A" "B"; referring "B" "A"].
(** A -> B -> C -> B. *)
Definition cfgABCB : DraftConfig :=
  configOf [referring "A" "B"; referring "B" "C"; referring "C" "B"].
(** A -> B -> C -> C. *)
Definition cfgABCC : DraftConfig :=
  configOf [referring "A" "B"; referring "B" "C"; referring "C" "C"].
(** A -> B -> C, and C has the inline default ["x"]. *)
Definition cfgChain : DraftConfig :=
  configOf [referring "A" "B"; referring "B" "C"; inlined "C" "x"].
(** A -> B -> C -> D, where C has the value ["v"] and D the inline default
    ["x"]. *)
Definition cfgValued : DraftConfig :=
  configOf
    [ referring "A" "B"; referring "B" "C";
      mkBuilderVar "C" zeroConditionalRef (mkBuilderVarDefault false "D" "")
        "" [] "string" "" "v" ">=0.0.1";
      inlined "D" "x" ].

(** A config with one variable that has a value, and one with an inline
    default. *)
Definition cfgApp : DraftConfig :=
  configOf [valued "APP" "" "web"; inlined "PORT" "80"].

(** A source tree: a file of plain text, the config file, and a directory
    with a file that refers to a variable. *)
Definition sampleTree : DirEntry :=
  Dir "gradle"
    [ File "Dockerfile" (Ok "FROM gradle");
      File "Draft.yaml" (Ok "templateName: sample");
      Dir "conf" [ File "app.conf" (Ok "$APP") ] ].

Definition sampleFS : fs_FS :=
  λ root, if decide (root = "dockerfiles/gradle") then Some sampleTree else None.

Definition sampleTemplate : Template :=
  mkTemplate (Some cfgApp) (Some sampleFS) "dockerfiles/gradle" "out" "1.0.0".

(** The same tree with a file that cannot be read between the two
    others. *)
Definition brokenTree : DirEntry :=
  Dir "gradle"
    [ File "Dockerfile" (Ok "FROM gradle");
      File "LICENSE" (Err (ErrorNew "permission denied"));
      Dir "conf" [ File "app.conf" (Ok "$APP") ] ].

Definition brokenTemplate : Template :=
  mkTemplate (Some cfgApp) (Some (λ _, Some brokenTree)) "dockerfiles/gradle" "out" "1.0.0".

(** A config for the version checks: NEW applies from 2.0.0 on and has no
    default, OLD has a value. *)
Definition cfgSkip : DraftConfig :=
  configOf
    [ mkBuilderVar "NEW" zeroConditionalRef zeroDefault "" [] "string" "" "" ">=2.0.0";
      valued "OLD" "" "kept" ].

(** A config for the accessors: an integer that is none, an integer, a
    variable without a value, and a kind whose transformer the caller has
    overridden with one that fails. *)
Definition cfgKinds : DraftConfig :=
  SetVariableTransformer
    (configOf [ valued "REPLICAS" "int" "abc"; valued "PORT" "int" "8080";
                inlined "EMPTY" "later"; valued "IMAGE" "strict" "web" ])
    "strict" (λ _, Err (ErrorNew "no image allowed")).

(** A config with an inline default only. *)
Definition cfgInline : DraftConfig := configOf [inlined "PORT" "80"].

(** A store with two variable objects, and the config that points to
    them. *)
Definition sampleStore : store :=
  [ mkBuilderVar "APP" (mkBuilderVarConditionalReference "PORT") zeroDefault
      "the application" ["web"; "api"] "string" "" "web" ">=0.0.1";
    inlined "PORT" "80" ].

Definition cfgStore : DraftConfigP :=
  SetVariableValidator (configOf [0; 1]) "int" (λ _, None).

(** What a call of [Generate] leaves in the writer, and the error. *)
Definition writerAndError {W : Type}
    (r : execution (option Template * W * option error)) : execution (W * option error) :=
  match r with
  | Returns (_, w, err) => Returns (w, err)
  | Panics => Panics
  | OutOfFuel => OutOfFuel
  end.

(** ** Samples of the further properties *)

(** A config whose second variable refers to a variable that is missing,
    between two variables with inline defaults. *)
Definition cfgPartial : DraftConfig :=
  configOf [inlined "PORT" "80"; referring "HOST" "MISSING"; inlined "TAG" "latest"].

(** A -> B -> C, and C names a variable that the config does not hold. *)
Definition cfgMissing : DraftConfig :=
  configOf [referring "A" "B"; referring "B" "C"; referring "C" "MISSING"].

(** A config whose first variable refers to a variable that has a value,
    and has an inline default as well. *)
Definition cfgBoth : DraftConfig :=
  configOf
    [ mkBuilderVar "IMAGE" zeroConditionalRef (mkBuilderVarDefault false "APP" "scratch")
        "" [] "string" "" "" ">=0.0.1";
      valued "APP" "" "web" ].

(** A config whose variable has a range of versions that does not
    parse. *)
Definition cfgBadRange : DraftConfig :=
  configOf [ mkBuilderVar "PORT" zeroConditionalRef zeroDefault "" [] "string" "" "" "" ].

(** The flags of a caller: one names a variable of [cfgApp], the other
    does not. *)
Definition sampleFlags : gmap string string := {[ "APP" := "api"; "DEBUG" := "1" ]}.

(** A template whose file system has nothing at the source root. *)
Definition rootlessTemplate : Template :=
  mkTemplate (Some cfgApp) (Some (λ _, None)) "dockerfiles/none" "out" "1.0.0".

(** [IsValidVersion] with the sample versions, [strings.ToLower] on the
    ASCII letters, and a [filepath.Abs] that does not fail. *)
Definition sampleHandlers : Handlers :=
  {| IsValidVersion := λ range version,
       match sampleParseRange range, sampleParse version with
       | Ok accepts, Ok v => accepts v
       | _, _ => false
       end;
     strings_ToLower := foldString;
     filepath_Abs := λ _, None |}.

(** A catalogue with one template, as it is loaded: no destination, no
    version, no writer. A writer is its name here. *)
Definition sampleCatalogue : gmap string (Template * option string) :=
  {[ "gradle" := (mkTemplate (Some cfgApp) (Some sampleFS) "dockerfiles/gradle" "" "", None) ]}.

(** One language, [go], with three files of which the second cannot be
    read, and no config file. A config is its text, and [viper] holds the
    text it has read last; the files written are kept in the order of the
    calls. *)
Definition sampleLanguagesEnv : LanguagesEnv :=
  {| LangConfig := string;
     ConfigOfLanguage := λ lang, "language: " +:+ lang;
     builders_ReadDir := λ dir,
       if decide (dir = "builders/go")
       then Ok [ File "Dockerfile" (Ok "FROM golang");
                 File "LICENSE" (Err (ErrorNew "permission denied"));
                 File "go.mod" (Ok "module app") ]
       else Err (ErrorNew ("open " +:+ dir +:+ ": file does not exist"));
     builders_ReadFile := λ path,
       if decide (path = "builders/go/Dockerfile") then Ok "FROM golang"
       else if decide (path = "builders/go/go.mod") then Ok "module app"
       else Err (ErrorNew ("open " +:+ path +:+ ": permission denied"));
     viperState := string;
     viper_SetConfigFile := λ _ vs, vs;
     viper_ReadConfig := λ bytes _, bytes;
     viper_Unmarshal := λ vs, Ok vs;
     osState := list (string * string);
     os_WriteFile := λ name data os, (os ++ [(name, data)], None);
     embedutils_EmbedFStoMap := λ dir,
       if decide (dir = "builders") then Ok {[ "go" := Dir "go" [] ]}
       else Err (ErrorNew ("open " +:+ dir +:+ ": file does not exist")) |}.

(* ===================================================================== *)
(** * Part VI: the notions of the statements *)
(* ===================================================================== *)

(** ** The loop and its variables *)

(** The body at index [i] writes at most the value of the entry at [i]. *)
Definition ownValue (body : DraftConfig → nat → BuilderVar → option outcome) : Prop :=
  ∀ d i variable d' oe,
    Variables d !! i = Some variable →
    body d i variable = Some (d', oe) →
    ∃ s, d' = setVariableValue d i variable s.

(** Every variable has a value. *)
Definition fullySet (d : DraftConfig) : Prop :=
  ∀ i variable, Variables d !! i = Some variable → Value variable ≠ "".

(** For the version [v], a variable is settled when it has a value, or
    when its own range parses and excludes [v]. *)
Definition settledFor `{!Semver} (v : Version) (variable : BuilderVar) : Prop :=
  Value variable ≠ ""
  ∨ ∃ expectedRange, semver_ParseRange (Versions variable) = Ok expectedRange
                     ∧ expectedRange v = false.

(** ** The chain walk *)

(** One hop of the chain walk: a variable without a value whose default
    names a variable of the config. *)
Definition hop (d : DraftConfig) (v w : BuilderVar) : Prop :=
  Value v = ""
  ∧ ReferenceVar (Default v) ≠ ""
  ∧ GetVariable d (ReferenceVar (Default v)) = Ok w.

(** [walks d v w n]: [n] hops, at least one, lead from [v] to [w]. *)
Inductive walks (d : DraftConfig) : BuilderVar → BuilderVar → nat → Prop :=
| walks_one (v w : BuilderVar) :
    hop d v w → walks d v w 1
| walks_more (v w u : BuilderVar) (n : nat) :
    hop d v w → walks d w u n → walks d v u (S n).

(** The walk came back without a value: there was no reference, or the
    walk returned the empty string. *)
Definition chainEmpty (fuel : nat) (d : DraftConfig) (variable : BuilderVar) : Prop :=
  ReferenceVar (Default variable) = ""
  ∨ ∃ referenceVar,
      GetVariable d (ReferenceVar (Default variable)) = Ok referenceVar
      ∧ recurseReferenceVars fuel d referenceVar referenceVar true = Some (Ok "").

(** ** The copy and the files *)

(** What [BuilderVar.DeepCopy] builds from the object [v]. *)
Definition copyOf (v : BuilderVar) : BuilderVar :=
  mkBuilderVar (Name v) zeroConditionalRef (Default v) (Description v)
    (ExampleValues v) (VarType v) (Kind v) (Value v) (Versions v).

(** The files under an entry, each with the path the walk gives it, in
    the order of the walk. *)
Fixpoint filesUnder (name : string) (d : DirEntry) : list (string * string * result string) :=
  match d with
  | File base contents => [(name, base, contents)]
  | Dir _ dirs =>
      (fix filesOf (dirs : list DirEntry) : list (string * string * result string) :=
         match dirs with
         | [] => []
         | d1 :: rest => filesUnder (path_Join name (DirEntry_Name d1)) d1 ++ filesOf rest
         end) dirs
  end.

(** The files of a directory's entries. *)
Definition filesOfEntries (name : string) (dirs : list DirEntry)
    : list (string * string * result string) :=
  concat ((λ d1, filesUnder (path_Join name (DirEntry_Name d1)) d1) <$> dirs).

(** A file is rendered unless its name is that of the config file, in any
    case of the letters. *)
Definition isRendered (file : string * string * result string) : bool :=
  negb (strings_EqualFold file.1.2 "draft.yaml").

(** The files rendered one after the other, up to the first error. *)
Fixpoint writeAll `{!TemplateWriter, !TemplateEngine} (template : Template)
    (files : list (string * string * result string)) (w : writerState)
    : writerState * option error :=
  match files with
  | [] => (w, None)
  | file :: rest =>
      match writeTemplate template file.1.1 file.2 w with
      | (w1, Some err) => (w1, Some err)
      | (w1, None) => writeAll template rest w1
      end
  end.

(** The walk over the entries of a directory. *)
Definition walkEntries `{!TemplateWriter}
    (fn : string → DirEntry → writerState → writerState * option error)
    (name : string) : list DirEntry → writerState → writerState * option error :=
  fix walkEntries (dirs : list DirEntry) (w : writerState) : writerState * option error :=
    match dirs with
    | [] => (w, None)
    | d1 :: rest =>
        match walkDir fn (path_Join name (DirEntry_Name d1)) d1 w with
        | (w2, Some err) => (w2, Some err)
        | (w2, None) => walkEntries rest w2
        end
    end.

(** What the recording writer is given for a list of files: the output
    paths and the rendered texts up to the first error, and that error. *)
Fixpoint renderAll `{!TemplateEngine} (t : Template)
    (files : list (string * string * result string)) : list (string * string) * option error :=
  match files with
  | [] => ([], None)
  | file :: rest =>
      match @writeTemplate recordingWriter _ t file.1.1 file.2 [] with
      | (out, Some err) => (out, Some err)
      | (out, None) => let '(outs, oe) := renderAll t rest in (out ++ outs, oe)
      end
  end.

(** The walk over the entries of a directory, without a writer. *)
Definition walkEntriesNil (fn : string → DirEntry → option (option error))
    (name : string) : list DirEntry → option (option error) :=
  fix walkEntries (dirs : list DirEntry) : option (option error) :=
    match dirs with
    | [] => Some None
    | d1 :: rest =>
        match walkDirNil fn (path_Join name (DirEntry_Name d1)) d1 with
        | None => None
        | Some (Some err) => Some (Some err)
        | Some None => walkEntries rest
        end
    end.

(** [follows d variableCheck v u n]: [n] hops, none or more, lead from [v]
    to [u], and none of the variables they come to bears the name of
    [variableCheck], so that the cycle check lets them all pass. The
    variables before [u] have no value, as a hop leaves none that has
    one. *)
Inductive follows (d : DraftConfig) (variableCheck : BuilderVar)
    : BuilderVar → BuilderVar → nat → Prop :=
| follows_here (v : BuilderVar) :
    follows d variableCheck v v 0
| follows_hop (v w u : BuilderVar) (n : nat) :
    hop d v w → Name w ≠ Name variableCheck →
    follows d variableCheck w u n → follows d variableCheck v u (S n).

(** ** Notions of the further properties *)

(** The call of [recurseReferenceVars] on [v], not the first of its
    walk, returns with the fuel [k] and with no less. *)
Definition needsFuel (d : DraftConfig) (variableCheck v : BuilderVar) (k : nat) : Prop :=
  recurseReferenceVars k d v variableCheck false ≠ None
  ∧ recurseReferenceVars (k - 1) d v variableCheck false = None.

(** The config without the overrides of the caller. *)
Definition withoutOverrides (d : DraftConfig) : DraftConfig :=
  mkDraftConfig (TemplateName d) (DisplayName d) (ConfigDescription d)
    (ConfigType d) (ConfigVersions d) (DefaultVersion d) (Variables d)
    (FileNameOverrideMap d) ∅ ∅.

(** What one reads through a copy: the variables as [BuilderVar.DeepCopy]
    builds them, and no overrides. *)
Definition copyConfig (d : DraftConfig) : DraftConfig :=
  withVariables (withoutOverrides d) (copyOf <$> Variables d).

(* ===================================================================== *)
(** * Part VII: theorems *)
(* ===================================================================== *)

(** ** Records and lookups *)

Lemma withValue_Value (variable : BuilderVar) :
  withValue variable (Value variable) = variable.
Proof. by destruct variable. Qed.

Lemma withValue_withValue (variable : BuilderVar) (s t : string) :
  withValue (withValue variable s) t = withValue variable t.
Proof. done. Qed.

Lemma withVariables_Variables {V : Type} (d : DraftConfigOf V) :
  withVariables d (Variables d) = d.
Proof. by destruct d. Qed.

Lemma withVariables_withVariables {V W X : Type} (d : DraftConfigOf V)
    (vars : list W) (vars' : list X) :
  withVariables (withVariables d vars) vars' = withVariables d vars'.
Proof. done. Qed.

Lemma setVariableValue_same (d : DraftConfig) (i : nat) (variable : BuilderVar) :
  Variables d !! i = Some variable →
  setVariableValue d i variable (Value variable) = d.
Proof.
  intros Hi. unfold setVariableValue.
  rewrite withValue_Value, list_insert_id by done.
  apply withVariables_Variables.
Qed.

Lemma setVariableValue_twice (d : DraftConfig) (i : nat) (variable : BuilderVar)
    (s t : string) :
  setVariableValue (setVariableValue d i variable s) i (withValue variable s) t
  = setVariableValue d i variable t.
Proof.
  unfold setVariableValue. cbn [Variables withVariables].
  by rewrite list_insert_insert_eq.
Qed.

Lemma setVariableValue_lookup (d : DraftConfig) (i : nat) (variable : BuilderVar)
    (s : string) :
  i < length (Variables d) →
  Variables (setVariableValue d i variable s) !! i = Some (withValue variable s).
Proof. intros Hi. cbn. by apply list_lookup_insert_eq. Qed.

Lemma setVariableValue_lookup_ne (d : DraftConfig) (i j : nat)
    (variable : BuilderVar) (s : string) :
  i ≠ j →
  Variables (setVariableValue d i variable s) !! j = Variables d !! j.
Proof. intros Hij. cbn. by apply list_lookup_insert_ne. Qed.

Lemma setVariableValue_length (d : DraftConfig) (i : nat) (variable : BuilderVar)
    (s : string) :
  length (Variables (setVariableValue d i variable s)) = length (Variables d).
Proof. cbn. apply length_insert. Qed.

Lemma findVariable_Some (vars : list BuilderVar) (name : string) (v : BuilderVar) :
  findVariable vars name = Some v → Name v = name ∧ v ∈ vars.
Proof.
  induction vars as [|w vars IH]; cbn; [done|].
  case_decide as Hw.
  - intros [= <-]. split; [done | apply list_elem_of_here].
  - intros Hv. destruct (IH Hv) as [? ?]. split; [done | by apply list_elem_of_further].
Qed.

Lemma findVariable_None (vars : list BuilderVar) (name : string) :
  findVariable vars name = None ↔ ∀ v, v ∈ vars → Name v ≠ name.
Proof.
  induction vars as [|w vars IH]; cbn.
  - split; [|done]. intros _ v Hv. by apply not_elem_of_nil in Hv.
  - case_decide as Hw.
    + split; [done|]. intros Hall. exfalso. apply (Hall w); [apply list_elem_of_here | done].
    + rewrite IH. split.
      * intros Hall v Hv. apply elem_of_cons in Hv as [-> | Hv]; [done | by apply Hall].
      * intros Hall v Hv. apply Hall. by apply list_elem_of_further.
Qed.

(** The first entry of a name is the one the lookup returns. *)
Lemma findVariable_first (pre post : list BuilderVar) (v : BuilderVar) :
  (∀ w, w ∈ pre → Name w ≠ Name v) →
  findVariable (pre ++ v :: post) (Name v) = Some v.
Proof.
  intros Hpre. induction pre as [|w pre IH]; cbn.
  - by rewrite decide_True.
  - rewrite decide_False by (apply Hpre, list_elem_of_here).
    apply IH. intros u Hu. apply Hpre. by apply list_elem_of_further.
Qed.

(** ** The chain walk *)

(** More fuel does not change a walk that has returned. *)
Lemma recurseReferenceVars_fuel_S (fuel : nat) (d : DraftConfig)
    (referenceVar variableCheck : BuilderVar) (isFirst : bool) (r : result string) :
  recurseReferenceVars fuel d referenceVar variableCheck isFirst = Some r →
  recurseReferenceVars (S fuel) d referenceVar variableCheck isFirst = Some r.
Proof.
  revert referenceVar isFirst.
  induction fuel as [|fuel IH]; intros referenceVar isFirst; [done|].
  intros Hr. cbn [recurseReferenceVars] in Hr |- *.
  destruct (negb isFirst && bool_decide (Name referenceVar = Name variableCheck)); [done|].
  destruct (decide (Value referenceVar ≠ "")); [done|].
  destruct (decide (ReferenceVar (Default referenceVar) ≠ "")); [|done].
  destruct (GetVariable d (ReferenceVar (Default referenceVar))) as [rv|err]; [|done].
  by apply IH.
Qed.

Lemma recurseReferenceVars_fuel_le (fuel fuel' : nat) (d : DraftConfig)
    (referenceVar variableCheck : BuilderVar) (isFirst : bool) (r : result string) :
  fuel ≤ fuel' →
  recurseReferenceVars fuel d referenceVar variableCheck isFirst = Some r →
  recurseReferenceVars fuel' d referenceVar variableCheck isFirst = Some r.
Proof.
  induction 1 as [|fuel' _ IH]; [done|].
  intros Hr. by apply recurseReferenceVars_fuel_S, IH.
Qed.

(** A walk returns the same result for any two amounts of fuel that let
    it return. *)
Lemma recurseReferenceVars_deterministic (fuel fuel' : nat) (d : DraftConfig)
    (referenceVar variableCheck : BuilderVar) (isFirst : bool) (r r' : result string) :
  recurseReferenceVars fuel d referenceVar variableCheck isFirst = Some r →
  recurseReferenceVars fuel' d referenceVar variableCheck isFirst = Some r' →
  r = r'.
Proof.
  intros Hr Hr'.
  apply (recurseReferenceVars_fuel_le _ (fuel `max` fuel')) in Hr; [|lia].
  apply (recurseReferenceVars_fuel_le _ (fuel `max` fuel')) in Hr'; [|lia].
  congruence.
Qed.

(** The cycle check: on every call but the first, a variable that bears
    the name of [variableCheck] ends the walk. *)
Lemma recurseReferenceVars_check (fuel : nat) (d : DraftConfig)
    (referenceVar variableCheck : BuilderVar) :
  Name referenceVar = Name variableCheck →
  recurseReferenceVars (S fuel) d referenceVar variableCheck false = Some (Err errCyclical).
Proof. intros Hname. cbn. by rewrite bool_decide_eq_true_2. Qed.

(** A variable with a value ends the walk with that value. *)
Lemma recurseReferenceVars_value (fuel : nat) (d : DraftConfig)
    (referenceVar variableCheck : BuilderVar) (isFirst : bool) :
  isFirst = true ∨ Name referenceVar ≠ Name variableCheck →
  Value referenceVar ≠ "" →
  recurseReferenceVars (S fuel) d referenceVar variableCheck isFirst
  = Some (Ok (Value referenceVar)).
Proof.
  intros Hfirst Hvalue. cbn.
  replace (negb isFirst && bool_decide (Name referenceVar = Name variableCheck)) with false.
  - by rewrite decide_True.
  - destruct Hfirst as [-> | Hne]; [done|]. by rewrite bool_decide_eq_false_2, andb_false_r.
Qed.

(** A variable without a value and without a reference ends the walk with
    its inline default. *)
Lemma recurseReferenceVars_inline (fuel : nat) (d : DraftConfig)
    (referenceVar variableCheck : BuilderVar) (isFirst : bool) :
  isFirst = true ∨ Name referenceVar ≠ Name variableCheck →
  Value referenceVar = "" →
  ReferenceVar (Default referenceVar) = "" →
  recurseReferenceVars (S fuel) d referenceVar variableCheck isFirst
  = Some (Ok (DefaultValue (Default referenceVar))).
Proof.
  intros Hfirst Hvalue Href. cbn.
  replace (negb isFirst && bool_decide (Name referenceVar = Name variableCheck)) with false.
  - rewrite decide_False by (intros H; by apply H). by rewrite decide_False by (intros H; by apply H).
  - destruct Hfirst as [-> | Hne]; [done|]. by rewrite bool_decide_eq_false_2, andb_false_r.
Qed.

(** A variable without a value follows its reference: one hop. *)
Lemma recurseReferenceVars_hop (fuel : nat) (d : DraftConfig)
    (referenceVar next variableCheck : BuilderVar) (isFirst : bool) :
  isFirst = true ∨ Name referenceVar ≠ Name variableCheck →
  Value referenceVar = "" →
  ReferenceVar (Default referenceVar) ≠ "" →
  GetVariable d (ReferenceVar (Default referenceVar)) = Ok next →
  recurseReferenceVars (S fuel) d referenceVar variableCheck isFirst
  = recurseReferenceVars fuel d next variableCheck false.
Proof.
  intros Hfirst Hvalue Href Hnext. cbn [recurseReferenceVars].
  replace (negb isFirst && bool_decide (Name referenceVar = Name variableCheck)) with false.
  - rewrite decide_False by (intros H; by apply H).
    rewrite decide_True by done. by rewrite Hnext.
  - destruct Hfirst as [-> | Hne]; [done|]. by rewrite bool_decide_eq_false_2, andb_false_r.
Qed.

(** A reference to a variable the config does not hold ends the walk with
    the lookup's error. *)
Lemma recurseReferenceVars_missing (fuel : nat) (d : DraftConfig)
    (referenceVar variableCheck : BuilderVar) (isFirst : bool) (err : error) :
  isFirst = true ∨ Name referenceVar ≠ Name variableCheck →
  Value referenceVar = "" →
  ReferenceVar (Default referenceVar) ≠ "" →
  GetVariable d (ReferenceVar (Default referenceVar)) = Err err →
  recurseReferenceVars (S fuel) d referenceVar variableCheck isFirst
  = Some (Err (errRecurse err)).
Proof.
  intros Hfirst Hvalue Href Hnext. cbn [recurseReferenceVars].
  replace (negb isFirst && bool_decide (Name referenceVar = Name variableCheck)) with false.
  - rewrite decide_False by (intros H; by apply H).
    rewrite decide_True by done. by rewrite Hnext.
  - destruct Hfirst as [-> | Hne]; [done|]. by rewrite bool_decide_eq_false_2, andb_false_r.
Qed.

(** ** The loop over the variables *)

Section Loop.
Variable body : DraftConfig → nat → BuilderVar → option outcome.

(** A loop whose body leaves every entry it comes to as it is, and
    returns no error on them, does nothing. *)
Lemma rangeVariables_noop (n i : nat) (d : DraftConfig) :
  (∀ j variable, i ≤ j < i + n → Variables d !! j = Some variable →
                 body d j variable = Some (d, None)) →
  rangeVariables body n i d = Some (d, None).
Proof.
  revert i. induction n as [|n IH]; intros i Hbody; cbn; [done|].
  destruct (Variables d !! i) as [variable|] eqn:Hi; [|done].
  rewrite (Hbody i variable) by (done || lia).
  apply IH. intros j w Hj. apply Hbody. lia.
Qed.

(** The iterations may be run in two stretches. *)
Lemma rangeVariables_split (n1 n2 i : nat) (d : DraftConfig) :
  rangeVariables body (n1 + n2) i d =
  match rangeVariables body n1 i d with
  | Some (d1, None) => rangeVariables body n2 (i + n1) d1
  | r => r
  end.
Proof.
  revert i d. induction n1 as [|n1 IH]; intros i d; cbn [rangeVariables Nat.add].
  - by rewrite Nat.add_0_r.
  - destruct (Variables d !! i) as [variable|] eqn:Hi.
    + destruct (body d i variable) as [[d' [err|]]|]; [done| |done].
      rewrite IH. by replace (S i + n1) with (i + S n1) by lia.
    + destruct n2 as [|n2]; cbn; [done|].
      rewrite (proj2 (lookup_ge_None _ _)); [done|].
      apply lookup_ge_None in Hi. lia.
Qed.

(** Such a loop from [i] for [n] iterations leaves the entries outside
    [i, i + n) as they are, changes nothing of an entry but its value, and
    nothing of the config but its variables. *)
Lemma rangeVariables_frame (n i : nat) (d d' : DraftConfig) (oe : option error) :
  ownValue body →
  rangeVariables body n i d = Some (d', oe) →
  d' = withVariables d (Variables d')
  ∧ (∀ j, j < i ∨ i + n ≤ j → Variables d' !! j = Variables d !! j)
  ∧ Forall2 (λ v v', ∃ s, v' = withValue v s) (Variables d) (Variables d').
Proof.
  intros Hown. revert i d. induction n as [|n IH]; intros i d; cbn.
  - intros [= <- <-]. split_and!; [by rewrite withVariables_Variables | done |].
    apply Forall2_same_length_lookup_2; [done|].
    intros j v v' Hv Hv'. exists (Value v). rewrite withValue_Value. congruence.
  - destruct (Variables d !! i) as [variable|] eqn:Hi.
    2:{ intros [= <- <-]. split_and!; [by rewrite withVariables_Variables | done |].
        apply Forall2_same_length_lookup_2; [done|].
        intros j v v' Hv Hv'. exists (Value v). rewrite withValue_Value. congruence. }
    destruct (body d i variable) as [[d1 oe1]|] eqn:Hbody; [|done].
    destruct (Hown _ _ _ _ _ Hi Hbody) as [s ->].
    assert (Hstep : Forall2 (λ v v', ∃ s, v' = withValue v s) (Variables d)
                      (Variables (setVariableValue d i variable s))).
    { apply Forall2_same_length_lookup_2; [by rewrite setVariableValue_length|].
      intros j v v' Hv Hv'. destruct (decide (i = j)) as [<-|Hij].
      - rewrite setVariableValue_lookup in Hv' by (by eapply lookup_lt_Some).
        exists s. congruence.
      - rewrite setVariableValue_lookup_ne in Hv' by done.
        exists (Value v). rewrite withValue_Value. congruence. }
    destruct oe1 as [err|].
    + intros [= <- <-]. split_and!; [done | | done].
      intros j Hj. apply setVariableValue_lookup_ne. lia.
    + intros Hrest. destruct (IH _ _ Hrest) as (Hd' & Hframe & Hall).
      split_and!.
      * rewrite Hd'. done.
      * intros j Hj. rewrite Hframe by lia. apply setVariableValue_lookup_ne. lia.
      * eapply Forall2_trans; [|exact Hstep|exact Hall].
        intros v1 v2 v3 [s1 ->] [s2 ->]. by exists s2.
Qed.

Lemma rangeVariables_length (n i : nat) (d d' : DraftConfig) (oe : option error) :
  ownValue body →
  rangeVariables body n i d = Some (d', oe) →
  length (Variables d') = length (Variables d).
Proof.
  intros Hown Hrun. destruct (rangeVariables_frame _ _ _ _ _ Hown Hrun) as (_ & _ & Hall).
  symmetry. by eapply Forall2_length.
Qed.

(** What the body guarantees of the entry it has handled without error
    holds, when the loop ends without error, of every entry handled. *)
Lemma rangeVariables_success (Q : BuilderVar → Prop) (n i : nat) (d d' : DraftConfig) :
  ownValue body →
  (∀ d i variable d',
      Variables d !! i = Some variable →
      body d i variable = Some (d', None) →
      ∃ v', Variables d' !! i = Some v' ∧ Q v') →
  rangeVariables body n i d = Some (d', None) →
  ∀ j v', i ≤ j < i + n → Variables d' !! j = Some v' → Q v'.
Proof.
  intros Hown HQ. revert i d. induction n as [|n IH]; intros i d Hrun j v' Hj Hv'; [lia|].
  cbn in Hrun.
  destruct (Variables d !! i) as [variable|] eqn:Hi.
  2:{ injection Hrun as <-. apply lookup_ge_None in Hi.
      apply lookup_lt_Some in Hv'. lia. }
  destruct (body d i variable) as [[d1 [err|]]|] eqn:Hbody; [done| |done].
  destruct (decide (j = i)) as [->|Hne].
  - destruct (HQ _ _ _ _ Hi Hbody) as (v1 & Hv1 & HQ1).
    destruct (rangeVariables_frame _ _ _ _ _ Hown Hrun) as (_ & Hframe & _).
    rewrite Hframe in Hv' by lia. congruence.
  - apply (IH (S i) d1 Hrun j); [lia | done].
Qed.
End Loop.

(** ** The resolution of one variable *)

(** The three ways through the inline default. *)
Lemma inlineDefault_valued (d : DraftConfig) (i : nat) (variable : BuilderVar) :
  Value variable ≠ "" → inlineDefault d i variable = (d, None).
Proof. intros Hv. unfold inlineDefault. by rewrite decide_False. Qed.

Lemma inlineDefault_inline (d : DraftConfig) (i : nat) (variable : BuilderVar) :
  Value variable = "" →
  DefaultValue (Default variable) ≠ "" →
  inlineDefault d i variable
  = (setVariableValue d i variable (DefaultValue (Default variable)), None).
Proof. intros Hv Hd. unfold inlineDefault. by rewrite decide_True, decide_True. Qed.

Lemma inlineDefault_none (d : DraftConfig) (i : nat) (variable : BuilderVar) :
  Value variable = "" →
  DefaultValue (Default variable) = "" →
  inlineDefault d i variable = (d, Some (errNoDefault (Name variable))).
Proof.
  intros Hv Hd. unfold inlineDefault.
  rewrite decide_True by done. by rewrite decide_False by (intros H; by apply H).
Qed.

(** The resolution of an unset variable writes its value and nothing
    else, and a resolution without error has written a value that is not
    empty. *)
Lemma resolveDefault_spec (fuel : nat) (d d' : DraftConfig) (i : nat)
    (variable : BuilderVar) (oe : option error) :
  Variables d !! i = Some variable →
  Value variable = "" →
  resolveDefault fuel d i variable = Some (d', oe) →
  ∃ s, d' = setVariableValue d i variable s ∧ (oe = None → s ≠ "").
Proof.
  intros Hi Hv. unfold resolveDefault.
  assert (Hsame : d = setVariableValue d i variable (Value variable))
    by (by rewrite setVariableValue_same).
  assert (Hinline : ∀ d1 oe1, inlineDefault d i variable = (d1, oe1) →
            ∃ s, d1 = setVariableValue d i variable s ∧ (oe1 = None → s ≠ "")).
  { intros d1 oe1. destruct (decide (DefaultValue (Default variable) = "")) as [Hd|Hd].
    - rewrite inlineDefault_none by done. intros [= <- <-]. by exists (Value variable).
    - rewrite inlineDefault_inline by done. intros [= <- <-]. by eexists. }
  case_decide as Href; [|intros [= H]; by apply Hinline].
  destruct (GetVariable d _) as [referenceVar|err].
  2:{ intros [= <- <-]. by exists (Value variable). }
  destruct (recurseReferenceVars _ _ _ _ _) as [[defaultVal|err]|]; [| |done].
  2:{ intros [= <- <-]. by exists (Value variable). }
  destruct (decide (defaultVal = "")) as [->|Hdv].
  - rewrite <- Hv at 1 2. rewrite setVariableValue_same, withValue_Value by done.
    intros [= H]. by apply Hinline.
  - rewrite inlineDefault_valued by done. intros [= <- <-]. by eexists.
Qed.

Lemma applyDefaultBody_ownValue (fuel : nat) : ownValue (applyDefaultBody fuel).
Proof.
  intros d i variable d' oe Hi. unfold applyDefaultBody. case_decide as Hv.
  - intros Hres. destruct (resolveDefault_spec _ _ _ _ _ _ Hi Hv Hres) as (s & -> & _).
    by exists s.
  - intros [= <- <-]. exists (Value variable). by rewrite setVariableValue_same.
Qed.

(** An iteration of [ApplyDefaultVariables] that returns no error leaves
    its variable with a value. *)
Lemma applyDefaultBody_success (fuel : nat) (d d' : DraftConfig) (i : nat)
    (variable : BuilderVar) :
  Variables d !! i = Some variable →
  applyDefaultBody fuel d i variable = Some (d', None) →
  ∃ v', Variables d' !! i = Some v' ∧ Value v' ≠ "".
Proof.
  intros Hi. unfold applyDefaultBody. case_decide as Hv.
  - intros Hres. destruct (resolveDefault_spec _ _ _ _ _ _ Hi Hv Hres) as (s & -> & Hs).
    exists (withValue variable s). split; [|by apply Hs].
    apply setVariableValue_lookup. by eapply lookup_lt_Some.
  - intros [= <-]. by exists variable.
Qed.

(** A variable with a value is passed over, for any fuel. *)
Lemma applyDefaultBody_valued (fuel : nat) (d : DraftConfig) (i : nat)
    (variable : BuilderVar) :
  Value variable ≠ "" → applyDefaultBody fuel d i variable = Some (d, None).
Proof. intros Hv. unfold applyDefaultBody. by rewrite decide_False. Qed.

Lemma ApplyDefaultVariables_fullySet (fuel : nat) (d : DraftConfig) :
  fullySet d → ApplyDefaultVariables fuel d = Some (d, None).
Proof.
  intros Hset. apply rangeVariables_noop.
  intros j variable _ Hj. apply applyDefaultBody_valued. by eapply Hset.
Qed.

Lemma ApplyDefaultVariables_success_fullySet (fuel : nat) (d d' : DraftConfig) :
  ApplyDefaultVariables fuel d = Some (d', None) → fullySet d'.
Proof.
  intros Hrun i v' Hv'.
  assert (Hlen : length (Variables d') = length (Variables d))
    by (eapply rangeVariables_length; [apply applyDefaultBody_ownValue | exact Hrun]).
  eapply (rangeVariables_success _ (λ v, Value v ≠ "")); [apply applyDefaultBody_ownValue | | exact Hrun | | exact Hv'].
  - intros. by eapply applyDefaultBody_success.
  - apply lookup_lt_Some in Hv'. lia.
Qed.

Section ForVersionFacts.
Context `{!Semver}.

(** The iteration on a variable without a value that the version excludes:
    [continue]. *)
Lemma applyDefaultForVersionBody_excluded (fuel : nat) (v : Version) (d : DraftConfig)
    (i : nat) (variable : BuilderVar) (expectedRange : Version → bool) :
  semver_ParseRange (Versions variable) = Ok expectedRange →
  expectedRange v = false →
  applyDefaultForVersionBody fuel v d i variable = Some (d, None).
Proof.
  intros Hparse Hout. unfold applyDefaultForVersionBody.
  case_decide; [|done]. by rewrite Hparse, Hout.
Qed.

Lemma applyDefaultForVersionBody_settled (fuel : nat) (v : Version) (d : DraftConfig)
    (i : nat) (variable : BuilderVar) :
  settledFor v variable →
  applyDefaultForVersionBody fuel v d i variable = Some (d, None).
Proof.
  intros [Hv | (r & Hparse & Hout)].
  - unfold applyDefaultForVersionBody. by rewrite decide_False.
  - by eapply applyDefaultForVersionBody_excluded.
Qed.

Lemma applyDefaultForVersionBody_ownValue (fuel : nat) (v : Version) :
  ownValue (applyDefaultForVersionBody fuel v).
Proof.
  intros d i variable d' oe Hi. unfold applyDefaultForVersionBody.
  assert (Hsame : d = setVariableValue d i variable (Value variable))
    by (by rewrite setVariableValue_same).
  case_decide as Hv; [|intros [= <- <-]; by eexists].
  destruct (semver_ParseRange _) as [r|err]; [|intros [= <- <-]; by eexists].
  destruct (r v); cbn; [|intros [= <- <-]; by eexists].
  intros Hres. destruct (resolveDefault_spec _ _ _ _ _ _ Hi Hv Hres) as (s & -> & _).
  by exists s.
Qed.

Lemma applyDefaultForVersionBody_success (fuel : nat) (v : Version)
    (d d' : DraftConfig) (i : nat) (variable : BuilderVar) :
  Variables d !! i = Some variable →
  applyDefaultForVersionBody fuel v d i variable = Some (d', None) →
  ∃ v', Variables d' !! i = Some v' ∧ settledFor v v'.
Proof.
  intros Hi. unfold applyDefaultForVersionBody.
  case_decide as Hv; [|intros [= <-]; exists variable; split; [done | by left]].
  destruct (semver_ParseRange _) as [r|err] eqn:Hparse; [|done].
  destruct (r v) eqn:Hin; cbn.
  - intros Hres. destruct (resolveDefault_spec _ _ _ _ _ _ Hi Hv Hres) as (s & -> & Hs).
    exists (withValue variable s). split; [|left; by apply Hs].
    apply setVariableValue_lookup. by eapply lookup_lt_Some.
  - intros [= <-]. exists variable. split; [done|]. right. by exists r.
Qed.

(** The checks of the version that precede the loop. *)
Lemma ApplyDefaultVariablesForVersion_valid (fuel : nat) (d : DraftConfig)
    (version : string) (v : Version) (configRange : Version → bool) :
  semver_Parse version = Ok v →
  semver_ParseRange (ConfigVersions d) = Ok configRange →
  configRange v = true →
  ApplyDefaultVariablesForVersion fuel d version
  = rangeVariables (applyDefaultForVersionBody fuel v) (length (Variables d)) 0 d.
Proof.
  intros Hv Hr Hin. unfold ApplyDefaultVariablesForVersion. by rewrite Hv, Hr, Hin.
Qed.

(** Whatever the outcome, the call changes nothing of a variable but its
    value, and nothing of the config but its variables. *)
Lemma ApplyDefaultVariablesForVersion_frame (fuel : nat) (d d' : DraftConfig)
    (version : string) (oe : option error) :
  ApplyDefaultVariablesForVersion fuel d version = Some (d', oe) →
  d' = withVariables d (Variables d')
  ∧ Forall2 (λ v v', ∃ s, v' = withValue v s) (Variables d) (Variables d').
Proof.
  unfold ApplyDefaultVariablesForVersion.
  assert (Hid : d = withVariables d (Variables d)
                ∧ Forall2 (λ v v', ∃ s, v' = withValue v s) (Variables d) (Variables d)).
  { split; [by rewrite withVariables_Variables|].
    apply Forall2_same_length_lookup_2; [done|].
    intros j v v' Hv Hv'. exists (Value v). rewrite withValue_Value. congruence. }
  destruct (semver_Parse version) as [v|err]; [|by intros [= <- <-]].
  destruct (semver_ParseRange (ConfigVersions d)) as [r|err]; [|by intros [= <- <-]].
  destruct (r v); cbn; [|by intros [= <- <-]].
  intros Hrun.
  destruct (rangeVariables_frame _ _ _ _ _ _ (applyDefaultForVersionBody_ownValue fuel v) Hrun)
    as (? & _ & ?).
  done.
Qed.
End ForVersionFacts.

(** ** The fate of one entry in the loop *)

Section LoopAt.
Variable body : DraftConfig → nat → BuilderVar → option outcome.
Hypothesis Hown : ownValue body.

(** The loop either ends with an error before it comes to the entry at
    [i], which is then as it was, or comes to [i] with the entry as it was,
    and what the body leaves at [i] stays there. *)
Lemma rangeVariables_at (n i : nat) (d d' : DraftConfig) (variable : BuilderVar)
    (oe : option error) :
  Variables d !! i = Some variable →
  i < n →
  rangeVariables body n 0 d = Some (d', oe) →
  (∃ err, rangeVariables body i 0 d = Some (d', Some err)
          ∧ oe = Some err ∧ Variables d' !! i = Some variable)
  ∨ (∃ d1 d2 oe2,
        rangeVariables body i 0 d = Some (d1, None)
        ∧ Variables d1 !! i = Some variable
        ∧ body d1 i variable = Some (d2, oe2)
        ∧ Variables d' !! i = Variables d2 !! i
        ∧ (oe = None → oe2 = None)
        ∧ (∀ err, oe2 = Some err → d' = d2 ∧ oe = Some err)).
Proof using Hown.
  intros Hi Hn Hrun.
  replace n with (i + S (n - S i)) in Hrun by lia.
  rewrite rangeVariables_split in Hrun.
  destruct (rangeVariables body i 0 d) as [[d1 [err|]]|] eqn:Hpre; [| |done].
  - injection Hrun as <- <-. left. exists err. split_and!; [done..|].
    destruct (rangeVariables_frame _ _ _ _ _ _ Hown Hpre) as (_ & Hframe & _).
    rewrite Hframe by lia. done.
  - right.
    destruct (rangeVariables_frame _ _ _ _ _ _ Hown Hpre) as (_ & Hframe & _).
    assert (Hi1 : Variables d1 !! i = Some variable) by (rewrite Hframe by lia; done).
    cbn [rangeVariables Nat.add] in Hrun. rewrite Hi1 in Hrun.
    destruct (body d1 i variable) as [[d2 [err|]]|] eqn:Hbody; [| |done].
    + injection Hrun as <- <-. exists d1, d2, (Some err).
      split_and!; [done..| |]; [done|]. intros err' [= <-]. done.
    + exists d1, d2, None. split_and!; [done..| | |]; [|done|done].
      destruct (rangeVariables_frame _ _ _ _ _ _ Hown Hrun) as (_ & Hframe2 & _).
      apply Hframe2. lia.
Qed.

(** A loop whose body returns no error on entries of a kind [P], all
    entries being of that kind, returns no error. *)
Lemma rangeVariables_progress (P : BuilderVar → Prop) (n i : nat) (d : DraftConfig) :
  (∀ d i variable, Variables d !! i = Some variable → P variable →
                   ∃ d', body d i variable = Some (d', None)) →
  (∀ j variable, i ≤ j → Variables d !! j = Some variable → P variable) →
  ∃ d', rangeVariables body n i d = Some (d', None).
Proof using Hown.
  intros Hbody. revert i d. induction n as [|n IH]; intros i d HP; cbn; [by eexists|].
  destruct (Variables d !! i) as [variable|] eqn:Hi; [|by eexists].
  destruct (Hbody d i variable Hi) as [d1 Hd1]; [by eapply HP|].
  rewrite Hd1. apply IH. intros j w Hj Hw.
  destruct (Hown _ _ _ _ _ Hi Hd1) as [s ->].
  rewrite setVariableValue_lookup_ne in Hw by lia. eapply HP; [|done]. lia.
Qed.
End LoopAt.

(** ** Idempotence of the two entry points (C9) *)

(** A variable with an inline default and no reference resolves to the
    inline default, for any fuel. *)
Lemma applyDefaultBody_inline_only (fuel : nat) (d : DraftConfig) (i : nat)
    (variable : BuilderVar) :
  Value variable = "" →
  ReferenceVar (Default variable) = "" →
  DefaultValue (Default variable) ≠ "" →
  applyDefaultBody fuel d i variable
  = Some (setVariableValue d i variable (DefaultValue (Default variable)), None).
Proof.
  intros Hv Href Hd. unfold applyDefaultBody, resolveDefault.
  rewrite decide_True by done. rewrite decide_False by (intros H; by apply H).
  by rewrite inlineDefault_inline.
Qed.

Section Idempotence.
Context `{!Semver}.

Lemma ApplyDefaultVariablesForVersion_fullySet (fuel : nat) (d d' : DraftConfig)
    (version : string) (oe : option error) :
  fullySet d →
  ApplyDefaultVariablesForVersion fuel d version = Some (d', oe) → d' = d.
Proof.
  intros Hset. unfold ApplyDefaultVariablesForVersion.
  destruct (semver_Parse version) as [v|err]; [|by intros [= <- <-]].
  destruct (semver_ParseRange (ConfigVersions d)) as [r|err]; [|by intros [= <- <-]].
  destruct (r v); cbn; [|by intros [= <- <-]].
  rewrite rangeVariables_noop; [by intros [= <- <-]|].
  intros j variable _ Hj. apply applyDefaultForVersionBody_settled. left. by eapply Hset.
Qed.

Lemma ApplyDefaultVariablesForVersion_again (fuel fuel' : nat) (d d' : DraftConfig)
    (version : string) :
  ApplyDefaultVariablesForVersion fuel d version = Some (d', None) →
  ApplyDefaultVariablesForVersion fuel' d' version = Some (d', None).
Proof.
  intros Hrun. pose proof Hrun as Hrun0.
  destruct (ApplyDefaultVariablesForVersion_frame _ _ _ _ _ Hrun) as (Hd' & Hall).
  unfold ApplyDefaultVariablesForVersion in Hrun |- *.
  destruct (semver_Parse version) as [v|err]; [|done].
  replace (ConfigVersions d') with (ConfigVersions d) by (by rewrite Hd').
  destruct (semver_ParseRange (ConfigVersions d)) as [r|err]; [|done].
  destruct (r v); cbn in Hrun |- *; [|done].
  apply rangeVariables_noop. intros j variable _ Hj.
  apply applyDefaultForVersionBody_settled.
  eapply (rangeVariables_success _ (settledFor v));
    [apply applyDefaultForVersionBody_ownValue | | exact Hrun | | exact Hj].
  - intros. by eapply applyDefaultForVersionBody_success.
  - apply lookup_lt_Some in Hj. apply Forall2_length in Hall. lia.
Qed.

(** C9. Both entry points leave a config whose variables all have a value
    as it is ([ApplyDefaultVariables] for any fuel, returning nil;
    [ApplyDefaultVariablesForVersion] for any version, returning nil when
    the version is valid); a call that follows a call which returned nil
    changes nothing and returns nil; and a variable without a value, with
    an inline default and no reference, has the inline default as its value
    after a call of [ApplyDefaultVariables] that returned nil, which a
    further call leaves there. A config whose unset variables are all of
    that kind makes the call return nil. *)
Theorem C9_apply_defaults_idempotent :
  (∀ fuel d, fullySet d → ApplyDefaultVariables fuel d = Some (d, None))
  ∧ (∀ fuel d version d' oe,
        fullySet d →
        ApplyDefaultVariablesForVersion fuel d version = Some (d', oe) → d' = d)
  ∧ (∀ fuel d version v configRange,
        fullySet d →
        semver_Parse version = Ok v →
        semver_ParseRange (ConfigVersions d) = Ok configRange →
        configRange v = true →
        ApplyDefaultVariablesForVersion fuel d version = Some (d, None))
  ∧ (∀ fuel fuel' d d',
        ApplyDefaultVariables fuel d = Some (d', None) →
        ApplyDefaultVariables fuel' d' = Some (d', None))
  ∧ (∀ fuel fuel' d d' version,
        ApplyDefaultVariablesForVersion fuel d version = Some (d', None) →
        ApplyDefaultVariablesForVersion fuel' d' version = Some (d', None))
  ∧ (∀ fuel fuel' d d' i variable,
        Variables d !! i = Some variable →
        Value variable = "" →
        ReferenceVar (Default variable) = "" →
        DefaultValue (Default variable) ≠ "" →
        ApplyDefaultVariables fuel d = Some (d', None) →
        Variables d' !! i = Some (withValue variable (DefaultValue (Default variable)))
        ∧ ApplyDefaultVariables fuel' d' = Some (d', None))
  ∧ (∀ fuel d,
        (∀ i variable, Variables d !! i = Some variable → Value variable = "" →
                       ReferenceVar (Default variable) = ""
                       ∧ DefaultValue (Default variable) ≠ "") →
        ∃ d', ApplyDefaultVariables fuel d = Some (d', None)).
Proof.
  split_and!.
  - apply ApplyDefaultVariables_fullySet.
  - intros. by eapply ApplyDefaultVariablesForVersion_fullySet.
  - intros fuel d version v r Hset Hv Hr Hin.
    rewrite (ApplyDefaultVariablesForVersion_valid _ _ _ _ _ Hv Hr Hin).
    apply rangeVariables_noop. intros j variable _ Hj.
    apply applyDefaultForVersionBody_settled. left. by eapply Hset.
  - intros fuel fuel' d d' Hrun.
    by apply ApplyDefaultVariables_fullySet, (ApplyDefaultVariables_success_fullySet fuel d).
  - apply ApplyDefaultVariablesForVersion_again.
  - intros fuel fuel' d d' i variable Hi Hv Href Hd Hrun. split.
    2:{ by apply ApplyDefaultVariables_fullySet, (ApplyDefaultVariables_success_fullySet fuel d). }
    destruct (rangeVariables_at _ (applyDefaultBody_ownValue fuel) _ _ _ _ _ _ Hi
                (proj1 (lookup_lt_is_Some _ _) (mk_is_Some _ _ Hi)) Hrun)
      as [(err & _ & [=] & _) | (d1 & d2 & oe2 & _ & Hi1 & Hbody & Hi' & _ & _)].
    rewrite applyDefaultBody_inline_only in Hbody by done.
    injection Hbody as <- <-. rewrite Hi'.
    apply setVariableValue_lookup. by eapply lookup_lt_Some.
  - intros fuel d Hall.
    apply (rangeVariables_progress _ (applyDefaultBody_ownValue fuel)
             (λ variable, Value variable = "" → ReferenceVar (Default variable) = ""
                                                ∧ DefaultValue (Default variable) ≠ "")).
    + intros d0 i variable Hi HP. destruct (decide (Value variable = "")) as [Hv|Hv].
      * destruct (HP Hv). rewrite applyDefaultBody_inline_only by done. by eexists.
      * rewrite applyDefaultBody_valued by done. by eexists.
    + intros j variable _ Hj. by apply (Hall j).
Qed.
End Idempotence.

(** ** The version checks and the skipped variables (C3) *)

Section LoopSkip.
Variable body : DraftConfig → nat → BuilderVar → option outcome.
Hypothesis Hown : ownValue body.

(** An entry on which the body only continues may be left out of the
    loop. *)
Lemma rangeVariables_skip_at (n i : nat) (d : DraftConfig) (variable : BuilderVar) :
  Variables d !! i = Some variable →
  (∀ d1, body d1 i variable = Some (d1, None)) →
  i < n →
  rangeVariables body n 0 d =
  match rangeVariables body i 0 d with
  | Some (d1, None) => rangeVariables body (n - S i) (S i) d1
  | r => r
  end.
Proof using Hown.
  intros Hi Hcont Hn.
  replace n with (i + S (n - S i)) at 1 by lia.
  rewrite rangeVariables_split.
  destruct (rangeVariables body i 0 d) as [[d1 [err|]]|] eqn:Hpre; [done| |done].
  destruct (rangeVariables_frame _ _ _ _ _ _ Hown Hpre) as (_ & Hframe & _).
  cbn [rangeVariables Nat.add]. rewrite Hframe, Hi by lia. by rewrite Hcont.
Qed.
End LoopSkip.

Section VersionChecks.
Context `{!Semver}.

(** C3. [ApplyDefaultVariablesForVersion] returns the invalid-version
    error, with the config as it was, when the version does not parse; it
    returns the out-of-range error when the version parses and the range of
    the config excludes it; and a variable without a value whose own
    range parses and excludes the version is skipped: its iteration
    continues without an error, the loop runs as if the entry were not
    there, the variable is as it was (unset) when the call returns, and a
    call on a config whose variables all have a value or are so excluded
    returns nil and changes nothing. *)
Theorem C3_version_checks_and_skips :
  (∀ fuel d version err,
      semver_Parse version = Err err →
      ApplyDefaultVariablesForVersion fuel d version
      = Some (d, Some (errInvalidVersion err)))
  ∧ (∀ fuel d version v configRange,
        semver_Parse version = Ok v →
        semver_ParseRange (ConfigVersions d) = Ok configRange →
        configRange v = false →
        ApplyDefaultVariablesForVersion fuel d version
        = Some (d, Some (errOutOfRange version (ConfigVersions d))))
  ∧ (∀ fuel d version v i variable expectedRange,
        semver_Parse version = Ok v →
        Variables d !! i = Some variable →
        Value variable = "" →
        semver_ParseRange (Versions variable) = Ok expectedRange →
        expectedRange v = false →
        (∀ d1, applyDefaultForVersionBody fuel v d1 i variable = Some (d1, None))
        ∧ (∀ d' oe,
              ApplyDefaultVariablesForVersion fuel d version = Some (d', oe) →
              Variables d' !! i = Some variable)
        ∧ (∀ configRange,
              semver_ParseRange (ConfigVersions d) = Ok configRange →
              configRange v = true →
              ApplyDefaultVariablesForVersion fuel d version =
              match rangeVariables (applyDefaultForVersionBody fuel v) i 0 d with
              | Some (d1, None) =>
                  rangeVariables (applyDefaultForVersionBody fuel v)
                    (length (Variables d) - S i) (S i) d1
              | r => r
              end))
  ∧ (∀ fuel d version v configRange,
        semver_Parse version = Ok v →
        semver_ParseRange (ConfigVersions d) = Ok configRange →
        configRange v = true →
        (∀ i variable, Variables d !! i = Some variable → settledFor v variable) →
        ApplyDefaultVariablesForVersion fuel d version = Some (d, None)).
Proof.
  split_and!.
  - intros fuel d version err Hv. unfold ApplyDefaultVariablesForVersion. by rewrite Hv.
  - intros fuel d version v r Hv Hr Hout.
    unfold ApplyDefaultVariablesForVersion. by rewrite Hv, Hr, Hout.
  - intros fuel d version v i variable r Hv Hi Hempty Hr Hout.
    assert (Hcont : ∀ d1, applyDefaultForVersionBody fuel v d1 i variable = Some (d1, None))
      by (intros d1; by eapply applyDefaultForVersionBody_excluded).
    split_and!; [done | |].
    + intros d' oe. unfold ApplyDefaultVariablesForVersion. rewrite Hv.
      destruct (semver_ParseRange (ConfigVersions d)) as [cr|err]; [|by intros [= <- <-]].
      destruct (cr v); cbn; [|by intros [= <- <-]].
      intros Hrun.
      destruct (rangeVariables_at _ (applyDefaultForVersionBody_ownValue fuel v)
                  _ _ _ _ _ _ Hi (proj1 (lookup_lt_is_Some _ _) (mk_is_Some _ _ Hi)) Hrun)
        as [(err & _ & _ & Hi') | (d1 & d2 & oe2 & _ & Hi1 & Hbody & Hi' & _ & _)]; [done|].
      rewrite Hcont in Hbody. injection Hbody as <- <-. congruence.
    + intros cr Hcr Hin.
      rewrite (ApplyDefaultVariablesForVersion_valid _ _ _ _ _ Hv Hcr Hin).
      apply (rangeVariables_skip_at _ (applyDefaultForVersionBody_ownValue fuel v)
               _ _ _ variable); [done | done |].
      by apply lookup_lt_is_Some.
  - intros fuel d version v cr Hv Hcr Hin Hall.
    rewrite (ApplyDefaultVariablesForVersion_valid _ _ _ _ _ Hv Hcr Hin).
    apply rangeVariables_noop. intros j variable _ Hj.
    apply applyDefaultForVersionBody_settled. by eapply Hall.
Qed.
End VersionChecks.

(** ** The cycle check (C1) *)

(** A walk that comes to a variable bearing the name of [variableCheck]
    is cut short with the cyclical-reference error. *)
Lemma recurseReferenceVars_walks (d : DraftConfig) (v u variableCheck : BuilderVar)
    (n : nat) :
  walks d v u n →
  Name u = Name variableCheck →
  ∀ fuel isFirst, n < fuel →
    recurseReferenceVars fuel d v variableCheck isFirst = Some (Err errCyclical).
Proof.
  intros Hwalk Hname.
  induction Hwalk as [v w (Hv & Href & Hw) | v w u n (Hv & Href & Hw) Hwalk IH];
    intros fuel isFirst Hfuel.
  - destruct fuel as [|[|fuel]]; [lia..|].
    destruct (decide (isFirst = true ∨ Name v ≠ Name variableCheck)) as [Hfirst|Hfirst].
    + rewrite (recurseReferenceVars_hop _ _ _ w) by done.
      by apply recurseReferenceVars_check.
    + destruct isFirst; [exfalso; apply Hfirst; by left|].
      apply recurseReferenceVars_check.
      destruct (decide (Name v = Name variableCheck)); [done|].
      exfalso. apply Hfirst. by right.
  - destruct fuel as [|fuel]; [lia|].
    destruct (decide (isFirst = true ∨ Name v ≠ Name variableCheck)) as [Hfirst|Hfirst].
    + rewrite (recurseReferenceVars_hop _ _ _ w) by done. apply IH; [done | lia].
    + destruct isFirst; [exfalso; apply Hfirst; by left|].
      apply recurseReferenceVars_check.
      destruct (decide (Name v = Name variableCheck)); [done|].
      exfalso. apply Hfirst. by right.
Qed.

(** Conversely, the cyclical-reference error tells that the walk came to
    a variable bearing the name of [variableCheck]: on the spot when the
    call is not the first, after some hops otherwise. *)
Lemma recurseReferenceVars_cyclical_inv (fuel : nat) (d : DraftConfig)
    (v variableCheck : BuilderVar) (isFirst : bool) :
  recurseReferenceVars fuel d v variableCheck isFirst = Some (Err errCyclical) →
  (isFirst = false ∧ Name v = Name variableCheck)
  ∨ ∃ u n, walks d v u n ∧ Name u = Name variableCheck.
Proof.
  revert v isFirst. induction fuel as [|fuel IH]; intros v isFirst; [done|].
  cbn [recurseReferenceVars].
  destruct (negb isFirst && bool_decide (Name v = Name variableCheck)) eqn:Hcheck.
  { intros _. left. apply andb_true_iff in Hcheck as [Hf Hn].
    apply negb_true_iff in Hf. by apply bool_decide_eq_true in Hn. }
  destruct (decide (Value v ≠ "")) as [|Hv]; [done|].
  destruct (decide (ReferenceVar (Default v) ≠ "")) as [Href|]; [|done].
  destruct (GetVariable d (ReferenceVar (Default v))) as [w|err] eqn:Hw; [|done].
  intros Hrec. right.
  assert (Hhop : hop d v w).
  { split_and!; [|done..]. by destruct (decide (Value v = "")). }
  destruct (IH _ _ Hrec) as [[_ Hname] | (u & n & Hwalk & Hname)].
  - exists w, 1. split; [by constructor | done].
  - exists u, (S n). split; [by econstructor | done].
Qed.

(** The resolution of a variable hands the walk the variable its default
    names, as the start and as [variableCheck] alike. *)
Lemma resolveDefault_cyclical (fuel : nat) (d : DraftConfig) (i n : nat)
    (variable first u : BuilderVar) :
  ReferenceVar (Default variable) ≠ "" →
  GetVariable d (ReferenceVar (Default variable)) = Ok first →
  walks d first u n →
  Name u = Name first →
  n < fuel →
  resolveDefault fuel d i variable = Some (d, Some (errApplyDefault errCyclical)).
Proof.
  intros Href Hfirst Hwalk Hname Hfuel. unfold resolveDefault.
  rewrite decide_True by done. rewrite Hfirst.
  by rewrite (recurseReferenceVars_walks _ _ _ _ _ Hwalk Hname).
Qed.

(** C1, amended. The cycle check compares every hop after the first with
    the first variable of the walk, which is the variable that the default
    of the resolved variable names, not the resolved variable: the walk
    from [first] ends with the cyclical-reference error exactly when
    some hops lead from [first] to a variable of its name. So the
    resolution of A fails with the cyclical-reference error for the chain
    A -> B -> A, and also for the chain A -> B -> C -> B, which comes
    back to B and never to A. *)
Theorem C1_cycle_check_against_first_reference :
  (∀ d first,
      (∃ fuel, recurseReferenceVars fuel d first first true = Some (Err errCyclical))
      ↔ (∃ u n, walks d first u n ∧ Name u = Name first))
  ∧ (∀ fuel d i A B,
        Value A = "" → Value B = "" →
        ReferenceVar (Default A) = Name B → Name B ≠ "" →
        ReferenceVar (Default B) = Name A → Name A ≠ "" →
        GetVariable d (Name A) = Ok A →
        GetVariable d (Name B) = Ok B →
        2 < fuel →
        resolveDefault fuel d i A = Some (d, Some (errApplyDefault errCyclical)))
  ∧ (∀ fuel d i A B C,
        Value B = "" → Value C = "" →
        ReferenceVar (Default A) = Name B → Name B ≠ "" →
        ReferenceVar (Default B) = Name C → Name C ≠ "" →
        ReferenceVar (Default C) = Name B →
        GetVariable d (Name B) = Ok B →
        GetVariable d (Name C) = Ok C →
        2 < fuel →
        resolveDefault fuel d i A = Some (d, Some (errApplyDefault errCyclical))).
Proof.
  split_and!.
  - intros d first. split.
    + intros [fuel Hrec].
      by destruct (recurseReferenceVars_cyclical_inv _ _ _ _ _ Hrec) as [[[=] _] | ?].
    + intros (u & n & Hwalk & Hname). exists (S n).
      apply (recurseReferenceVars_walks _ _ _ _ _ Hwalk Hname). lia.
  - intros fuel d i A B HvA HvB HrA HnB HrB HnA HgA HgB Hfuel.
    apply (resolveDefault_cyclical _ _ _ 2 _ B B); [congruence | congruence | | done | done].
    apply (walks_more _ _ A); [split_and!; congruence|].
    apply walks_one. split_and!; congruence.
  - intros fuel d i A B C HvB HvC HrA HnB HrB HnC HrC HgB HgC Hfuel.
    apply (resolveDefault_cyclical _ _ _ 2 _ B B); [congruence | congruence | | done | done].
    apply (walks_more _ _ C); [split_and!; congruence|].
    apply walks_one. split_and!; congruence.
Qed.

(** ** Following the chain to a value (C5) *)

Lemma GetVariable_first (d : DraftConfig) (pre post : list BuilderVar) (v : BuilderVar) :
  Variables d = pre ++ v :: post →
  (∀ w, w ∈ pre → Name w ≠ Name v) →
  GetVariable d (Name v) = Ok v.
Proof.
  intros Hvars Hpre. unfold GetVariable. by rewrite Hvars, findVariable_first.
Qed.

Lemma rangeVariables_S (body : DraftConfig → nat → BuilderVar → option outcome)
    (n i : nat) (d d1 : DraftConfig) (variable : BuilderVar) :
  Variables d !! i = Some variable →
  body d i variable = Some (d1, None) →
  rangeVariables body (S n) i d = rangeVariables body n (S i) d1.
Proof. intros Hi Hbody. cbn. by rewrite Hi, Hbody. Qed.

Lemma rangeVariables_error (body : DraftConfig → nat → BuilderVar → option outcome)
    (n i : nat) (d d1 : DraftConfig) (variable : BuilderVar) (err : error) :
  Variables d !! i = Some variable →
  body d i variable = Some (d1, Some err) →
  rangeVariables body (S n) i d = Some (d1, Some err).
Proof. intros Hi Hbody. cbn. by rewrite Hi, Hbody. Qed.

(** A walk that returns a value which is not empty gives the variable
    that value. *)
Lemma resolveDefault_reference (fuel : nat) (d : DraftConfig) (i : nat)
    (variable referenceVar : BuilderVar) (defaultVal : string) :
  ReferenceVar (Default variable) ≠ "" →
  GetVariable d (ReferenceVar (Default variable)) = Ok referenceVar →
  recurseReferenceVars fuel d referenceVar referenceVar true = Some (Ok defaultVal) →
  defaultVal ≠ "" →
  resolveDefault fuel d i variable = Some (setVariableValue d i variable defaultVal, None).
Proof.
  intros Href Hget Hrec Hdv. unfold resolveDefault.
  rewrite decide_True by done. rewrite Hget, Hrec.
  by rewrite inlineDefault_valued.
Qed.

(** Then the inline default decides. *)
Lemma resolveDefault_fallback (fuel : nat) (d : DraftConfig) (i : nat)
    (variable : BuilderVar) :
  Variables d !! i = Some variable →
  Value variable = "" →
  chainEmpty fuel d variable →
  resolveDefault fuel d i variable =
  Some (if decide (DefaultValue (Default variable) ≠ "")
        then (setVariableValue d i variable (DefaultValue (Default variable)), None)
        else (d, Some (errNoDefault (Name variable)))).
Proof.
  intros Hi Hv Hchain. unfold resolveDefault.
  assert (Hinline : inlineDefault d i variable =
            if decide (DefaultValue (Default variable) ≠ "")
            then (setVariableValue d i variable (DefaultValue (Default variable)), None)
            else (d, Some (errNoDefault (Name variable)))).
  { case_decide as Hd.
    - by apply inlineDefault_inline.
    - apply inlineDefault_none; [done|]. by destruct (decide (DefaultValue (Default variable) = "")). }
  destruct Hchain as [Href | (referenceVar & Hget & Hrec)].
  - rewrite decide_False by (intros H; by apply H). by rewrite Hinline.
  - destruct (decide (ReferenceVar (Default variable) ≠ "")) as [Href|Href];
      [|by rewrite Hinline].
    rewrite Hget, Hrec. rewrite <- Hv at 1 2.
    rewrite setVariableValue_same, withValue_Value by done. by rewrite Hinline.
Qed.

(** The chain in the order of declaration, step by step: the walk for A
    goes from B to C and returns the inline default of C; the walk for B
    starts at C; C takes its inline default. *)
Lemma ApplyDefaultVariables_chain (fuel : nat) (d : DraftConfig) (A B C : BuilderVar)
    (x : string) :
  Variables d = [A; B; C] →
  Value A = "" → Value B = "" → Value C = "" →
  ReferenceVar (Default A) = Name B →
  ReferenceVar (Default B) = Name C →
  ReferenceVar (Default C) = "" →
  DefaultValue (Default C) = x →
  x ≠ "" →
  Name B ≠ "" → Name C ≠ "" →
  Name A ≠ Name B → Name A ≠ Name C → Name B ≠ Name C →
  1 < fuel →
  ApplyDefaultVariables fuel d
  = Some (withVariables d [withValue A x; withValue B x; withValue C x], None).
Proof.
  intros Hvars HvA HvB HvC HrA HrB HrC HdC Hx HnB HnC HAB HAC HBC Hfuel.
  destruct fuel as [|[|fuel]]; [lia..|].
  unfold ApplyDefaultVariables. rewrite Hvars. cbn [length].
  (* A: the walk goes from B to C and returns the inline default of C *)
  set (d1 := setVariableValue d 0 A x).
  rewrite (rangeVariables_S _ _ _ d d1 A); [|by rewrite Hvars|].
  2:{ unfold applyDefaultBody. rewrite decide_True by done.
      apply (resolveDefault_reference _ _ _ _ B); [congruence | | | done].
      - rewrite HrA. apply (GetVariable_first _ [A] [C]); [done|].
        intros w ->%list_elem_of_singleton. done.
      - rewrite (recurseReferenceVars_hop _ _ _ C); [| by left | done | congruence |].
        + rewrite recurseReferenceVars_inline; [by rewrite HdC | right; congruence | done..].
        + rewrite HrB. apply (GetVariable_first _ [A; B] []); [done|].
          intros w [-> | ->%list_elem_of_singleton]%elem_of_cons; done. }
  assert (Hvars1 : Variables d1 = [withValue A x; B; C]) by (cbn; by rewrite Hvars).
  (* B: the walk starts at C *)
  set (d2 := setVariableValue d1 1 B x).
  rewrite (rangeVariables_S _ _ _ d1 d2 B); [|by rewrite Hvars1|].
  2:{ unfold applyDefaultBody. rewrite decide_True by done.
      apply (resolveDefault_reference _ _ _ _ C); [congruence | | | done].
      - rewrite HrB. apply (GetVariable_first _ [withValue A x; B] []); [done|].
        intros w [-> | ->%list_elem_of_singleton]%elem_of_cons; done.
      - rewrite recurseReferenceVars_inline; [by rewrite HdC | by left | done..]. }
  assert (Hvars2 : Variables d2 = [withValue A x; withValue B x; C])
    by (cbn; by rewrite Hvars).
  (* C: the inline default *)
  rewrite (rangeVariables_S _ _ _ d2 (setVariableValue d2 2 C x) C); [|by rewrite Hvars2|].
  2:{ rewrite applyDefaultBody_inline_only; [by rewrite HdC | done | done | congruence]. }
  cbn [rangeVariables]. unfold setVariableValue at 1. by rewrite Hvars2.
Qed.

(** Rewriting of the tests on names and values that the hypotheses
    decide, and the run of the loop on a list that is known. *)
Ltac decide_names :=
  repeat first
    [ rewrite decide_True by (first [done | congruence])
    | rewrite decide_False by (first [done | congruence | (intros ?; congruence)])
    | rewrite bool_decide_eq_true_2 by (first [done | congruence])
    | rewrite bool_decide_eq_false_2 by (first [done | congruence]) ].

Ltac run_defaults :=
  repeat progress
         (unfold applyDefaultBody, resolveDefault, inlineDefault, GetVariable,
            setVariableValue;
          cbn [rangeVariables recurseReferenceVars findVariable
                 withVariables withValue Variables lookup list_lookup insert list_insert
                 Name Value Default ReferenceVar DefaultValue negb andb length];
          decide_names).

(** The chain in any order of declaration: whichever of A, B and C the
    loop comes to first, each ends with the value [x]. *)
Lemma ApplyDefaultVariables_chain_any_order (fuel : nat) (d : DraftConfig)
    (A B C : BuilderVar) (x : string) :
  Variables d ≡ₚ [A; B; C] →
  Value A = "" → Value B = "" → Value C = "" →
  ReferenceVar (Default A) = Name B →
  ReferenceVar (Default B) = Name C →
  ReferenceVar (Default C) = "" →
  DefaultValue (Default C) = x →
  x ≠ "" →
  Name B ≠ "" → Name C ≠ "" →
  Name A ≠ Name B → Name A ≠ Name C → Name B ≠ Name C →
  1 < fuel →
  ApplyDefaultVariables fuel d
  = Some (withVariables d ((λ v, withValue v x) <$> Variables d), None).
Proof.
  intros Hperm HvA HvB HvC HrA HrB HrC HdC Hx HnB HnC HAB HAC HBC Hfuel.
  destruct fuel as [|[|fuel]]; [lia..|].
  destruct A as [nA cA [pA rA dA] sA eA tA kA vA rgA].
  destruct B as [nB cB [pB rB dB] sB eB tB kB vB rgB].
  destruct C as [nC cC [pC rC dC] sC eC tC kC vC rgC].
  cbn in HvA, HvB, HvC, HrA, HrB, HrC, HdC, HnB, HnC, HAB, HAC, HBC. subst.
  symmetry in Hperm. apply permutations_Permutation in Hperm.
  destruct d as [f1 f2 f3 f4 f5 f6 vars f8 f9 f10]. cbn [Variables] in Hperm.
  unfold ApplyDefaultVariables. cbn in Hperm.
  repeat (apply elem_of_cons in Hperm as [-> | Hperm]);
    [.. | by apply elem_of_nil in Hperm]; run_defaults; reflexivity.
Qed.

(** ** Walks of any length *)

(** A walk that the cycle check lets pass ends as its last variable
    does. *)
Lemma recurseReferenceVars_follows (d : DraftConfig) (variableCheck v u : BuilderVar)
    (n fuel : nat) (isFirst : bool) (r : result string) :
  follows d variableCheck v u n →
  isFirst = true ∨ Name v ≠ Name variableCheck →
  (∀ b, b = true ∨ Name u ≠ Name variableCheck →
        recurseReferenceVars (S fuel) d u variableCheck b = Some r) →
  recurseReferenceVars (n + S fuel) d v variableCheck isFirst = Some r.
Proof.
  intros Hwalk. revert isFirst.
  induction Hwalk as [v | v w u n (Hv & Href & Hw) Hname Hwalk IH]; intros isFirst Hfirst Hend.
  - by apply Hend.
  - cbn [Nat.add]. rewrite (recurseReferenceVars_hop _ _ _ w) by done.
    apply IH; [by right | done].
Qed.

(** The walk stops at the first variable that has a value, and returns
    that value. *)
Lemma recurseReferenceVars_to_value (fuel : nat) (d : DraftConfig)
    (variableCheck v u : BuilderVar) (n : nat) (isFirst : bool) :
  follows d variableCheck v u n →
  isFirst = true ∨ Name v ≠ Name variableCheck →
  Value u ≠ "" →
  n < fuel →
  recurseReferenceVars fuel d v variableCheck isFirst = Some (Ok (Value u)).
Proof.
  intros Hwalk Hfirst Hvalue Hfuel.
  replace fuel with (n + S (fuel - S n)) by lia.
  apply (recurseReferenceVars_follows _ _ _ u); [done..|].
  intros b Hb. by apply recurseReferenceVars_value.
Qed.

(** The walk ends at a variable without a value and without a reference,
    and returns the inline default of that variable. *)
Lemma recurseReferenceVars_to_inline (fuel : nat) (d : DraftConfig)
    (variableCheck v u : BuilderVar) (n : nat) (isFirst : bool) :
  follows d variableCheck v u n →
  isFirst = true ∨ Name v ≠ Name variableCheck →
  Value u = "" →
  ReferenceVar (Default u) = "" →
  n < fuel →
  recurseReferenceVars fuel d v variableCheck isFirst
  = Some (Ok (DefaultValue (Default u))).
Proof.
  intros Hwalk Hfirst Hvalue Href Hfuel.
  replace fuel with (n + S (fuel - S n)) by lia.
  apply (recurseReferenceVars_follows _ _ _ u); [done..|].
  intros b Hb. by apply recurseReferenceVars_inline.
Qed.

(** The walk ends at a variable whose default names a variable the config
    does not hold, with the error of the lookup, wrapped once. *)
Lemma recurseReferenceVars_to_missing (fuel : nat) (d : DraftConfig)
    (variableCheck v u : BuilderVar) (n : nat) (isFirst : bool) (err : error) :
  follows d variableCheck v u n →
  isFirst = true ∨ Name v ≠ Name variableCheck →
  Value u = "" →
  ReferenceVar (Default u) ≠ "" →
  GetVariable d (ReferenceVar (Default u)) = Err err →
  n < fuel →
  recurseReferenceVars fuel d v variableCheck isFirst = Some (Err (errRecurse err)).
Proof.
  intros Hwalk Hfirst Hvalue Href Hget Hfuel.
  replace fuel with (n + S (fuel - S n)) by lia.
  apply (recurseReferenceVars_follows _ _ _ u); [done..|].
  intros b Hb. by apply recurseReferenceVars_missing.
Qed.

(** What the resolution of the first variable without a value leaves in
    that variable is there when [ApplyDefaultVariables] returns. *)
Lemma ApplyDefaultVariables_resolved (fuel : nat) (d d' : DraftConfig) (i : nat)
    (variable : BuilderVar) (s : string) (oe : option error) :
  Variables d !! i = Some variable →
  Value variable = "" →
  (∀ j w, j < i → Variables d !! j = Some w → Value w ≠ "") →
  resolveDefault fuel d i variable = Some (setVariableValue d i variable s, None) →
  ApplyDefaultVariables fuel d = Some (d', oe) →
  Variables d' !! i = Some (withValue variable s).
Proof.
  intros Hi Hv Hbefore Hres Hrun.
  assert (Hpre : rangeVariables (applyDefaultBody fuel) i 0 d = Some (d, None)).
  { apply rangeVariables_noop. intros j w Hj Hw.
    apply applyDefaultBody_valued. eapply Hbefore; [|done]. lia. }
  assert (Hbody : applyDefaultBody fuel d i variable
                  = Some (setVariableValue d i variable s, None)).
  { unfold applyDefaultBody. by rewrite decide_True. }
  pose proof (proj1 (lookup_lt_is_Some _ _) (mk_is_Some _ _ Hi)) as Hlen.
  destruct (rangeVariables_at _ (applyDefaultBody_ownValue fuel) _ _ _ _ _ _ Hi Hlen Hrun)
    as [(err & Herr & _) | (d1 & d2 & oe2 & Hpre' & Hi1 & Hbody' & Hi' & _)].
  - congruence.
  - rewrite Hpre in Hpre'. injection Hpre' as <-.
    rewrite Hbody in Hbody'. injection Hbody' as <- <-.
    rewrite Hi'. by apply setVariableValue_lookup.
Qed.

(** An error of the resolution of the first variable without a value is
    what [ApplyDefaultVariables] returns, with the config as it was. *)
Lemma ApplyDefaultVariables_failed (fuel : nat) (d : DraftConfig) (i : nat)
    (variable : BuilderVar) (err : error) :
  Variables d !! i = Some variable →
  Value variable = "" →
  (∀ j w, j < i → Variables d !! j = Some w → Value w ≠ "") →
  resolveDefault fuel d i variable = Some (d, Some err) →
  ApplyDefaultVariables fuel d = Some (d, Some err).
Proof.
  intros Hi Hv Hbefore Hres.
  assert (Hpre : rangeVariables (applyDefaultBody fuel) i 0 d = Some (d, None)).
  { apply rangeVariables_noop. intros j w Hj Hw.
    apply applyDefaultBody_valued. eapply Hbefore; [|done]. lia. }
  pose proof (proj1 (lookup_lt_is_Some _ _) (mk_is_Some _ _ Hi)) as Hlen.
  unfold ApplyDefaultVariables.
  replace (length (Variables d)) with (i + S (length (Variables d) - S i)) by lia.
  rewrite rangeVariables_split, Hpre.
  apply (rangeVariables_error _ _ _ _ _ variable); [done|].
  unfold applyDefaultBody. by rewrite decide_True.
Qed.

(** C5. Default resolution follows the chain of references to the first
    variable that has a value: when hops over variables without a value
    lead from the variable that the default names to a variable with a
    value, and the cycle check lets them pass, the resolution sets that
    value, and on the first variable without a value
    [ApplyDefaultVariables] leaves it there. For a config that holds A, B
    and C without values, in any order, where the default of A names B,
    the default of B names C, and C has the inline default [x] and no
    reference, [ApplyDefaultVariables] returns nil and leaves [x] as the
    value of A (and of B and C); and a chain of any length that ends at a
    variable without a value and without a reference gives the inline
    default of that variable. In general, when the walk comes back with
    the empty string (or there is no reference), the resolution of an
    unset variable takes its inline default when that is not empty, and
    otherwise returns the no-default error that names the variable; on
    the first unset variable of a config this is what
    [ApplyDefaultVariables] does. *)
Theorem C5_chain_then_inline_default :
  (∀ fuel d i variable first u n,
      ReferenceVar (Default variable) ≠ "" →
      GetVariable d (ReferenceVar (Default variable)) = Ok first →
      follows d first first u n →
      Value u ≠ "" →
      n < fuel →
      resolveDefault fuel d i variable
      = Some (setVariableValue d i variable (Value u), None)
      ∧ (Variables d !! i = Some variable →
         Value variable = "" →
         (∀ j w, j < i → Variables d !! j = Some w → Value w ≠ "") →
         ∀ d' oe, ApplyDefaultVariables fuel d = Some (d', oe) →
                  Variables d' !! i = Some (withValue variable (Value u))))
  ∧ (∀ fuel d A B C x,
      Variables d ≡ₚ [A; B; C] →
      Value A = "" → Value B = "" → Value C = "" →
      ReferenceVar (Default A) = Name B →
      ReferenceVar (Default B) = Name C →
      ReferenceVar (Default C) = "" →
      DefaultValue (Default C) = x →
      x ≠ "" →
      Name B ≠ "" → Name C ≠ "" →
      Name A ≠ Name B → Name A ≠ Name C → Name B ≠ Name C →
      1 < fuel →
      ApplyDefaultVariables fuel d
      = Some (withVariables d ((λ v, withValue v x) <$> Variables d), None))
  ∧ (∀ fuel d i variable first u n,
        ReferenceVar (Default variable) ≠ "" →
        GetVariable d (ReferenceVar (Default variable)) = Ok first →
        follows d first first u n →
        Value u = "" →
        ReferenceVar (Default u) = "" →
        DefaultValue (Default u) ≠ "" →
        n < fuel →
        resolveDefault fuel d i variable
        = Some (setVariableValue d i variable (DefaultValue (Default u)), None)
        ∧ (Variables d !! i = Some variable →
           Value variable = "" →
           (∀ j w, j < i → Variables d !! j = Some w → Value w ≠ "") →
           ∀ d' oe, ApplyDefaultVariables fuel d = Some (d', oe) →
                    Variables d' !! i
                    = Some (withValue variable (DefaultValue (Default u)))))
  ∧ (∀ fuel d i variable,
        Variables d !! i = Some variable →
        Value variable = "" →
        chainEmpty fuel d variable →
        resolveDefault fuel d i variable =
        Some (if decide (DefaultValue (Default variable) ≠ "")
              then (setVariableValue d i variable (DefaultValue (Default variable)), None)
              else (d, Some (errNoDefault (Name variable)))))
  ∧ (∀ fuel d i variable,
        Variables d !! i = Some variable →
        Value variable = "" →
        (∀ j w, j < i → Variables d !! j = Some w → Value w ≠ "") →
        chainEmpty fuel d variable →
        (DefaultValue (Default variable) = "" →
         ApplyDefaultVariables fuel d = Some (d, Some (errNoDefault (Name variable))))
        ∧ (DefaultValue (Default variable) ≠ "" →
           ∀ d' oe, ApplyDefaultVariables fuel d = Some (d', oe) →
                    Variables d' !! i
                    = Some (withValue variable (DefaultValue (Default variable))))).
Proof.
  split_and!.
  - intros fuel d i variable first u n Href Hget Hwalk Hvalue Hfuel.
    assert (Hres : resolveDefault fuel d i variable
                   = Some (setVariableValue d i variable (Value u), None)).
    { apply (resolveDefault_reference _ _ _ _ first); [done..| |done].
      by apply (recurseReferenceVars_to_value _ _ _ _ _ n); [|left|..]. }
    split; [done|]. intros Hi Hv Hbefore d' oe Hrun.
    by apply (ApplyDefaultVariables_resolved fuel d d' i variable _ oe).
  - apply ApplyDefaultVariables_chain_any_order.
  - intros fuel d i variable first u n Href Hget Hwalk Hvalue Hnone Hinline Hfuel.
    assert (Hres : resolveDefault fuel d i variable
                   = Some (setVariableValue d i variable (DefaultValue (Default u)), None)).
    { apply (resolveDefault_reference _ _ _ _ first); [done..| |done].
      by apply (recurseReferenceVars_to_inline _ _ _ _ _ n); [|left|..]. }
    split; [done|]. intros Hi Hv Hbefore d' oe Hrun.
    by apply (ApplyDefaultVariables_resolved fuel d d' i variable _ oe).
  - apply resolveDefault_fallback.
  - intros fuel d i variable Hi Hv Hbefore Hchain.
    assert (Hres : resolveDefault fuel d i variable =
              Some (if decide (DefaultValue (Default variable) ≠ "")
                    then (setVariableValue d i variable (DefaultValue (Default variable)), None)
                    else (d, Some (errNoDefault (Name variable)))))
      by (by apply resolveDefault_fallback).
    split.
    + intros Hd. rewrite decide_False in Hres by (intros H; by apply H).
      by apply (ApplyDefaultVariables_failed _ _ i variable).
    + intros Hd d' oe Hrun. rewrite decide_True in Hres by done.
      by apply (ApplyDefaultVariables_resolved fuel d d' i variable _ oe).
Qed.

(** ** Reading a value (C4) *)

Section Accessors.
Context `{!Builtins}.

(** [GetVariableValue] reads the entry that [GetVariable] returns. *)
Lemma getVariableValueFrom_findVariable (d : DraftConfig) (vars : list BuilderVar)
    (name : string) :
  getVariableValueFrom d vars name =
  match findVariable vars name with
  | None => Err (errNotFound name)
  | Some variable =>
      if decide (Value variable = "") then Err (errNoValue name)
      else
        match GetVariableValidator d (Kind variable) (Value variable) with
        | Some err => Err (errValidation err)
        | None =>
            match GetVariableTransformer d (Kind variable) (Value variable) with
            | Err err => Err (errTransformation err)
            | Ok response => Ok response
            end
        end
  end.
Proof.
  induction vars as [|variable rest IH]; cbn; [done|].
  destruct (decide (Name variable = name)); [done | exact IH].
Qed.

(** C4. [GetVariableValue] returns the not-found error when no variable
    bears the name; for the first variable that bears it, the no-value
    error when its value is empty, the validation error when the
    validator of its kind rejects the value, the transformation error when
    the transformer of its kind fails, and the transformed value
    otherwise. The validator and the transformer are the caller's override
    for the kind when there is one, and the built-in otherwise. The
    result is a function of the config and the name alone, computed anew
    by each call, and the config is only read. *)
Theorem C4_get_variable_value :
  (∀ d name,
      (∀ v, v ∈ Variables d → Name v ≠ name) →
      GetVariableValue d name = Err (errNotFound name))
  ∧ (∀ d name pre variable post,
        Variables d = pre ++ variable :: post →
        (∀ w, w ∈ pre → Name w ≠ name) →
        Name variable = name →
        (Value variable = "" → GetVariableValue d name = Err (errNoValue name))
        ∧ (∀ err,
              Value variable ≠ "" →
              GetVariableValidator d (Kind variable) (Value variable) = Some err →
              GetVariableValue d name = Err (errValidation err))
        ∧ (∀ err,
              Value variable ≠ "" →
              GetVariableValidator d (Kind variable) (Value variable) = None →
              GetVariableTransformer d (Kind variable) (Value variable) = Err err →
              GetVariableValue d name = Err (errTransformation err))
        ∧ (∀ response,
              Value variable ≠ "" →
              GetVariableValidator d (Kind variable) (Value variable) = None →
              GetVariableTransformer d (Kind variable) (Value variable) = Ok response →
              GetVariableValue d name = Ok response))
  ∧ (∀ (d : DraftConfig) kind,
        GetVariableValidator d kind
        = default (validators_GetValidator kind) (Validators d !! kind)
        ∧ GetVariableTransformer d kind
          = default (transformers_GetTransformer kind) (Transformers d !! kind))
  ∧ (∀ d name,
        GetVariableValue d name =
        match GetVariable d name with
        | Err err => Err err
        | Ok variable =>
            if decide (Value variable = "") then Err (errNoValue name)
            else
              match GetVariableValidator d (Kind variable) (Value variable) with
              | Some err => Err (errValidation err)
              | None =>
                  match GetVariableTransformer d (Kind variable) (Value variable) with
                  | Err err => Err (errTransformation err)
                  | Ok response => Ok response
                  end
              end
        end).
Proof.
  split_and!.
  - intros d name Hnone. unfold GetVariableValue.
    rewrite getVariableValueFrom_findVariable.
    by rewrite (proj2 (findVariable_None _ _) Hnone).
  - intros d name pre variable post Hvars Hpre Hname.
    assert (Hfind : findVariable (Variables d) name = Some variable).
    { rewrite Hvars, <- Hname. apply findVariable_first. by rewrite Hname. }
    unfold GetVariableValue. rewrite getVariableValueFrom_findVariable, Hfind.
    split_and!.
    + intros Hv. by rewrite decide_True.
    + intros err Hv Hval. rewrite decide_False by done. by rewrite Hval.
    + intros err Hv Hval Htr. rewrite decide_False by done. by rewrite Hval, Htr.
    + intros response Hv Hval Htr. rewrite decide_False by done. by rewrite Hval, Htr.
  - intros d kind. unfold GetVariableValidator, GetVariableTransformer.
    by destruct (Validators d !! kind), (Transformers d !! kind).
  - intros d name. unfold GetVariableValue, GetVariable.
    rewrite getVariableValueFrom_findVariable.
    by destruct (findVariable (Variables d) name).
Qed.
End Accessors.

(** ** A walk that does not return (C6) *)

(** A walk that stands on a variable whose default names the variable
    itself, and that is not the one the check looks for, stands there after
    every hop: no fuel lets it return. *)
Lemma recurseReferenceVars_self_reference (fuel : nat) (d : DraftConfig)
    (u variableCheck : BuilderVar) :
  hop d u u →
  Name u ≠ Name variableCheck →
  recurseReferenceVars fuel d u variableCheck false = None.
Proof.
  intros (Hv & Href & Hu) Hname. induction fuel as [|fuel IH]; [done|].
  by rewrite (recurseReferenceVars_hop _ _ _ u); [| by right | ..].
Qed.

(** In the config A -> B -> C -> C the walk from B, once at C, is at C
    again after every hop. *)
Lemma recurseReferenceVars_ABCC (fuel : nat) :
  recurseReferenceVars fuel cfgABCC (referring "C" "C") (referring "B" "C") false = None.
Proof. by apply recurseReferenceVars_self_reference. Qed.

(** C6, on the config A -> B -> C -> C: the resolution of A walks from B
    to C and from C to C without end; for no amount of fuel does
    [recurseReferenceVars], [ApplyDefaultVariables] or
    [ApplyDefaultVariablesForVersion] come to a [return]. *)
Theorem C6_walk_does_not_return :
  (∀ fuel,
      recurseReferenceVars fuel cfgABCC (referring "B" "C") (referring "B" "C") true = None)
  ∧ (∀ fuel, ApplyDefaultVariables fuel cfgABCC = None)
  ∧ (∀ fuel, @ApplyDefaultVariablesForVersion sampleSemver fuel cfgABCC "1.0.0" = None).
Proof.
  assert (Hwalk : ∀ fuel,
    recurseReferenceVars fuel cfgABCC (referring "B" "C") (referring "B" "C") true = None).
  { intros [|fuel]; [done|].
    rewrite (recurseReferenceVars_hop _ _ _ (referring "C" "C")); [| by left | done..].
    apply recurseReferenceVars_ABCC. }
  assert (Hres : ∀ fuel, resolveDefault fuel cfgABCC 0 (referring "A" "B") = None).
  { intros fuel. unfold resolveDefault. rewrite decide_True by done.
    change (GetVariable cfgABCC (ReferenceVar (Default (referring "A" "B"))))
      with (Ok (A := BuilderVar) (referring "B" "C")).
    cbv iota beta. by rewrite Hwalk. }
  split_and!; [done | |].
  - intros fuel. unfold ApplyDefaultVariables. cbn [cfgABCC configOf Variables length rangeVariables].
    change ([referring "A" "B"; referring "B" "C"; referring "C" "C"] !! 0)
      with (Some (referring "A" "B")).
    unfold applyDefaultBody. rewrite decide_True by done.
    fold cfgABCC. by rewrite Hres.
  - intros fuel.
    assert (∃ r, @semver_ParseRange sampleSemver ">=0.0.1" = Ok r ∧ r (1, 0, 0) = true)
      as (r & Hr & Hin) by (eexists; split; vm_compute; reflexivity).
    rewrite (@ApplyDefaultVariablesForVersion_valid sampleSemver _ _ _ (1, 0, 0) r);
      [| done..].
    cbn [cfgABCC configOf Variables length rangeVariables].
    change ([referring "A" "B"; referring "B" "C"; referring "C" "C"] !! 0)
      with (Some (referring "A" "B")).
    unfold applyDefaultForVersionBody. rewrite decide_True by done.
    change (Versions (referring "A" "B")) with ">=0.0.1". rewrite Hr, Hin. cbn [negb].
    fold cfgABCC. by rewrite Hres.
Qed.

(** ** The deep copy (C7, C8) *)

Lemma copy_make {A : Type} (zero : A) (src : list A) :
  copy (replicate (length src) zero) src = src.
Proof.
  unfold copy. rewrite length_replicate, firstn_all.
  rewrite drop_ge by (by rewrite length_replicate). apply app_nil_r.
Qed.

Lemma BuilderVar_DeepCopy_spec (h : store) (bv : ptr) (v : BuilderVar) :
  h !! bv = Some v →
  BuilderVar_DeepCopy h bv = Some (length h, h ++ [copyOf v]).
Proof.
  intros Hv. unfold BuilderVar_DeepCopy, new. rewrite Hv. cbn.
  by rewrite copy_make.
Qed.

Lemma mapM_lookup_ext (h h' : store) (ptrs : list ptr) :
  (∀ p, p ∈ ptrs → h' !! p = h !! p) →
  mapM (λ p : ptr, h' !! p) ptrs = mapM (λ p : ptr, h !! p) ptrs.
Proof.
  intros Hext. apply Forall_mapM_ext, Forall_forall. intros p Hp. by apply Hext.
Qed.

Lemma mapM_lookup_allocated (h : store) (ptrs : list ptr) :
  Forall (λ p : ptr, p < length h) ptrs →
  ∃ vs, mapM (λ p : ptr, h !! p) ptrs = Some vs ∧ length vs = length ptrs.
Proof.
  induction 1 as [|p ptrs Hp _ (vs & Hvs & Hlen)]; cbn; [by exists []|].
  destruct (lookup_lt_is_Some_2 _ _ Hp) as [v Hv].
  exists (v :: vs). rewrite Hv, Hvs. cbn. by rewrite Hlen.
Qed.

(** The copies are new objects, allocated one after the other behind the
    objects of the store; the objects of the store stay as they are. *)
Lemma deepCopyVariables_spec (h0 later : store) (ptrs : list ptr) (vs : list BuilderVar) :
  mapM (λ p : ptr, h0 !! p) ptrs = Some vs →
  deepCopyVariables h0 (h0 ++ later) ptrs
  = Some (seq (length (h0 ++ later)) (length ptrs), h0 ++ later ++ (copyOf <$> vs)).
Proof.
  revert later vs. induction ptrs as [|p ptrs IH]; intros later vs; cbn.
  - intros [= <-]. cbn. by rewrite app_nil_r.
  - destruct (h0 !! p) as [v|] eqn:Hp; cbn; [|done].
    destruct (mapM (λ p : ptr, h0 !! p) ptrs) as [vs'|] eqn:Hvs; cbn; [|done].
    intros [= <-].
    rewrite (BuilderVar_DeepCopy_spec _ _ v) by (by apply lookup_app_l_Some). cbn.
    rewrite <- app_assoc, (IH (later ++ [copyOf v]) vs') by done.
    cbn. rewrite (app_assoc h0 later [copyOf v]), (length_app (h0 ++ later)). cbn.
    rewrite Nat.add_1_r. by rewrite <- !app_assoc.
Qed.

(** A nil entry makes the loop panic, and nothing else does. *)
Lemma deepCopyVariables_None (h0 later : store) (ptrs : list ptr) :
  deepCopyVariables h0 (h0 ++ later) ptrs = None
  ↔ ¬ Forall (λ p : ptr, p < length h0) ptrs.
Proof.
  split.
  - intros Hnone Hall.
    assert (Hvs : is_Some (mapM (λ p : ptr, h0 !! p) ptrs)).
    { apply mapM_is_Some. eapply Forall_impl; [done|].
      intros p Hp. by apply lookup_lt_is_Some. }
    destruct Hvs as [vs Hvs]. by rewrite (deepCopyVariables_spec _ _ _ _ Hvs) in Hnone.
  - intros Hnot.
    destruct (deepCopyVariables h0 (h0 ++ later) ptrs) as [[ps h2]|] eqn:Hrun; [|done].
    exfalso. apply Hnot. clear Hnot. revert later ps h2 Hrun.
    induction ptrs as [|p ptrs IH]; intros later ps h2; cbn; [by constructor|].
    destruct (h0 !! p) as [v|] eqn:Hp; cbn; [|done].
    rewrite (BuilderVar_DeepCopy_spec _ _ v) by (by apply lookup_app_l_Some). cbn.
    rewrite <- app_assoc.
    destruct (deepCopyVariables h0 _ ptrs) as [[ps' h']|] eqn:Hrest; cbn; [|done].
    intros _. constructor; [by eapply lookup_lt_Some | by eapply IH].
Qed.

Lemma DeepCopy_spec (h : store) (d : DraftConfigP) (vs : list BuilderVar) :
  mapM (λ p : ptr, h !! p) (Variables d) = Some vs →
  DeepCopy h d =
  Some (mkDraftConfig (TemplateName d) (DisplayName d) (ConfigDescription d)
          (ConfigType d) (ConfigVersions d) (DefaultVersion d)
          (seq (length h) (length (Variables d))) (FileNameOverrideMap d) ∅ ∅,
        h ++ (copyOf <$> vs)).
Proof.
  intros Hvs. unfold DeepCopy.
  rewrite <- (app_nil_r h) at 2. rewrite (deepCopyVariables_spec _ _ _ _ Hvs). cbn.
  by rewrite app_nil_r, list_to_map_to_list.
Qed.

(** [DeepCopy] panics on a config with a nil entry, and on no other. *)
Lemma DeepCopy_None (h : store) (d : DraftConfigP) :
  DeepCopy h d = None ↔ ¬ allocated h d.
Proof.
  unfold DeepCopy, allocated. rewrite <- (deepCopyVariables_None h [] (Variables d)).
  rewrite app_nil_r. destruct (deepCopyVariables h h (Variables d)) as [[ptrs h']|]; by cbn.
Qed.

(** [GetVariable] on a config whose entries all point to objects returns,
    and a pointer it returns is an entry of the config. *)
Lemma findVariableP_allocated (h : store) (ptrs : list ptr) (name : string) :
  Forall (λ p : ptr, p < length h) ptrs →
  ∃ found, findVariableP h ptrs name = Some found
           ∧ ∀ p, found = Ok p → p ∈ ptrs.
Proof.
  induction 1 as [|p ptrs Hp _ (found & Hfound & Hin)]; cbn.
  - eexists. split; [done|]. by intros p [=].
  - destruct (lookup_lt_is_Some_2 _ _ Hp) as [v Hv]. rewrite Hv. cbn.
    case_decide.
    + eexists. split; [done|]. intros q [= <-]. apply list_elem_of_here.
    + exists found. split; [done|]. intros q Hq. apply list_elem_of_further. by apply Hin.
Qed.

(** [SetVariable] on such a config returns; it writes one object that is
    an entry of the config, or appends a new object to the store. *)
Lemma SetVariableP_spec (h : store) (d : DraftConfigP) (name value : string) :
  allocated h d →
  ∃ d' h', SetVariableP h d name value = Some (d', h')
           ∧ ((∃ p v, p ∈ Variables d ∧ h !! p = Some v
                      ∧ h' = <[p := withValue v value]> h ∧ d' = d)
              ∨ (h' = h ++ [newBuilderVar name value]
                 ∧ d' = withVariables d (Variables d ++ [length h]))).
Proof.
  intros Halloc. unfold SetVariableP, GetVariableP.
  destruct (findVariableP_allocated h (Variables d) name Halloc) as (found & -> & Hin).
  cbn. destruct found as [p|err].
  - assert (Hp : p ∈ Variables d) by (by apply Hin).
    unfold allocated in Halloc. rewrite Forall_forall in Halloc.
    destruct (lookup_lt_is_Some_2 _ _ (Halloc _ Hp)) as [v Hv]. rewrite Hv. cbn.
    eexists _, _. split; [done|]. left. by exists p, v.
  - cbn. eexists _, _. split; [done|]. by right.
Qed.

(** So the objects that are no entries of the config are as they were. *)
Lemma SetVariableP_frame (h h' : store) (d d' : DraftConfigP) (name value : string)
    (q : ptr) :
  allocated h d →
  SetVariableP h d name value = Some (d', h') →
  q < length h → q ∉ Variables d →
  h' !! q = h !! q.
Proof.
  intros Halloc Hset Hq Hnotin.
  destruct (SetVariableP_spec h d name value Halloc) as (d1 & h1 & Hset1 & Hcases).
  rewrite Hset in Hset1. injection Hset1 as <- <-.
  destruct Hcases as [(p & v & Hp & _ & -> & _) | [-> _]].
  - apply list_lookup_insert_ne. by intros ->.
  - by apply lookup_app_l.
Qed.

(** The copy of a config whose entries all point to objects: where its
    entries are, and what they point to. *)
Lemma DeepCopy_entries (h h' : store) (d c : DraftConfigP) :
  allocated h d →
  DeepCopy h d = Some (c, h') →
  Variables c = seq (length h) (length (Variables d))
  ∧ length h' = length h + length (Variables d)
  ∧ (∀ p, p < length h → h' !! p = h !! p)
  ∧ (∀ i p, Variables d !! i = Some p →
            ∃ v, h !! p = Some v ∧ h' !! (length h + i) = Some (copyOf v)).
Proof.
  intros Halloc Hcopy.
  destruct (mapM_lookup_allocated _ _ Halloc) as (vs & Hvs & Hlen).
  rewrite (DeepCopy_spec _ _ _ Hvs) in Hcopy. injection Hcopy as <- <-.
  split_and!; [done | | |].
  - by rewrite length_app, length_fmap, Hlen.
  - intros p Hp. by apply lookup_app_l.
  - intros i p Hi.
    apply mapM_Some_1 in Hvs.
    destruct (Forall2_lookup_l _ _ _ _ _ Hvs Hi) as (v & Hv & Hp).
    exists v. split; [done|].
    rewrite lookup_app_r by lia. replace (length h + i - length h) with i by lia.
    by rewrite list_lookup_fmap, Hv.
Qed.

(** C8. The copy of a config whose entries all point to objects has no
    validator and no transformer overrides, the metadata and the file name
    overrides of the original, and as many variables; the variable at each
    index has the zero [ConditionalRef] and the name, kind, type, value,
    versions, description, default and example values of the original's. *)
Theorem C8_deep_copy_contents (h : store) (d : DraftConfigP) :
  allocated h d →
  ∃ c h',
    DeepCopy h d = Some (c, h')
    ∧ Validators c = ∅
    ∧ Transformers c = ∅
    ∧ (TemplateName c = TemplateName d
       ∧ DisplayName c = DisplayName d
       ∧ ConfigDescription c = ConfigDescription d
       ∧ ConfigType c = ConfigType d
       ∧ ConfigVersions c = ConfigVersions d
       ∧ DefaultVersion c = DefaultVersion d
       ∧ FileNameOverrideMap c = FileNameOverrideMap d)
    ∧ length (Variables c) = length (Variables d)
    ∧ ∀ i p, Variables d !! i = Some p →
        ∃ q v v',
          Variables c !! i = Some q ∧ h !! p = Some v ∧ h' !! q = Some v'
          ∧ ConditionalRef v' = zeroConditionalRef
          ∧ Name v' = Name v
          ∧ Kind v' = Kind v
          ∧ VarType v' = VarType v
          ∧ Value v' = Value v
          ∧ Versions v' = Versions v
          ∧ Description v' = Description v
          ∧ Default v' = Default v
          ∧ ExampleValues v' = ExampleValues v.
Proof.
  intros Halloc.
  destruct (mapM_lookup_allocated _ _ Halloc) as (vs & Hvs & Hlen).
  pose proof (DeepCopy_spec _ _ _ Hvs) as Hcopy.
  destruct (DeepCopy_entries _ _ _ _ Halloc Hcopy) as (Hc & _ & _ & Hentries).
  eexists _, _. split; [exact Hcopy|]. cbn [Validators Transformers TemplateName
    DisplayName ConfigDescription ConfigType ConfigVersions DefaultVersion
    FileNameOverrideMap Variables].
  split_and!; [done.. | by rewrite length_seq |].
  intros i p Hi. destruct (Hentries i p Hi) as (v & Hv & Hq).
  exists (length h + i), v, (copyOf v). split_and!; [|done..].
  apply lookup_seq. split; [done|]. by eapply lookup_lt_Some.
Qed.

(** C7. The copy of a config whose entries all point to objects shares
    none of them: no entry of the copy is an entry of the original; a
    write through an entry of the copy, and [SetVariable] on the copy,
    leave every object of the original, and so the original as one reads
    it, as they were; and [SetVariable] on the original leaves every
    object of the copy, and the copy as one reads it, as they were. *)
Theorem C7_deep_copy_shares_no_variable (h h1 : store) (d c : DraftConfigP) :
  allocated h d →
  DeepCopy h d = Some (c, h1) →
  (∀ p, p ∈ Variables d → p ∉ Variables c)
  ∧ (∀ q v p, q ∈ Variables c → p ∈ Variables d →
              (<[q := v]> h1) !! p = h !! p)
  ∧ (∀ name value,
        ∃ c' h2, SetVariableP h1 c name value = Some (c', h2)
                 ∧ (∀ p, p ∈ Variables d → h2 !! p = h !! p)
                 ∧ readConfig h2 d = readConfig h d)
  ∧ (∀ name value,
        ∃ d' h2, SetVariableP h1 d name value = Some (d', h2)
                 ∧ (∀ q, q ∈ Variables c → h2 !! q = h1 !! q)
                 ∧ readConfig h2 c = readConfig h1 c).
Proof.
  intros Halloc Hcopy.
  destruct (DeepCopy_entries _ _ _ _ Halloc Hcopy) as (Hc & Hlen & Hold & _).
  pose proof Halloc as Hd. unfold allocated in Hd. rewrite Forall_forall in Hd.
  assert (Hcrange : ∀ q, q ∈ Variables c → length h ≤ q < length h1).
  { intros q. rewrite Hc, elem_of_seq. lia. }
  assert (Hdisjoint : ∀ p, p ∈ Variables d → p ∉ Variables c).
  { intros p Hp Hq. apply Hd in Hp. apply Hcrange in Hq. lia. }
  assert (Hallocc : allocated h1 c).
  { apply Forall_forall. intros q Hq. apply Hcrange in Hq. lia. }
  assert (Hallocd : allocated h1 d).
  { apply Forall_forall. intros p Hp. apply Hd in Hp. lia. }
  split_and!.
  - done.
  - intros q v p Hq Hp. rewrite list_lookup_insert_ne; [apply Hold; by apply Hd|].
    intros ->. by apply (Hdisjoint p).
  - intros name value.
    destruct (SetVariableP_spec h1 c name value Hallocc) as (c' & h2 & Hset & _).
    exists c', h2. split; [done|].
    assert (Hsame : ∀ p, p ∈ Variables d → h2 !! p = h !! p).
    { intros p Hp. rewrite (SetVariableP_frame _ _ _ _ _ _ p Hallocc Hset).
      - apply Hold. by apply Hd.
      - apply Hd in Hp. lia.
      - by apply Hdisjoint. }
    split; [done|]. unfold readConfig. by rewrite (mapM_lookup_ext h h2).
  - intros name value.
    destruct (SetVariableP_spec h1 d name value Hallocd) as (d' & h2 & Hset & _).
    exists d', h2. split; [done|].
    assert (Hsame : ∀ q, q ∈ Variables c → h2 !! q = h1 !! q).
    { intros q Hq. apply (SetVariableP_frame _ _ _ _ _ _ q Hallocd Hset).
      - apply Hcrange in Hq. lia.
      - intros Hqd. by apply (Hdisjoint q). }
    split; [done|]. unfold readConfig. by rewrite (mapM_lookup_ext h1 h2).
Qed.

(** ** The store and the values *)

(** The operations of Part II are those of Part III read through the
    pointers, as long as no object is an entry twice. *)
Lemma findVariableP_findVariable (h : store) (ptrs : list ptr) (vs : list BuilderVar)
    (name : string) :
  mapM (λ p : ptr, h !! p) ptrs = Some vs →
  (∃ p v, findVariableP h ptrs name = Some (Ok p)
          ∧ p ∈ ptrs ∧ h !! p = Some v ∧ findVariable vs name = Some v)
  ∨ (findVariableP h ptrs name = Some (Err (errNotFound name))
     ∧ findVariable vs name = None).
Proof.
  revert vs. induction ptrs as [|p ptrs IH]; intros vs; cbn.
  - intros [= <-]. by right.
  - destruct (h !! p) as [v|] eqn:Hp; cbn; [|done].
    destruct (mapM (λ p : ptr, h !! p) ptrs) as [vs'|] eqn:Hvs; cbn; [|done].
    intros [= <-]. cbn. case_decide as Hname.
    + left. exists p, v. split_and!; [done | apply list_elem_of_here | done..].
    + destruct (IH vs' eq_refl) as [(q & w & Hfind & Hq & Hw & Hfound) | [Hfind Hnone]].
      * left. exists q, w. split_and!; [done | by apply list_elem_of_further | done..].
      * by right.
Qed.

Lemma GetVariableP_GetVariable (h : store) (d : DraftConfigP) (dv : DraftConfig)
    (name : string) :
  readConfig h d = Some dv →
  (∃ p v, GetVariableP h d name = Some (Ok p)
          ∧ h !! p = Some v ∧ GetVariable dv name = Ok v)
  ∨ (GetVariableP h d name = Some (Err (errNotFound name))
     ∧ GetVariable dv name = Err (errNotFound name)).
Proof.
  unfold readConfig, GetVariableP, GetVariable.
  destruct (mapM (λ p : ptr, h !! p) (Variables d)) as [vs|] eqn:Hvs; [|done].
  intros [= <-]. cbn [Variables withVariables].
  destruct (findVariableP_findVariable h _ _ name Hvs)
    as [(p & v & Hfind & _ & Hp & Hfound) | [Hfind Hnone]].
  - left. exists p, v. by rewrite Hfound.
  - right. by rewrite Hnone.
Qed.

Lemma setFirst_None (vs : list BuilderVar) (name value : string) :
  findVariable vs name = None → setFirst vs name value = None.
Proof.
  induction vs as [|v vs IH]; cbn; [done|].
  case_decide; [done|]. intros Hnone. by rewrite IH.
Qed.

Lemma setFirst_store (h : store) (ptrs : list ptr) (vs : list BuilderVar)
    (name value : string) (p : ptr) (v : BuilderVar) :
  NoDup ptrs →
  mapM (λ p : ptr, h !! p) ptrs = Some vs →
  findVariableP h ptrs name = Some (Ok p) →
  h !! p = Some v →
  mapM (λ q : ptr, <[p := withValue v value]> h !! q) ptrs = setFirst vs name value.
Proof.
  intros Hnodup. revert vs.
  induction Hnodup as [|p0 ptrs Hnotin Hnodup IH]; intros vs; cbn; [done|].
  destruct (h !! p0) as [v0|] eqn:Hp0; cbn; [|done].
  destruct (mapM (λ p : ptr, h !! p) ptrs) as [vs'|] eqn:Hvs; cbn; [|done].
  intros [= <-]. cbn [setFirst]. case_decide as Hname.
  - intros [= <-] Hv. assert (v = v0) as -> by congruence.
    rewrite list_lookup_insert_eq by (by eapply lookup_lt_Some). cbn.
    replace (mapM (λ q : ptr, <[p0 := withValue v0 value]> h !! q) ptrs) with (Some vs'); [done|].
    rewrite <- Hvs. symmetry. apply mapM_lookup_ext.
    intros q Hq. apply list_lookup_insert_ne. by intros ->.
  - intros Hfind Hv.
    destruct (findVariableP_findVariable h ptrs vs' name Hvs)
      as [(q & w & Hfind' & Hq & _) | [Hfind' _]]; [|congruence].
    assert (q = p) as -> by congruence.
    rewrite list_lookup_insert_ne by (by intros ->). rewrite Hp0. cbn.
    by rewrite (IH vs' eq_refl Hfind Hv).
Qed.

(** [SetVariable] on the store is [SetVariable] on the values. *)
Lemma SetVariableP_SetVariable (h h' : store) (d d' : DraftConfigP) (dv : DraftConfig)
    (name value : string) :
  NoDup (Variables d) →
  readConfig h d = Some dv →
  SetVariableP h d name value = Some (d', h') →
  readConfig h' d' = Some (SetVariable dv name value).
Proof.
  intros Hnodup. unfold readConfig, SetVariableP, GetVariableP, SetVariable.
  destruct (mapM (λ p : ptr, h !! p) (Variables d)) as [vs|] eqn:Hvs; [|done].
  intros [= <-]. cbn [Variables withVariables].
  destruct (findVariableP_findVariable h _ _ name Hvs)
    as [(p & v & Hfind & Hp & Hv & Hfound) | [Hfind Hnone]]; rewrite Hfind; cbn.
  - rewrite Hv. cbn. intros [= <- <-].
    rewrite (setFirst_store h _ vs name value p v Hnodup Hvs Hfind Hv).
    destruct (setFirst vs name value) as [vs'|] eqn:Hset; [done|].
    exfalso. clear -Hfound Hset. induction vs as [|w vs IH]; cbn in *; [done|].
    case_decide; [done|]. destruct (setFirst vs name value); [done|]. by apply IH.
  - intros [= <- <-]. cbn [Variables withVariables].
    rewrite (setFirst_None _ _ _ Hnone).
    assert (Hold : mapM (λ p : ptr, (h ++ [newBuilderVar name value]) !! p) (Variables d)
                   = Some vs).
    { rewrite <- Hvs. apply mapM_lookup_ext. intros q Hq. apply lookup_app_l.
      apply mapM_Some_1 in Hvs. apply list_elem_of_lookup in Hq as [i Hi].
      destruct (Forall2_lookup_l _ _ _ _ _ Hvs Hi) as (w & _ & Hw).
      by eapply lookup_lt_Some. }
    apply fmap_Some. exists (vs ++ [newBuilderVar name value]). split; [|done].
    apply mapM_Some. apply Forall2_app.
    + by apply mapM_Some.
    + constructor; [|constructor]. by rewrite lookup_app_r, Nat.sub_diag.
Qed.

(** ** The walk of the renderer (C10) *)

Lemma DirEntry_ind (P : DirEntry → Prop) :
  (∀ name contents, P (File name contents)) →
  (∀ name entries, Forall P entries → P (Dir name entries)) →
  ∀ d, P d.
Proof.
  intros Hfile Hdir. fix IH 1. intros [name contents | name entries].
  - apply Hfile.
  - apply Hdir. induction entries as [|d1 rest IHrest]; constructor; [apply IH | exact IHrest].
Qed.

Section Walk.
Context `{!TemplateWriter, !TemplateEngine}.

Lemma walkDir_Dir (fn : string → DirEntry → writerState → writerState * option error)
    (name base : string) (dirs : list DirEntry) (w : writerState) :
  walkDir fn name (Dir base dirs) w =
  match fn name (Dir base dirs) w with
  | (w1, Some err) => (w1, Some err)
  | (w1, None) => walkEntries fn name dirs w1
  end.
Proof. done. Qed.

Lemma filesUnder_Dir (name base : string) (dirs : list DirEntry) :
  filesUnder name (Dir base dirs) = filesOfEntries name dirs.
Proof.
  unfold filesOfEntries. cbn [filesUnder].
  induction dirs as [|d1 rest IH]; [done|]. cbn [fmap list_fmap concat]. by rewrite <- IH.
Qed.

Lemma writeAll_app (template : Template) (files1 files2 : list (string * string * result string))
    (w : writerState) :
  writeAll template (files1 ++ files2) w =
  match writeAll template files1 w with
  | (w1, Some err) => (w1, Some err)
  | (w1, None) => writeAll template files2 w1
  end.
Proof.
  revert w. induction files1 as [|file rest IH]; intros w; cbn; [done|].
  destruct (writeTemplate template file.1.1 file.2 w) as [w1 [err|]]; [done|]. apply IH.
Qed.

(** The walk renders the files under the entry that are to be rendered,
    in its order, up to the first error. *)
Lemma walkDir_writeAll (template : Template) (name : string) (d : DirEntry)
    (w : writerState) :
  walkDir (walkFn template) name d w
  = writeAll template (filter (λ file, isRendered file) (filesUnder name d)) w.
Proof.
  revert name w. induction d as [base contents | base dirs IH] using DirEntry_ind;
    intros name w.
  - cbn [walkDir filesUnder]. unfold walkFn. cbn [IsDir DirEntry_Name].
    destruct (strings_EqualFold base "draft.yaml") eqn:Hfold.
    + rewrite filter_cons_False; [done|].
      unfold isRendered. cbn [fst snd]. rewrite Hfold. exact id.
    + rewrite filter_cons_True
        by (unfold isRendered; cbn [fst snd]; rewrite Hfold; exact I).
      cbn. by destruct (writeTemplate template name contents w) as [w1 [err|]].
  - rewrite walkDir_Dir, filesUnder_Dir. cbn [walkFn IsDir].
    revert w. induction IH as [|d1 rest Hd1 _ IHrest]; intros w; [done|].
    unfold filesOfEntries. cbn [walkEntries fmap list_fmap concat].
    rewrite filter_app, writeAll_app, Hd1.
    destruct (writeAll template _ w) as [w1 [err|]]; [done|]. apply IHrest.
Qed.

(** The four ways through [writeTemplate]. *)
Lemma writeTemplate_read_error (t : Template) (path : string) (err : error)
    (w : writerState) :
  writeTemplate t path (Err err) w = (w, Some err).
Proof. done. Qed.

Lemma writeTemplate_parse_error (t : Template) (path text : string) (err : error)
    (w : writerState) :
  tmpl_Parse text = Err err →
  writeTemplate t path (Ok text) w = (w, Some err).
Proof. intros Hparse. cbn. by rewrite Hparse. Qed.

Lemma writeTemplate_execute_error (t : Template) (path text : string)
    (tmpl : parsedTemplate) (err : error) (w : writerState) :
  tmpl_Parse text = Ok tmpl →
  tmpl_Execute tmpl t = Err err →
  writeTemplate t path (Ok text) w = (w, Some err).
Proof. intros Hparse Hexec. cbn. by rewrite Hparse, Hexec. Qed.

Lemma writeTemplate_write (t : Template) (path text buf : string)
    (tmpl : parsedTemplate) (w : writerState) :
  tmpl_Parse text = Ok tmpl →
  tmpl_Execute tmpl t = Ok buf →
  writeTemplate t path (Ok text) w
  = WriteFile (dest t +:+ "/" +:+ filepath_Base path) buf w.
Proof. intros Hparse Hexec. cbn. by rewrite Hparse, Hexec. Qed.
End Walk.

(** ** The output path *)

Lemma append_String (c : ascii) (s t : string) : String c s +:+ t = String c (s +:+ t).
Proof. done. Qed.

Lemma append_empty (t : string) : "" +:+ t = t.
Proof. done. Qed.

Lemma hasSlash_app (s t : string) : hasSlash (s +:+ t) = hasSlash s || hasSlash t.
Proof.
  induction s as [|c s IH]; [done|].
  rewrite append_String. cbn. by rewrite IH, orb_assoc.
Qed.

Lemma stripTrailingSlashes_no_slash (s : string) :
  hasSlash s = false → stripTrailingSlashes s = s.
Proof.
  induction s as [|c s IH]; cbn; [done|].
  intros [Hc Hs]%orb_false_iff. rewrite IH by done. rewrite Hc. by destruct s.
Qed.

Lemma stripTrailingSlashes_app (pre s : string) :
  s ≠ "" → stripTrailingSlashes s = s →
  stripTrailingSlashes (pre +:+ s) = pre +:+ s.
Proof.
  intros Hne Hs. induction pre as [|c pre IH]; [done|].
  rewrite append_String. cbn. rewrite IH. destruct (pre +:+ s) eqn:Happ; [|done].
  destruct pre; [by rewrite append_empty in Happ | by rewrite append_String in Happ].
Qed.

Lemma afterLastSlash_no_slash (s : string) :
  hasSlash s = false → afterLastSlash s = s.
Proof.
  destruct s as [|c s]; cbn; [done|].
  intros [Hc Hs]%orb_false_iff. by rewrite Hs, Hc.
Qed.

Lemma afterLastSlash_app (pre s : string) :
  hasSlash s = false → afterLastSlash (pre +:+ String "/" s) = s.
Proof.
  intros Hs. induction pre as [|c pre IH].
  - rewrite append_empty. cbn. by rewrite Hs.
  - rewrite append_String. cbn [afterLastSlash].
    replace (hasSlash (pre +:+ String "/" s)) with true; [exact IH|].
    rewrite hasSlash_app. cbn. by rewrite orb_true_r.
Qed.

(** The base of the path of an entry is the name of the entry. *)
Lemma filepath_Base_Join (dir name : string) :
  name ≠ "" → hasSlash name = false →
  filepath_Base (path_Join dir name) = name.
Proof.
  intros Hne Hslash. unfold path_Join. case_decide as Hdir.
  - unfold filepath_Base. rewrite decide_False by done.
    rewrite stripTrailingSlashes_no_slash, afterLastSlash_no_slash by done.
    by rewrite decide_False.
  - unfold filepath_Base. change ("/" +:+ name) with (String "/" name).
    rewrite decide_False by (destruct dir; done).
    rewrite stripTrailingSlashes_app; [|done|].
    + rewrite afterLastSlash_app by done. by rewrite decide_False.
    + cbn. rewrite stripTrailingSlashes_no_slash by done. by destruct name.
Qed.

Section WalkTheorem.
Context `{!TemplateWriter, !TemplateEngine}.

Lemma generateTemplate_writeAll (template : Template) (fsys : fs_FS) (root : DirEntry)
    (w : writerState) :
  templateFiles template = Some fsys →
  fsys (src template) = Some root →
  generateTemplate template w
  = Some (writeAll template
            (filter (λ file, isRendered file) (filesUnder (src template) root)) w).
Proof.
  intros Hfs Hroot. unfold generateTemplate. rewrite Hfs. cbn. rewrite Hroot. cbn.
  by rewrite walkDir_writeAll.
Qed.

(** C10. The walk of [generateTemplate] renders, in its order and up to
    the first error, the files under the source root whose name is not
    that of the config file in any case of the letters; directories are
    no files. A file is read, parsed, executed and written to the
    destination joined with the base of its path, which is its name,
    whatever the directory it lies in; the first of these steps to fail
    gives the error, and when it is not the writer that fails the writer
    is left as it was. An error on a file ends the walk: the files after it
    are not looked at, and the writer is left as the files before it and
    the failing step have made it. *)
Theorem C10_walk_renders_files :
  (∀ template fsys root w,
      templateFiles template = Some fsys →
      fsys (src template) = Some root →
      generateTemplate template w
      = Some (writeAll template
                (filter (λ file, isRendered file) (filesUnder (src template) root)) w))
  ∧ (∀ (file : string * string * result string) (files : list (string * string * result string)),
        file ∈ filter (λ file, isRendered file) files
        ↔ file ∈ files ∧ foldString file.1.2 ≠ "draft.yaml")
  ∧ (∀ t path contents w,
        match contents with
        | Err err => writeTemplate t path contents w = (w, Some err)
        | Ok text =>
            match tmpl_Parse text with
            | Err err => writeTemplate t path contents w = (w, Some err)
            | Ok tmpl =>
                match tmpl_Execute tmpl t with
                | Err err => writeTemplate t path contents w = (w, Some err)
                | Ok buf =>
                    writeTemplate t path contents w
                    = WriteFile (dest t +:+ "/" +:+ filepath_Base path) buf w
                end
            end
        end)
  ∧ (∀ dir name,
        name ≠ "" → hasSlash name = false →
        filepath_Base (path_Join dir name) = name)
  ∧ (∀ template pre file post w w1 w2 err,
        writeAll template pre w = (w1, None) →
        writeTemplate template file.1.1 file.2 w1 = (w2, Some err) →
        writeAll template (pre ++ file :: post) w = (w2, Some err)).
Proof.
  split_and!.
  - apply generateTemplate_writeAll.
  - intros file files. rewrite list_elem_of_filter. unfold isRendered, strings_EqualFold.
    rewrite negb_True, bool_decide_spec. tauto.
  - intros t path [text|err] w; [|done]. cbn.
    destruct (tmpl_Parse text) as [tmpl|err]; [|done].
    by destruct (tmpl_Execute tmpl t).
  - apply filepath_Base_Join.
  - intros template pre file post w w1 w2 err Hpre Hfile.
    rewrite writeAll_app, Hpre. cbn. by rewrite Hfile.
Qed.
End WalkTheorem.

(** ** [Generate] walks twice (C2) *)

Section GenerateFacts.
Context `{!Semver, !TemplateWriter, !TemplateEngine}.

(** A call of [Generate] that returns nil has applied the defaults once
    and has rendered the files of the source root twice, one walk after
    the other. *)
Lemma Generate_success (fuel : nat) (t : Template) (t' : option Template)
    (w w' : writerState) :
  Generate fuel (Some t) w = Returns (t', w', None) →
  ∃ d d' fsys root w1,
    Config t = Some d
    ∧ ApplyDefaultVariablesForVersion fuel d (version t) = Some (d', None)
    ∧ t' = Some (withConfig t d')
    ∧ templateFiles t = Some fsys
    ∧ fsys (src t) = Some root
    ∧ writeAll (withConfig t d')
        (filter (λ file, isRendered file) (filesUnder (src t) root)) w = (w1, None)
    ∧ writeAll (withConfig t d')
        (filter (λ file, isRendered file) (filesUnder (src t) root)) w1 = (w', None).
Proof.
  unfold Generate. destruct (validate (Some t)); [done|].
  destruct (Config t) as [d|] eqn:Hd; [|done].
  destruct (ApplyDefaultVariablesForVersion fuel d (version t)) as [[d' [err|]]|] eqn:Happly;
    [done| |done].
  cbv zeta.
  destruct (templateFiles t) as [fsys|] eqn:Hfs.
  2:{ unfold generateTemplate. cbn. by rewrite Hfs. }
  destruct (fsys (src t)) as [root|] eqn:Hroot.
  2:{ unfold generateTemplate. cbn. rewrite Hfs. cbn. by rewrite Hroot. }
  rewrite (generateTemplate_writeAll (withConfig t d') fsys root) by done.
  cbn [src withConfig].
  set (files := filter (λ file, isRendered file) (filesUnder (src t) root)).
  destruct (writeAll (withConfig t d') files w) as [w1 [err|]] eqn:Hfirst; [done|].
  rewrite (generateTemplate_writeAll (withConfig t d') fsys root) by done.
  cbn [src withConfig]. fold files.
  destruct (writeAll (withConfig t d') files w1) as [w2 err] eqn:Hsecond.
  intros Heq. inversion Heq; subst. by exists d, d', fsys, root, w1.
Qed.
End GenerateFacts.

Lemma writeTemplate_recording `{!TemplateEngine} (t : Template) (path : string)
    (contents : result string) (w : list (string * string)) :
  @writeTemplate recordingWriter _ t path contents w
  = (w ++ (@writeTemplate recordingWriter _ t path contents []).1,
     (@writeTemplate recordingWriter _ t path contents []).2).
Proof.
  destruct contents as [text|err]; cbn; [|by rewrite app_nil_r].
  destruct (tmpl_Parse text) as [tmpl|err]; [|by rewrite app_nil_r].
  destruct (tmpl_Execute tmpl t); cbn; [done | by rewrite app_nil_r].
Qed.

Lemma writeAll_recording `{!TemplateEngine} (t : Template)
    (files : list (string * string * result string)) (w : list (string * string)) :
  @writeAll recordingWriter _ t files w
  = (w ++ (renderAll t files).1, (renderAll t files).2).
Proof.
  revert w. induction files as [|file rest IH]; intros w; cbn [writeAll renderAll].
  - by rewrite app_nil_r.
  - rewrite writeTemplate_recording.
    destruct (@writeTemplate recordingWriter _ t file.1.1 file.2 []) as [out [err|]];
      cbn [fst snd]; [done|].
    rewrite IH. destruct (renderAll t rest) as [outs oe]. cbn. by rewrite app_assoc.
Qed.

(** With the recording writer, a call of [Generate] that returns nil has
    given the writer every rendered file twice. *)
Lemma Generate_recording_twice `{!Semver, !TemplateEngine} (fuel : nat) (t : Template)
    (t' : option Template) (w w' : list (string * string)) :
  @Generate _ recordingWriter _ fuel (Some t) w = Returns (t', w', None) →
  ∃ outs, w' = w ++ outs ++ outs.
Proof.
  intros Hgen.
  destruct (@Generate_success _ recordingWriter _ _ _ _ _ _ Hgen)
    as (d & d' & fsys & root & w1 & _ & _ & _ & _ & _ & Hfirst & Hsecond).
  rewrite writeAll_recording in Hfirst, Hsecond.
  injection Hfirst as <- _. injection Hsecond as <- _.
  eexists. by rewrite <- app_assoc.
Qed.

(** C2, at the sample template (two files to render, and the config
    file): one call of [Generate] gives the recording writer each of the
    two files twice, and makes the writer that refuses a path it already
    holds fail on the second walk, after the first has written the two
    files. *)
Theorem C2_generate_renders_twice :
  writerAndError
    (@Generate sampleSemver recordingWriter sampleEngine 1 (Some sampleTemplate) [])
  = Returns ([ ("out/Dockerfile", "FROM gradle"); ("out/app.conf", "web");
               ("out/Dockerfile", "FROM gradle"); ("out/app.conf", "web") ], None)
  ∧ writerAndError
      (@Generate sampleSemver exclusiveWriter sampleEngine 1 (Some sampleTemplate) [])
    = Returns ([ ("out/Dockerfile", "FROM gradle"); ("out/app.conf", "web") ],
               Some (ErrorNew "file exists: out/Dockerfile")).
Proof. split; vm_compute; reflexivity. Qed.

(** ** The theorems at the sample inputs *)

(** The claim C1 as the specification words it has the chain
    A -> B -> C -> B pass the cycle check. It does not: the resolution of
    A ends with the cyclical-reference error. *)
Lemma C1_counterexample_ABCB :
  ApplyDefaultVariables 3 cfgABCB = Some (cfgABCB, Some (errApplyDefault errCyclical))
  ∧ ¬ (∀ fuel d' oe,
         ApplyDefaultVariables fuel cfgABCB = Some (d', oe) →
         oe ≠ Some (errApplyDefault errCyclical)).
Proof.
  assert (Hrun : ApplyDefaultVariables 3 cfgABCB
                 = Some (cfgABCB, Some (errApplyDefault errCyclical)))
    by (vm_compute; reflexivity).
  split; [exact Hrun|]. intros Hnot. by apply (Hnot _ _ _ Hrun).
Qed.

(** C1 at the sample configs A -> B -> A and A -> B -> C -> B. *)
Lemma C1_witness :
  resolveDefault 3 cfgABA 0 (referring "A" "B")
  = Some (cfgABA, Some (errApplyDefault errCyclical))
  ∧ resolveDefault 3 cfgABCB 0 (referring "A" "B")
    = Some (cfgABCB, Some (errApplyDefault errCyclical)).
Proof.
  destruct C1_cycle_check_against_first_reference as (_ & HABA & HABCB). split.
  - apply (HABA 3 cfgABA 0 (referring "A" "B") (referring "B" "A"));
      first [reflexivity | discriminate | lia].
  - apply (HABCB 3 cfgABCB 0 (referring "A" "B") (referring "B" "C") (referring "C" "B"));
      first [reflexivity | discriminate | lia].
Defined.

(** C3 at a text that is no version, at a version below the range of the
    config, and at the version 1.5.0 with a variable that applies from
    2.0.0 on. *)
Lemma C3_witness :
  @ApplyDefaultVariablesForVersion sampleSemver 1 cfgSkip "not-a-version"
  = Some (cfgSkip,
          Some (errInvalidVersion (ErrorNew "No Major.Minor.Patch elements found")))
  ∧ @ApplyDefaultVariablesForVersion sampleSemver 1 cfgSkip "0.0.0"
    = Some (cfgSkip, Some (errOutOfRange "0.0.0" ">=0.0.1"))
  ∧ @ApplyDefaultVariablesForVersion sampleSemver 1 cfgSkip "1.5.0"
    = Some (cfgSkip, None).
Proof.
  destruct (@C3_version_checks_and_skips sampleSemver) as (Hinvalid & Hrange & _ & Hskip).
  split_and!.
  - apply Hinvalid. vm_compute; reflexivity.
  - eapply (Hrange 1 cfgSkip "0.0.0"); vm_compute; reflexivity.
  - eapply (Hskip 1 cfgSkip "1.5.0"); [vm_compute; reflexivity.. |].
    intros [|[|i]] variable; cbn; intros [= <-].
    + right. eexists. split; vm_compute; reflexivity.
    + left. discriminate.
Defined.

(** C4 at a config with a name that is missing, a variable without a
    value, a value its validator rejects, a transformer that fails, and a
    value that passes. *)
Lemma C4_witness :
  @GetVariableValue sampleBuiltins cfgKinds "NONE" = Err (errNotFound "NONE")
  ∧ @GetVariableValue sampleBuiltins cfgKinds "EMPTY" = Err (errNoValue "EMPTY")
  ∧ @GetVariableValue sampleBuiltins cfgKinds "REPLICAS"
    = Err (errValidation (ErrorNew "not an integer: abc"))
  ∧ @GetVariableValue sampleBuiltins cfgKinds "IMAGE"
    = Err (errTransformation (ErrorNew "no image allowed"))
  ∧ @GetVariableValue sampleBuiltins cfgKinds "PORT" = Ok "8080".
Proof.
  destruct (@C4_get_variable_value sampleBuiltins) as (Hnone & Hfound & _ & _).
  split_and!.
  - apply Hnone. intros v Hv. cbn in Hv.
    repeat (apply elem_of_cons in Hv as [-> | Hv]; [discriminate|]).
    by apply elem_of_nil in Hv.
  - apply (Hfound cfgKinds "EMPTY" [valued "REPLICAS" "int" "abc"; valued "PORT" "int" "8080"]
             (inlined "EMPTY" "later") [valued "IMAGE" "strict" "web"]);
      [reflexivity | | reflexivity..].
    intros w Hw. repeat (apply elem_of_cons in Hw as [-> | Hw]; [discriminate|]).
    by apply elem_of_nil in Hw.
  - apply (Hfound cfgKinds "REPLICAS" [] (valued "REPLICAS" "int" "abc")
             [valued "PORT" "int" "8080"; inlined "EMPTY" "later"; valued "IMAGE" "strict" "web"]);
      [reflexivity | | reflexivity | discriminate | vm_compute; reflexivity].
    intros w Hw. by apply elem_of_nil in Hw.
  - apply (Hfound cfgKinds "IMAGE"
             [valued "REPLICAS" "int" "abc"; valued "PORT" "int" "8080"; inlined "EMPTY" "later"]
             (valued "IMAGE" "strict" "web") []);
      [reflexivity | | reflexivity | discriminate | vm_compute; reflexivity..].
    intros w Hw. repeat (apply elem_of_cons in Hw as [-> | Hw]; [discriminate|]).
    by apply elem_of_nil in Hw.
  - apply (Hfound cfgKinds "PORT" [valued "REPLICAS" "int" "abc"] (valued "PORT" "int" "8080")
             [inlined "EMPTY" "later"; valued "IMAGE" "strict" "web"]);
      [reflexivity | | reflexivity | discriminate | vm_compute; reflexivity..].
    intros w Hw. repeat (apply elem_of_cons in Hw as [-> | Hw]; [discriminate|]).
    by apply elem_of_nil in Hw.
Defined.

(** C5 at the sample chain, at a variable with no default at all, and at
    a chain whose third variable has a value. *)
Lemma C5_witness :
  ApplyDefaultVariables 2 cfgChain
  = Some (withVariables cfgChain
            [withValue (referring "A" "B") "x"; withValue (referring "B" "C") "x";
             withValue (inlined "C" "x") "x"], None)
  ∧ ApplyDefaultVariables 0 cfgSkip = Some (cfgSkip, Some (errNoDefault "NEW"))
  ∧ ∃ d' oe, ApplyDefaultVariables 2 cfgValued = Some (d', oe)
             ∧ Variables d' !! 0 = Some (withValue (referring "A" "B") "v").
Proof.
  destruct C5_chain_then_inline_default as (Hvalue & Hchain & _ & _ & Hfirst). split_and!.
  - apply (Hchain 2 cfgChain (referring "A" "B") (referring "B" "C") (inlined "C" "x") "x");
      first [reflexivity | discriminate | lia].
  - apply (Hfirst 0 cfgSkip 0
             (mkBuilderVar "NEW" zeroConditionalRef zeroDefault "" [] "string" "" "" ">=2.0.0"));
      [reflexivity | reflexivity | | by left | reflexivity].
    intros j w Hj. lia.
  - destruct (ApplyDefaultVariables 2 cfgValued) as [[d' oe]|] eqn:Hrun; [|discriminate].
    exists d', oe. split; [reflexivity|].
    assert (Hwalk : follows cfgValued (referring "B" "C") (referring "B" "C")
                      (mkBuilderVar "C" zeroConditionalRef (mkBuilderVarDefault false "D" "")
                         "" [] "string" "" "v" ">=0.0.1") 1).
    { apply (follows_hop _ _ _
               (mkBuilderVar "C" zeroConditionalRef (mkBuilderVarDefault false "D" "")
                  "" [] "string" "" "v" ">=0.0.1"));
        [split_and!; first [reflexivity | discriminate] | discriminate | apply follows_here]. }
    destruct (Hvalue 2 cfgValued 0 (referring "A" "B") (referring "B" "C")
                (mkBuilderVar "C" zeroConditionalRef (mkBuilderVarDefault false "D" "")
                   "" [] "string" "" "v" ">=0.0.1") 1) as [_ Happly];
      [discriminate | reflexivity | exact Hwalk | discriminate | lia |].
    apply (Happly eq_refl eq_refl) with (oe := oe); [|exact Hrun].
    intros j w Hj. lia.
Defined.

(** C7 at the sample store: a value set on the copy, and one set on the
    original. *)
Lemma C7_witness :
  ∃ c h1,
    DeepCopy sampleStore cfgStore = Some (c, h1)
    ∧ (∃ c' h2, SetVariableP h1 c "APP" "api" = Some (c', h2)
                ∧ readConfig h2 cfgStore = readConfig sampleStore cfgStore)
    ∧ (∃ d' h2, SetVariableP h1 cfgStore "APP" "api" = Some (d', h2)
                ∧ readConfig h2 c = readConfig h1 c).
Proof.
  eexists _, _. split; [reflexivity|].
  assert (Halloc : allocated sampleStore cfgStore)
    by (repeat constructor; cbn; lia).
  destruct (C7_deep_copy_shares_no_variable sampleStore _ cfgStore _ Halloc eq_refl)
    as (_ & _ & Hcopy & Horig).
  split.
  - destruct (Hcopy "APP" "api") as (c' & h2 & Hset & _ & Hread). by exists c', h2.
  - destruct (Horig "APP" "api") as (d' & h2 & Hset & _ & Hread). by exists d', h2.
Defined.

(** C8 at the sample store. *)
Lemma C8_witness :
  ∃ c h',
    DeepCopy sampleStore cfgStore = Some (c, h')
    ∧ Validators c = ∅
    ∧ Transformers c = ∅
    ∧ length (Variables c) = length (Variables cfgStore).
Proof.
  assert (Halloc : allocated sampleStore cfgStore)
    by (repeat constructor; cbn; lia).
  destruct (C8_deep_copy_contents sampleStore cfgStore Halloc)
    as (c & h' & Hcopy & Hval & Htr & _ & Hlen & _).
  by exists c, h'.
Defined.

(** C9 at a config with an inline default only. *)
Lemma C9_witness :
  ∃ d',
    ApplyDefaultVariables 0 cfgInline = Some (d', None)
    ∧ Variables d' !! 0 = Some (withValue (inlined "PORT" "80") "80")
    ∧ ApplyDefaultVariables 0 d' = Some (d', None).
Proof.
  destruct (@C9_apply_defaults_idempotent sampleSemver) as (_ & _ & _ & _ & _ & Hinline & _).
  eexists. split; [reflexivity|].
  apply (Hinline 0 0 cfgInline _ 0 (inlined "PORT" "80"));
    first [reflexivity | discriminate].
Defined.

(** C10 at a tree whose second file cannot be read: the first file is
    written, the third is not looked at. *)
Lemma C10_witness :
  @generateTemplate recordingWriter sampleEngine brokenTemplate []
  = Some ([("out/Dockerfile", "FROM gradle")], Some (ErrorNew "permission denied")).
Proof.
  destruct (@C10_walk_renders_files recordingWriter sampleEngine)
    as (Hwalk & _ & _ & _ & Habort).
  rewrite (Hwalk brokenTemplate (λ _, Some brokenTree) brokenTree) by reflexivity.
  refine (f_equal Some _).
  apply (Habort brokenTemplate
           [("dockerfiles/gradle/Dockerfile", "Dockerfile", Ok "FROM gradle")]
           ("dockerfiles/gradle/LICENSE", "LICENSE", Err (ErrorNew "permission denied"))
           [("dockerfiles/gradle/conf/app.conf", "app.conf", Ok "$APP")]
           [] [("out/Dockerfile", "FROM gradle")]);
    reflexivity.
Defined.

(* ===================================================================== *)
(** * Part VIII: further properties of the source *)
(* ===================================================================== *)

(** ** [GetVariable] and [SetVariable] *)

Lemma findVariable_split (vars : list BuilderVar) (name : string) (v : BuilderVar) :
  findVariable vars name = Some v
  ↔ ∃ pre post, vars = pre ++ v :: post ∧ Name v = name
                ∧ ∀ w, w ∈ pre → Name w ≠ name.
Proof.
  split.
  - induction vars as [|w vars IH]; cbn; [done|]. case_decide as Hw.
    + intros [= <-]. exists [], vars. split_and!; [done..|].
      intros u Hu. by apply elem_of_nil in Hu.
    + intros Hfind. destruct (IH Hfind) as (pre & post & -> & Hname & Hpre).
      exists (w :: pre), post. split_and!; [done..|].
      intros u [-> | Hu]%elem_of_cons; [done | by apply Hpre].
  - intros (pre & post & -> & <- & Hpre). by apply findVariable_first.
Qed.

Lemma setFirst_split (pre post : list BuilderVar) (v : BuilderVar) (value : string) :
  (∀ w, w ∈ pre → Name w ≠ Name v) →
  setFirst (pre ++ v :: post) (Name v) value = Some (pre ++ withValue v value :: post).
Proof.
  intros Hpre. induction pre as [|w pre IH]; cbn.
  - by rewrite decide_True.
  - rewrite decide_False by (apply Hpre, list_elem_of_here).
    rewrite IH; [done|]. intros u Hu. apply Hpre. by apply list_elem_of_further.
Qed.

(** X1. [GetVariable] returns the first variable that bears the name, and
    the not-found error exactly when no variable bears it. *)
Theorem X1_GetVariable_first_match (d : DraftConfig) (name : string) :
  (∀ v, GetVariable d name = Ok v
        ↔ ∃ pre post, Variables d = pre ++ v :: post ∧ Name v = name
                      ∧ ∀ w, w ∈ pre → Name w ≠ name)
  ∧ (∀ err, GetVariable d name = Err err
            ↔ err = errNotFound name ∧ ∀ v, v ∈ Variables d → Name v ≠ name).
Proof.
  unfold GetVariable. split.
  - intros v. rewrite <- findVariable_split.
    destruct (findVariable (Variables d) name); split; congruence.
  - intros err. rewrite <- findVariable_None.
    destruct (findVariable (Variables d) name); split; [done | by intros [] | |].
    + by intros [= <-].
    + by intros [-> _].
Qed.

(** The variables after [SetVariable], by whether the name was there. *)
Lemma SetVariable_found (d : DraftConfig) (name value : string)
    (pre post : list BuilderVar) (v : BuilderVar) :
  Variables d = pre ++ v :: post →
  Name v = name →
  (∀ w, w ∈ pre → Name w ≠ name) →
  SetVariable d name value = withVariables d (pre ++ withValue v value :: post).
Proof.
  intros Hvars <- Hpre. unfold SetVariable. by rewrite Hvars, setFirst_split.
Qed.

Lemma SetVariable_new (d : DraftConfig) (name value : string) :
  findVariable (Variables d) name = None →
  SetVariable d name value = withVariables d (Variables d ++ [newBuilderVar name value]).
Proof. intros Hnone. unfold SetVariable. by rewrite setFirst_None. Qed.

(** The entry that bears the name after [SetVariable]. *)
Lemma SetVariable_find (d : DraftConfig) (name value : string) :
  findVariable (Variables (SetVariable d name value)) name
  = Some match findVariable (Variables d) name with
         | Some v => withValue v value
         | None => newBuilderVar name value
         end.
Proof.
  destruct (findVariable (Variables d) name) as [v|] eqn:Hfind.
  - apply findVariable_split in Hfind as (pre & post & Hvars & Hname & Hpre).
    rewrite (SetVariable_found _ _ _ pre post v) by done. subst name.
    by apply (findVariable_first pre post (withValue v value)).
  - rewrite SetVariable_new by done. cbn [Variables withVariables].
    apply findVariable_split. exists (Variables d), []. split_and!; [done..|].
    by apply findVariable_None.
Qed.

Lemma SetVariable_find_ne (d : DraftConfig) (name value other : string) :
  other ≠ name →
  findVariable (Variables (SetVariable d name value)) other
  = findVariable (Variables d) other.
Proof.
  intros Hne.
  assert (Hstep : ∀ vars vars', setFirst vars name value = Some vars' →
            findVariable vars' other = findVariable vars other).
  { induction vars as [|w vars IH]; intros vars'; cbn; [done|]. case_decide as Hw.
    - intros [= <-]. cbn. rewrite !decide_False by congruence. done.
    - destruct (setFirst vars name value) as [vars0|]; cbn; [|done].
      intros [= <-]. cbn. case_decide; [done|]. by apply IH. }
  unfold SetVariable. destruct (setFirst (Variables d) name value) as [vars'|] eqn:Hset.
  - by apply Hstep.
  - cbn [Variables withVariables].
    induction (Variables d) as [|w vars IH]; cbn.
    + by rewrite decide_False by (cbn; congruence).
    + cbn in Hset. case_decide as Hw; [done|].
      destruct (setFirst vars name value); [done|]. case_decide; [done|]. by apply IH.
Qed.

(** X2. A value that [SetVariable] has set is the value of the variable
    that [GetVariable] returns for the name, and the lookups of the other
    names are what they were. *)
Theorem X2_SetVariable_GetVariable (d : DraftConfig) (name value : string) :
  (∃ v, GetVariable (SetVariable d name value) name = Ok v ∧ Value v = value)
  ∧ (∀ other, other ≠ name →
              GetVariable (SetVariable d name value) other = GetVariable d other).
Proof.
  split.
  - unfold GetVariable. rewrite SetVariable_find. eexists. split; [done|].
    by destruct (findVariable (Variables d) name).
  - intros other Hne. unfold GetVariable. by rewrite SetVariable_find_ne.
Qed.

(** X3. [SetVariable] changes nothing of the config but its variables;
    when a variable bears the name, the first such takes the value and
    every entry keeps its place and its other fields, and otherwise one
    entry with the name, the value and nothing else is appended; of two
    calls for one name the later one decides. *)
Theorem X3_SetVariable_upsert (d : DraftConfig) (name value : string) :
  withVariables (SetVariable d name value) (Variables d) = d
  ∧ match GetVariable d name with
    | Ok v =>
        ∃ pre post,
          Variables d = pre ++ v :: post
          ∧ (∀ w, w ∈ pre → Name w ≠ name)
          ∧ Variables (SetVariable d name value) = pre ++ withValue v value :: post
    | Err _ =>
        Variables (SetVariable d name value) = Variables d ++ [newBuilderVar name value]
    end
  ∧ (∀ value', SetVariable (SetVariable d name value) name value'
               = SetVariable d name value').
Proof.
  split_and!.
  - unfold SetVariable. destruct (setFirst _ _ _); by destruct d.
  - unfold GetVariable. destruct (findVariable (Variables d) name) as [v|] eqn:Hfind.
    + apply findVariable_split in Hfind as (pre & post & Hvars & Hname & Hpre).
      exists pre, post. split_and!; [done..|].
      by rewrite (SetVariable_found _ _ _ pre post v).
    + by rewrite SetVariable_new.
  - intros value'. destruct (findVariable (Variables d) name) as [v|] eqn:Hfind.
    + apply findVariable_split in Hfind as (pre & post & Hvars & Hname & Hpre).
      rewrite !(SetVariable_found d _ _ pre post v) by done.
      by rewrite (SetVariable_found _ _ _ pre post (withValue v value)).
    + rewrite !(SetVariable_new d) by done.
      rewrite (SetVariable_found _ _ _ (Variables d) [] (newBuilderVar name value));
        [| done | done | by apply findVariable_None].
      done.
Qed.

Section ReadAfterWrite.
Context `{!Builtins}.

(** X4. [SetVariable] takes any value; it is the read that judges it.
    [GetVariableValue] after [SetVariable] returns the no-value error for
    the empty value, and otherwise what the validator and the transformer
    make of the value, for the kind of the variable that was there, or for
    the empty kind of a new variable. *)
Theorem X4_SetVariable_then_GetVariableValue (d : DraftConfig) (name value : string) :
  GetVariableValue (SetVariable d name value) name =
  let kind := match GetVariable d name with Ok v => Kind v | Err _ => "" end in
  if decide (value = "") then Err (errNoValue name)
  else
    match GetVariableValidator d kind value with
    | Some err => Err (errValidation err)
    | None =>
        match GetVariableTransformer d kind value with
        | Err err => Err (errTransformation err)
        | Ok response => Ok response
        end
    end.
Proof.
  unfold GetVariableValue. rewrite getVariableValueFrom_findVariable, SetVariable_find.
  assert (Hmaps : ∀ kind, GetVariableValidator (SetVariable d name value) kind
                          = GetVariableValidator d kind
                          ∧ GetVariableTransformer (SetVariable d name value) kind
                            = GetVariableTransformer d kind).
  { intros kind. unfold SetVariable. by destruct (setFirst _ _ _). }
  unfold GetVariable. cbv zeta.
  destruct (findVariable (Variables d) name) as [v|]; cbn [Value Kind withValue newBuilderVar];
    destruct (decide (value = "")); try done;
    by rewrite (proj1 (Hmaps _)), (proj2 (Hmaps _)).
Qed.
End ReadAfterWrite.

(** ** The maps of values and of examples *)

Lemma filter_nil_Forall {A : Type} (P : A → Prop) `{!∀ x, Decision (P x)} (l : list A) :
  filter P l = [] ↔ Forall (λ x, ¬ P x) l.
Proof.
  induction l as [|x l IH]; [by split|].
  destruct (decide (P x)) as [HP|HP].
  - rewrite filter_cons_True by done. split; [done|]. by intros [? _]%Forall_cons.
  - rewrite filter_cons_False by done. rewrite IH, Forall_cons. tauto.
Qed.

Lemma GetVariableMap_fold (vars : list BuilderVar) (m : gmap string string) (name : string) :
  foldl (λ variableMap variable, <[Name variable := Value variable]> variableMap) m vars
    !! name
  = match last (filter (λ v, Name v = name) vars) with
    | Some v => Some (Value v)
    | None => m !! name
    end.
Proof.
  revert m. induction vars as [|v vars IH]; intros m; cbn [foldl]; [done|].
  rewrite IH. destruct (decide (Name v = name)) as [Hv|Hv].
  - rewrite filter_cons_True by done. rewrite last_cons.
    destruct (last (filter _ vars)); [done|]. by rewrite Hv, lookup_insert_eq.
  - rewrite filter_cons_False by done.
    destruct (last (filter _ vars)); [done|]. by rewrite lookup_insert_ne.
Qed.

(** Under names that are unique, the last variable of a name is the
    first. *)
Lemma last_filter_unique (vars : list BuilderVar) (name : string) :
  NoDup (Name <$> vars) →
  last (filter (λ v, Name v = name) vars) = findVariable vars name.
Proof.
  induction vars as [|v vars IH]; cbn [fmap list_fmap findVariable]; [done|].
  intros [Hnotin Hnodup]%NoDup_cons. destruct (decide (Name v = name)) as [Hv|Hv].
  - rewrite filter_cons_True by done.
    replace (filter (λ v0, Name v0 = name) vars) with (@nil BuilderVar); [done|].
    symmetry. apply filter_nil_Forall, Forall_forall. intros w Hw Hname. apply Hnotin.
    rewrite Hv, <- Hname. by apply list_elem_of_fmap_2.
  - rewrite filter_cons_False by done. by apply IH.
Qed.

(** X5. [GetVariableMap] maps a name to the raw value of the last
    variable that bears it, and holds no other key; so with names that
    are unique it agrees with [GetVariable], which returns the first. *)
Theorem X5_GetVariableMap_lookup (d : DraftConfig) (name : string) :
  GetVariableMap d !! name = Value <$> last (filter (λ v, Name v = name) (Variables d))
  ∧ (GetVariableMap d !! name = None ↔ ∀ v, v ∈ Variables d → Name v ≠ name)
  ∧ (NoDup (Name <$> Variables d) →
     GetVariableMap d !! name
     = match GetVariable d name with Ok v => Some (Value v) | Err _ => None end).
Proof.
  assert (Hlookup : GetVariableMap d !! name
                    = Value <$> last (filter (λ v, Name v = name) (Variables d))).
  { unfold GetVariableMap. rewrite GetVariableMap_fold.
    by destruct (last (filter _ (Variables d))). }
  split_and!; [done | |].
  - rewrite Hlookup, fmap_None, last_None, filter_nil_Forall, Forall_forall. done.
  - intros Hnodup. rewrite Hlookup, last_filter_unique by done.
    unfold GetVariable. by destruct (findVariable (Variables d) name).
Qed.

Lemma GetVariableExampleValues_fold (vars : list BuilderVar)
    (m : gmap string (list string)) (name : string) :
  foldl (λ m variable,
           if decide (0 < length (ExampleValues variable))
           then <[Name variable := ExampleValues variable]> m else m) m vars !! name
  = match last (filter (λ v, Name v = name ∧ 0 < length (ExampleValues v)) vars) with
    | Some v => Some (ExampleValues v)
    | None => m !! name
    end.
Proof.
  revert m. induction vars as [|v vars IH]; intros m; cbn [foldl]; [done|].
  rewrite IH. destruct (decide (Name v = name ∧ 0 < length (ExampleValues v))) as [[Hv Hex]|Hv].
  - rewrite filter_cons_True by done. rewrite last_cons.
    destruct (last (filter _ vars)); [done|].
    rewrite decide_True by done. by rewrite Hv, lookup_insert_eq.
  - rewrite filter_cons_False by done.
    destruct (last (filter _ vars)); [done|].
    case_decide as Hex; [|done]. apply lookup_insert_ne. intros Hname. by apply Hv.
Qed.

(** X6. [GetVariableExampleValues] maps a name to the examples of the last
    variable that bears it and has an example; it never maps a name to
    the empty list, and holds a name exactly when a variable of that name
    has an example. *)
Theorem X6_GetVariableExampleValues_lookup (d : DraftConfig) (name : string) :
  GetVariableExampleValues d !! name
  = ExampleValues
      <$> last (filter (λ v, Name v = name ∧ 0 < length (ExampleValues v)) (Variables d))
  ∧ GetVariableExampleValues d !! name ≠ Some []
  ∧ (is_Some (GetVariableExampleValues d !! name)
     ↔ ∃ v, v ∈ Variables d ∧ Name v = name ∧ ExampleValues v ≠ []).
Proof.
  assert (Hlookup : GetVariableExampleValues d !! name
    = ExampleValues
        <$> last (filter (λ v, Name v = name ∧ 0 < length (ExampleValues v)) (Variables d))).
  { unfold GetVariableExampleValues. rewrite GetVariableExampleValues_fold.
    by destruct (last (filter _ (Variables d))). }
  split_and!; [done | |].
  - rewrite Hlookup. destruct (last _) as [v|] eqn:Hlast; [|done]. cbn.
    apply last_Some_elem_of, list_elem_of_filter in Hlast as [[_ Hex] _].
    intros [= Hnil]. rewrite Hnil in Hex. cbn in Hex. lia.
  - rewrite Hlookup, fmap_is_Some. split.
    + intros [v Hlast]. apply last_Some_elem_of, list_elem_of_filter in Hlast as [[Hv Hex] Hin].
      exists v. split_and!; [done..|]. intros Hnil. rewrite Hnil in Hex. cbn in Hex. lia.
    + intros (v & Hin & Hv & Hex).
      destruct (last (filter _ (Variables d))) as [u|] eqn:Hlast; [done|].
      apply last_None in Hlast.
      assert (Hmem : v ∈ filter (λ v, Name v = name ∧ 0 < length (ExampleValues v))
                         (Variables d)).
      { apply list_elem_of_filter. split_and!; [done | | done].
        destruct (ExampleValues v); [done | cbn; lia]. }
      rewrite Hlast in Hmem. by apply elem_of_nil in Hmem.
Qed.

(** ** The registry of validators and transformers *)

Section RegistryFacts.
Context `{!Builtins}.

(** X7. A validator registered for a kind is the validator of that kind,
    before the built-in one, and of no other kind; it leaves the
    transformers and the variables as they are (and likewise for a
    transformer). A read of a variable of the kind goes through the
    registered validator, and a read of a variable of another kind is
    what it was. *)
Theorem X7_registered_overrides (d : DraftConfig) (kind : string)
    (validator : VariableValidator) (transformer : VariableTransformer) :
  (∀ kind', GetVariableValidator (SetVariableValidator d kind validator) kind'
            = if decide (kind = kind') then validator else GetVariableValidator d kind')
  ∧ (∀ kind', GetVariableTransformer (SetVariableValidator d kind validator) kind'
              = GetVariableTransformer d kind')
  ∧ (∀ kind', GetVariableTransformer (SetVariableTransformer d kind transformer) kind'
              = if decide (kind = kind') then transformer else GetVariableTransformer d kind')
  ∧ (∀ kind', GetVariableValidator (SetVariableTransformer d kind transformer) kind'
              = GetVariableValidator d kind')
  ∧ Variables (SetVariableValidator d kind validator) = Variables d
  ∧ Variables (SetVariableTransformer d kind transformer) = Variables d
  ∧ (∀ name v,
        GetVariable d name = Ok v → Kind v = kind → Value v ≠ "" →
        GetVariableValue (SetVariableValidator d kind validator) name
        = match validator (Value v) with
          | Some err => Err (errValidation err)
          | None =>
              match GetVariableTransformer d kind (Value v) with
              | Err err => Err (errTransformation err)
              | Ok response => Ok response
              end
          end)
  ∧ (∀ name v,
        GetVariable d name = Ok v → Kind v ≠ kind →
        GetVariableValue (SetVariableValidator d kind validator) name
        = GetVariableValue d name).
Proof.
  assert (Hval : ∀ kind', GetVariableValidator (SetVariableValidator d kind validator) kind'
            = if decide (kind = kind') then validator else GetVariableValidator d kind').
  { intros kind'. unfold GetVariableValidator. cbn [Validators SetVariableValidator].
    rewrite lookup_insert. by case_decide. }
  assert (Htr : ∀ kind', GetVariableTransformer (SetVariableValidator d kind validator) kind'
            = GetVariableTransformer d kind') by done.
  split_and!; [done | done | | done | done | done | |].
  - intros kind'. unfold GetVariableTransformer. cbn [Transformers SetVariableTransformer].
    rewrite lookup_insert. by case_decide.
  - intros name v Hget Hkind Hvalue. unfold GetVariable in Hget.
    destruct (findVariable (Variables d) name) as [u|] eqn:Hfind; [|done].
    injection Hget as ->. unfold GetVariableValue.
    rewrite getVariableValueFrom_findVariable. cbn [Variables SetVariableValidator].
    rewrite Hfind, decide_False by done.
    by rewrite Hval, Htr, Hkind, decide_True.
  - intros name v Hget Hkind. unfold GetVariable in Hget.
    destruct (findVariable (Variables d) name) as [u|] eqn:Hfind; [|done].
    injection Hget as ->. unfold GetVariableValue.
    rewrite !getVariableValueFrom_findVariable. cbn [Variables SetVariableValidator].
    rewrite Hfind, Hval, Htr.
    by rewrite (decide_False (P := kind = Kind v)) by done.
Qed.
End RegistryFacts.

(** ** [VariableMapToDraftConfig] *)

(** The lookups after the flags have been set, for an enumeration of the
    flags that has each key once. *)
Lemma VariableMapToDraftConfig_find (order : list (string * string)) (d : DraftConfig)
    (name : string) :
  NoDup order.*1 →
  findVariable (Variables (VariableMapToDraftConfig d order)) name
  = match (list_to_map order : gmap string string) !! name with
    | Some value =>
        Some match findVariable (Variables d) name with
             | Some v => withValue v value
             | None => newBuilderVar name value
             end
    | None => findVariable (Variables d) name
    end.
Proof.
  revert d. induction order as [|[flagName flagValue] order IH]; intros d; [done|].
  cbn [fmap list_fmap fst]. intros [Hnotin Hnodup]%NoDup_cons.
  unfold VariableMapToDraftConfig. cbn [foldl fst snd list_to_map foldr].
  fold (VariableMapToDraftConfig (SetVariable d flagName flagValue) order).
  rewrite IH by done. destruct (decide (flagName = name)) as [->|Hne].
  - rewrite lookup_insert_eq.
    rewrite (not_elem_of_list_to_map_1 order name) by done.
    apply SetVariable_find.
  - rewrite lookup_insert_ne by done.
    by rewrite SetVariable_find_ne by done.
Qed.

(** An entry of the config is still at its index after [SetVariable],
    with at most another value. *)
Lemma SetVariable_lookup (d : DraftConfig) (name value : string) (i : nat) (u : BuilderVar) :
  Variables d !! i = Some u →
  ∃ s, Variables (SetVariable d name value) !! i = Some (withValue u s).
Proof.
  intros Hi. destruct (findVariable (Variables d) name) as [v|] eqn:Hfind.
  - apply findVariable_split in Hfind as (pre & post & Hvars & Hname & Hpre).
    rewrite (SetVariable_found _ _ _ pre post v) by done. cbn [Variables withVariables].
    rewrite Hvars in Hi. destruct (decide (i = length pre)) as [->|Hne].
    + rewrite list_lookup_middle in Hi |- * by done. injection Hi as <-. by exists value.
    + exists (Value u). rewrite withValue_Value, <- Hi.
      destruct (decide (i < length pre)).
      * by rewrite !lookup_app_l by done.
      * rewrite !lookup_app_r by lia.
        destruct (i - length pre) as [|j] eqn:Hj; [lia | done].
  - rewrite SetVariable_new by done. cbn [Variables withVariables].
    exists (Value u). rewrite withValue_Value. by apply lookup_app_l_Some.
Qed.

Lemma VariableMapToDraftConfig_lookup (order : list (string * string)) (d : DraftConfig)
    (i : nat) (u : BuilderVar) :
  Variables d !! i = Some u →
  ∃ s, Variables (VariableMapToDraftConfig d order) !! i = Some (withValue u s).
Proof.
  revert d u. induction order as [|[flagName flagValue] order IH]; intros d u Hi.
  - exists (Value u). by rewrite withValue_Value.
  - unfold VariableMapToDraftConfig. cbn [foldl fst snd].
    fold (VariableMapToDraftConfig (SetVariable d flagName flagValue) order).
    destruct (SetVariable_lookup d flagName flagValue i u Hi) as [s Hs].
    destruct (IH _ _ Hs) as [s' Hs']. exists s'. by rewrite Hs'.
Qed.

(** X8. Whatever the order in which Go ranges over the map of flags:
    afterwards the lookup of a name that is a flag returns the variable
    that was there, or a new one, with the value of the flag; the lookup
    of any other name is what it was; and every variable of the config is
    still at its index, with at most another value. *)
Theorem X8_VariableMapToDraftConfig (d : DraftConfig) (flagVariablesMap : gmap string string)
    (order : list (string * string)) :
  order ≡ₚ map_to_list flagVariablesMap →
  (∀ name,
      GetVariable (VariableMapToDraftConfig d order) name
      = match flagVariablesMap !! name with
        | Some value =>
            Ok match GetVariable d name with
               | Ok v => withValue v value
               | Err _ => newBuilderVar name value
               end
        | None => GetVariable d name
        end)
  ∧ (∀ i u, Variables d !! i = Some u →
            ∃ s, Variables (VariableMapToDraftConfig d order) !! i = Some (withValue u s)).
Proof.
  intros Horder.
  assert (Hnodup : NoDup order.*1).
  { rewrite Horder. apply NoDup_fst_map_to_list. }
  assert (Hmap : (list_to_map order : gmap string string) = flagVariablesMap).
  { rewrite (list_to_map_proper order (map_to_list flagVariablesMap)) by done.
    apply list_to_map_to_list. }
  split.
  - intros name. unfold GetVariable at 1.
    rewrite VariableMapToDraftConfig_find, Hmap by done. unfold GetVariable.
    destruct (flagVariablesMap !! name); by destruct (findVariable (Variables d) name).
  - intros i u. apply VariableMapToDraftConfig_lookup.
Qed.

(** ** The loop at its first unset variable, and at its first error *)

Section LoopFirst.
Variable body : DraftConfig → nat → BuilderVar → option outcome.

(** A loop that does nothing on the entries before [i] is the body at
    [i] followed by the loop on the entries after [i]. *)
Lemma rangeVariables_from (i : nat) (d : DraftConfig) (variable : BuilderVar) :
  Variables d !! i = Some variable →
  (∀ j w, j < i → Variables d !! j = Some w → body d j w = Some (d, None)) →
  rangeVariables body (length (Variables d)) 0 d =
  match body d i variable with
  | Some (d1, None) => rangeVariables body (length (Variables d) - S i) (S i) d1
  | r => r
  end.
Proof.
  intros Hi Hbefore.
  pose proof (proj1 (lookup_lt_is_Some _ _) (mk_is_Some _ _ Hi)) as Hlen.
  replace (length (Variables d)) with (i + S (length (Variables d) - S i)) at 1 by lia.
  rewrite rangeVariables_split, rangeVariables_noop.
  - cbn [rangeVariables Nat.add]. rewrite Hi.
    by destruct (body d i variable) as [[d1 [err|]]|].
  - intros j w Hj Hw. apply Hbefore; [lia | done].
Qed.

(** A loop that ends with an error has run without error up to an entry,
    on which the body has returned the error. *)
Lemma rangeVariables_failed (n k : nat) (d d' : DraftConfig) (err : error) :
  rangeVariables body n k d = Some (d', Some err) →
  ∃ i d1 variable,
    k ≤ i < k + n
    ∧ rangeVariables body (i - k) k d = Some (d1, None)
    ∧ Variables d1 !! i = Some variable
    ∧ body d1 i variable = Some (d', Some err).
Proof.
  revert k d. induction n as [|n IH]; intros k d; cbn; [done|].
  destruct (Variables d !! k) as [variable|] eqn:Hk; [|done].
  destruct (body d k variable) as [[d1 [err1|]]|] eqn:Hbody; [| |done].
  - intros [= <- <-]. exists k, d, variable. rewrite Nat.sub_diag.
    split_and!; [lia.. | done | done | done].
  - intros Hrest. destruct (IH _ _ Hrest) as (i & d2 & w & Hi & Hpre & Hw & Hfail).
    exists i, d2, w. split_and!; [lia.. | | done | done].
    replace (i - k) with (S (i - S k)) by lia. cbn. by rewrite Hk, Hbody.
Qed.
End LoopFirst.

(** An iteration of either entry point that returns an error leaves the
    config as it was. *)
Lemma resolveDefault_error (fuel : nat) (d d' : DraftConfig) (i : nat)
    (variable : BuilderVar) (err : error) :
  Variables d !! i = Some variable →
  Value variable = "" →
  resolveDefault fuel d i variable = Some (d', Some err) →
  d' = d.
Proof.
  intros Hi Hv. unfold resolveDefault.
  assert (Hinline : inlineDefault d i variable = (d', Some err) → d' = d).
  { unfold inlineDefault. rewrite decide_True by done. case_decide; [done|]. by intros [= <-]. }
  case_decide as Href; [|intros [= H]; by apply Hinline].
  destruct (GetVariable d _) as [referenceVar|e]; [|by intros [= <-]].
  destruct (recurseReferenceVars _ _ _ _ _) as [[defaultVal|e]|]; [|by intros [= <-]|done].
  destruct (decide (defaultVal = "")) as [->|Hdv].
  - rewrite <- Hv at 1 2. rewrite setVariableValue_same, withValue_Value by done.
    intros [= H]. by apply Hinline.
  - by rewrite inlineDefault_valued.
Qed.

Lemma applyDefaultBody_error (fuel : nat) (d d' : DraftConfig) (i : nat)
    (variable : BuilderVar) (err : error) :
  Variables d !! i = Some variable →
  applyDefaultBody fuel d i variable = Some (d', Some err) →
  d' = d ∧ Value variable = "".
Proof.
  intros Hi. unfold applyDefaultBody. case_decide as Hv; [|done].
  intros Hres. split; [|done]. by eapply resolveDefault_error.
Qed.

Lemma applyDefaultForVersionBody_error `{!Semver} (fuel : nat) (v : Version)
    (d d' : DraftConfig) (i : nat) (variable : BuilderVar) (err : error) :
  Variables d !! i = Some variable →
  applyDefaultForVersionBody fuel v d i variable = Some (d', Some err) →
  d' = d ∧ Value variable = "".
Proof.
  intros Hi. unfold applyDefaultForVersionBody. case_decide as Hv; [|done].
  destruct (semver_ParseRange _) as [r|e]; [|by intros [= <- _]].
  destruct (r v); cbn; [|done].
  intros Hres. split; [|done]. by eapply resolveDefault_error.
Qed.

(** ** What the defaults leave alone *)

Section Defaults.
Context `{!Semver}.

(** A variable that has a value keeps it through the loop of either
    entry point. *)
Lemma rangeVariables_keeps_valued (body : DraftConfig → nat → BuilderVar → option outcome)
    (d d' : DraftConfig) (oe : option error) (i : nat) (variable : BuilderVar) :
  ownValue body →
  (∀ d1, body d1 i variable = Some (d1, None)) →
  Variables d !! i = Some variable →
  rangeVariables body (length (Variables d)) 0 d = Some (d', oe) →
  Variables d' !! i = Some variable.
Proof.
  intros Hown Hcont Hi Hrun.
  destruct (rangeVariables_at _ Hown _ _ _ _ _ _ Hi
              (proj1 (lookup_lt_is_Some _ _) (mk_is_Some _ _ Hi)) Hrun)
    as [(err & _ & _ & Hi') | (d1 & d2 & oe2 & _ & Hi1 & Hbody & Hi' & _ & _)]; [done|].
  rewrite Hcont in Hbody. injection Hbody as <- <-. congruence.
Qed.

(** X9. Whatever it returns, [ApplyDefaultVariables] changes nothing of
    the config but values of variables: the metadata and the overrides,
    the number and the order of the variables and every field of a
    variable but its value are as they were, and a variable that had a
    value has it still. The same holds of
    [ApplyDefaultVariablesForVersion]. *)
Theorem X9_defaults_keep_what_is_set :
  (∀ fuel d d' oe,
      ApplyDefaultVariables fuel d = Some (d', oe) →
      d' = withVariables d (Variables d')
      ∧ length (Variables d') = length (Variables d)
      ∧ ∀ i v, Variables d !! i = Some v →
               ∃ s, Variables d' !! i = Some (withValue v s)
                    ∧ (Value v ≠ "" → s = Value v))
  ∧ (∀ fuel d version d' oe,
        ApplyDefaultVariablesForVersion fuel d version = Some (d', oe) →
        d' = withVariables d (Variables d')
        ∧ length (Variables d') = length (Variables d)
        ∧ ∀ i v, Variables d !! i = Some v →
                 ∃ s, Variables d' !! i = Some (withValue v s)
                      ∧ (Value v ≠ "" → s = Value v)).
Proof.
  assert (Hgen : ∀ (d d' : DraftConfig),
    d' = withVariables d (Variables d') →
    Forall2 (λ v v', ∃ s, v' = withValue v s) (Variables d) (Variables d') →
    (∀ i v, Variables d !! i = Some v → Value v ≠ "" → Variables d' !! i = Some v) →
    d' = withVariables d (Variables d')
    ∧ length (Variables d') = length (Variables d)
    ∧ ∀ i v, Variables d !! i = Some v →
             ∃ s, Variables d' !! i = Some (withValue v s)
                  ∧ (Value v ≠ "" → s = Value v)).
  { intros d d' Hd' Hall Hkeep. split_and!; [done | symmetry; by eapply Forall2_length |].
    intros i v Hi. destruct (Forall2_lookup_l _ _ _ _ _ Hall Hi) as (v' & Hi' & s & ->).
    exists s. split; [done|]. intros Hv.
    pose proof (Hkeep i v Hi Hv) as Hsame. rewrite Hi' in Hsame.
    injection Hsame as Hsame. by rewrite <- Hsame. }
  split.
  - intros fuel d d' oe Hrun.
    destruct (rangeVariables_frame _ _ _ _ _ _ (applyDefaultBody_ownValue fuel) Hrun)
      as (Hd' & _ & Hall).
    apply Hgen; [done..|]. intros i v Hi Hv.
    apply (rangeVariables_keeps_valued (applyDefaultBody fuel) d d' oe i v
             (applyDefaultBody_ownValue fuel)); [|done..].
    intros d1. by apply applyDefaultBody_valued.
  - intros fuel d version d' oe Hrun.
    destruct (ApplyDefaultVariablesForVersion_frame _ _ _ _ _ Hrun) as (Hd' & Hall).
    apply Hgen; [done..|]. intros i v Hi Hv.
    unfold ApplyDefaultVariablesForVersion in Hrun.
    destruct (semver_Parse version) as [ver|e]; [|by injection Hrun as <- _].
    destruct (semver_ParseRange (ConfigVersions d)) as [r|e]; [|by injection Hrun as <- _].
    destruct (r ver); cbn in Hrun; [|by injection Hrun as <- _].
    apply (rangeVariables_keeps_valued (applyDefaultForVersionBody fuel ver) d d' oe i v
             (applyDefaultForVersionBody_ownValue fuel ver)); [|done..].
    intros d1. apply applyDefaultForVersionBody_settled. by left.
Qed.

(** X10. When [ApplyDefaultVariables] returns an error there is no
    rollback: the error comes from a variable without a value, the
    variables before it all have a value (those that had none have their
    defaults), and that variable and the ones after it are as they
    were. *)
Theorem X10_defaults_fail_without_rollback (fuel : nat) (d d' : DraftConfig) (err : error) :
  ApplyDefaultVariables fuel d = Some (d', Some err) →
  ∃ i variable,
    Variables d !! i = Some variable
    ∧ Value variable = ""
    ∧ (∀ j w, j < i → Variables d' !! j = Some w → Value w ≠ "")
    ∧ (∀ j, i ≤ j → Variables d' !! j = Variables d !! j).
Proof.
  intros Hrun.
  destruct (rangeVariables_failed _ _ _ _ _ _ Hrun)
    as (i & d1 & variable & Hi & Hpre & Hvar & Hfail).
  rewrite Nat.sub_0_r in Hpre.
  destruct (applyDefaultBody_error _ _ _ _ _ _ Hvar Hfail) as [-> Hv].
  destruct (rangeVariables_frame _ _ _ _ _ _ (applyDefaultBody_ownValue fuel) Hpre)
    as (_ & Hframe & _).
  exists i, variable. split_and!.
  - rewrite <- Hframe by lia. done.
  - done.
  - intros j w Hj Hw.
    eapply (rangeVariables_success _ (λ v, Value v ≠ "") _ _ _ _
              (applyDefaultBody_ownValue fuel)); [| exact Hpre | | exact Hw].
    + intros. by eapply applyDefaultBody_success.
    + lia.
  - intros j Hj. apply Hframe. lia.
Qed.

(** ** References that are missing, references that resolve *)

(** The loop of [ApplyDefaultVariables] at the first variable without a
    value. *)
Lemma ApplyDefaultVariables_first_unset (fuel : nat) (d : DraftConfig) (i : nat)
    (variable : BuilderVar) :
  Variables d !! i = Some variable →
  (∀ j w, j < i → Variables d !! j = Some w → Value w ≠ "") →
  ApplyDefaultVariables fuel d =
  match applyDefaultBody fuel d i variable with
  | Some (d1, None) =>
      rangeVariables (applyDefaultBody fuel) (length (Variables d) - S i) (S i) d1
  | r => r
  end.
Proof.
  intros Hi Hbefore. apply rangeVariables_from; [done|].
  intros j w Hj Hw. apply applyDefaultBody_valued. by eapply Hbefore.
Qed.

(** X11. A default that names a variable the config does not hold is an
    error, whether or not the variable has an inline default of its own:
    the resolution returns the not-found error of the lookup, wrapped
    once when the variable itself names the missing one, and twice when a
    variable on the walk does, however many hops the walk has made by
    then; the config is as it was, and on the first variable without a
    value this is what [ApplyDefaultVariables] returns. *)
Theorem X11_missing_reference :
  (∀ fuel d i variable,
      ReferenceVar (Default variable) ≠ "" →
      (∀ v, v ∈ Variables d → Name v ≠ ReferenceVar (Default variable)) →
      resolveDefault fuel d i variable
      = Some (d, Some (errApplyDefault (errNotFound (ReferenceVar (Default variable))))))
  ∧ (∀ fuel d i variable first u n,
        ReferenceVar (Default variable) ≠ "" →
        GetVariable d (ReferenceVar (Default variable)) = Ok first →
        follows d first first u n →
        Value u = "" →
        ReferenceVar (Default u) ≠ "" →
        (∀ v, v ∈ Variables d → Name v ≠ ReferenceVar (Default u)) →
        n < fuel →
        resolveDefault fuel d i variable
        = Some (d, Some (errApplyDefault (errRecurse (errNotFound (ReferenceVar (Default u)))))))
  ∧ (∀ fuel d i variable,
        Variables d !! i = Some variable →
        Value variable = "" →
        (∀ j w, j < i → Variables d !! j = Some w → Value w ≠ "") →
        ReferenceVar (Default variable) ≠ "" →
        (∀ v, v ∈ Variables d → Name v ≠ ReferenceVar (Default variable)) →
        ApplyDefaultVariables fuel d
        = Some (d, Some (errApplyDefault (errNotFound (ReferenceVar (Default variable))))))
  ∧ (∀ fuel d i variable first u n,
        Variables d !! i = Some variable →
        Value variable = "" →
        (∀ j w, j < i → Variables d !! j = Some w → Value w ≠ "") →
        ReferenceVar (Default variable) ≠ "" →
        GetVariable d (ReferenceVar (Default variable)) = Ok first →
        follows d first first u n →
        Value u = "" →
        ReferenceVar (Default u) ≠ "" →
        (∀ v, v ∈ Variables d → Name v ≠ ReferenceVar (Default u)) →
        n < fuel →
        ApplyDefaultVariables fuel d
        = Some (d, Some (errApplyDefault (errRecurse (errNotFound (ReferenceVar (Default u))))))).
Proof.
  assert (Hmissing : ∀ d name,
            (∀ v, v ∈ Variables d → Name v ≠ name) → GetVariable d name = Err (errNotFound name)).
  { intros d name Hnone. unfold GetVariable.
    by rewrite (proj2 (findVariable_None _ _) Hnone). }
  assert (Hres : ∀ fuel d i variable,
      ReferenceVar (Default variable) ≠ "" →
      (∀ v, v ∈ Variables d → Name v ≠ ReferenceVar (Default variable)) →
      resolveDefault fuel d i variable
      = Some (d, Some (errApplyDefault (errNotFound (ReferenceVar (Default variable)))))).
  { intros fuel d i variable Href Hnone. unfold resolveDefault.
    rewrite decide_True by done. by rewrite Hmissing. }
  assert (Hdeep : ∀ fuel d i variable first u n,
      ReferenceVar (Default variable) ≠ "" →
      GetVariable d (ReferenceVar (Default variable)) = Ok first →
      follows d first first u n →
      Value u = "" →
      ReferenceVar (Default u) ≠ "" →
      (∀ v, v ∈ Variables d → Name v ≠ ReferenceVar (Default u)) →
      n < fuel →
      resolveDefault fuel d i variable
      = Some (d, Some (errApplyDefault (errRecurse (errNotFound (ReferenceVar (Default u))))))).
  { intros fuel d i variable first u n Href Hget Hwalk Hv Hrefu Hnone Hfuel.
    unfold resolveDefault. rewrite decide_True by done. rewrite Hget.
    by rewrite (recurseReferenceVars_to_missing fuel d first first u n true
                  (errNotFound (ReferenceVar (Default u))));
      [| | left | | | apply Hmissing |]. }
  split_and!; [done | done | |].
  - intros fuel d i variable Hi Hv Hbefore Href Hnone.
    rewrite (ApplyDefaultVariables_first_unset _ _ _ _ Hi Hbefore).
    unfold applyDefaultBody. rewrite decide_True by done. by rewrite Hres.
  - intros fuel d i variable first u n Hi Hv Hbefore Href Hget Hwalk Hvu Hrefu Hnone Hfuel.
    rewrite (ApplyDefaultVariables_first_unset _ _ _ _ Hi Hbefore).
    unfold applyDefaultBody. rewrite decide_True by done.
    by rewrite (Hdeep fuel d i variable first u n).
Qed.

(** X12. A reference that resolves decides, whatever the inline default
    of the variable: on the first variable without a value whose walk
    returns a value that is not empty, [ApplyDefaultVariables] leaves that
    value in the variable, whatever it returns in the end. In particular
    a variable whose default names a variable that has a value takes that
    value. *)
Theorem X12_reference_before_inline_default :
  (∀ fuel d i variable referenceVar defaultVal d' oe,
      Variables d !! i = Some variable →
      Value variable = "" →
      (∀ j w, j < i → Variables d !! j = Some w → Value w ≠ "") →
      ReferenceVar (Default variable) ≠ "" →
      GetVariable d (ReferenceVar (Default variable)) = Ok referenceVar →
      recurseReferenceVars fuel d referenceVar referenceVar true = Some (Ok defaultVal) →
      defaultVal ≠ "" →
      ApplyDefaultVariables fuel d = Some (d', oe) →
      Variables d' !! i = Some (withValue variable defaultVal))
  ∧ (∀ fuel d i variable referenceVar d' oe,
        Variables d !! i = Some variable →
        Value variable = "" →
        (∀ j w, j < i → Variables d !! j = Some w → Value w ≠ "") →
        ReferenceVar (Default variable) ≠ "" →
        GetVariable d (ReferenceVar (Default variable)) = Ok referenceVar →
        Value referenceVar ≠ "" →
        ApplyDefaultVariables (S fuel) d = Some (d', oe) →
        Variables d' !! i = Some (withValue variable (Value referenceVar))).
Proof.
  assert (Hgen : ∀ fuel d i variable referenceVar defaultVal d' oe,
      Variables d !! i = Some variable →
      Value variable = "" →
      (∀ j w, j < i → Variables d !! j = Some w → Value w ≠ "") →
      ReferenceVar (Default variable) ≠ "" →
      GetVariable d (ReferenceVar (Default variable)) = Ok referenceVar →
      recurseReferenceVars fuel d referenceVar referenceVar true = Some (Ok defaultVal) →
      defaultVal ≠ "" →
      ApplyDefaultVariables fuel d = Some (d', oe) →
      Variables d' !! i = Some (withValue variable defaultVal)).
  { intros fuel d i variable referenceVar defaultVal d' oe Hi Hv Hbefore Href Hget Hrec Hdv.
    rewrite (ApplyDefaultVariables_first_unset _ _ _ _ Hi Hbefore).
    unfold applyDefaultBody. rewrite decide_True by done.
    rewrite (resolveDefault_reference _ _ _ _ referenceVar defaultVal) by done.
    intros Hrest.
    destruct (rangeVariables_frame _ _ _ _ _ _ (applyDefaultBody_ownValue fuel) Hrest)
      as (_ & Hframe & _).
    rewrite Hframe by lia. apply setVariableValue_lookup. by eapply lookup_lt_Some. }
  split; [exact Hgen|].
  intros fuel d i variable referenceVar d' oe Hi Hv Hbefore Href Hget Hval.
  apply (Hgen (S fuel) d i variable referenceVar); [done..| | done].
  apply recurseReferenceVars_value; [by left | done].
Qed.

(** X13. A range that does not parse is an error of its own: that of the
    config before any variable is looked at, with the config as it was;
    and that of a variable without a value as soon as the loop comes to
    it (the variables before it having a value or being excluded by their
    ranges). *)
Theorem X13_ranges_that_do_not_parse :
  (∀ fuel d version v err,
      semver_Parse version = Ok v →
      semver_ParseRange (ConfigVersions d) = Err err →
      ApplyDefaultVariablesForVersion fuel d version
      = Some (d, Some (errInvalidConfigRange err)))
  ∧ (∀ fuel d version v configRange i variable err,
        semver_Parse version = Ok v →
        semver_ParseRange (ConfigVersions d) = Ok configRange →
        configRange v = true →
        Variables d !! i = Some variable →
        Value variable = "" →
        semver_ParseRange (Versions variable) = Err err →
        (∀ j w, j < i → Variables d !! j = Some w → settledFor v w) →
        ApplyDefaultVariablesForVersion fuel d version
        = Some (d, Some (errInvalidVariableVersions err))).
Proof.
  split.
  - intros fuel d version v err Hv Hr. unfold ApplyDefaultVariablesForVersion.
    by rewrite Hv, Hr.
  - intros fuel d version v cr i variable err Hv Hcr Hin Hi Hempty Hparse Hbefore.
    rewrite (ApplyDefaultVariablesForVersion_valid _ _ _ _ _ Hv Hcr Hin).
    rewrite (rangeVariables_from _ i d variable Hi).
    + unfold applyDefaultForVersionBody. rewrite decide_True by done. by rewrite Hparse.
    + intros j w Hj Hw. apply applyDefaultForVersionBody_settled. by eapply Hbefore.
Qed.
End Defaults.

(** ** How long a walk can be *)

Section WalkLength.
Variable d : DraftConfig.
Variable variableCheck : BuilderVar.

Local Abbreviation needs := (needsFuel d variableCheck).

Lemma needs_functional (v : BuilderVar) (a b : nat) :
  1 ≤ a → 1 ≤ b → needs v a → needs v b → a = b.
Proof.
  assert (Hlt : ∀ a b, a < b → needs v a → needs v b → False).
  { intros a' b' Hab [Ha _] [_ Hb].
    destruct (recurseReferenceVars a' d v variableCheck false) as [r|] eqn:Hr; [|done].
    apply (recurseReferenceVars_fuel_le _ (b' - 1)) in Hr; [congruence | lia]. }
  intros Ha Hb Hna Hnb. destruct (decide (a = b)) as [|Hne]; [done|].
  exfalso. destruct (decide (a < b)); [by eapply (Hlt a b) | eapply (Hlt b a); [lia | done..]].
Qed.

(** A call that needs more than one unit of fuel hops to a variable of
    the config, which needs one unit less. *)
Lemma needs_hop (v : BuilderVar) (k : nat) :
  needs v (S (S k)) → ∃ w, w ∈ Variables d ∧ needs w (S k).
Proof.
  intros [Hsome Hnone]. replace (S (S k) - 1) with (S k) in Hnone by lia.
  cbn [recurseReferenceVars] in Hnone, Hsome.
  destruct (negb false && bool_decide (Name v = Name variableCheck)); [done|].
  destruct (decide (Value v ≠ "")); [done|].
  destruct (decide (ReferenceVar (Default v) ≠ "")); [|done].
  unfold GetVariable in Hnone, Hsome.
  destruct (findVariable (Variables d) (ReferenceVar (Default v))) as [w|] eqn:Hw; [|done].
  exists w. split; [by apply findVariable_Some in Hw as [_ ?]|].
  split; [done|]. by replace (S k - 1) with k by lia.
Qed.

(** The variables of a walk, each with the fuel it needs. *)
Lemma needs_nodes (k : nat) (v : BuilderVar) :
  needs v (S k) →
  ∃ nodes, length nodes = S k
           ∧ nodes !! 0 = Some v
           ∧ ∀ i u, nodes !! i = Some u →
                    needs u (S k - i) ∧ (1 ≤ i → u ∈ Variables d).
Proof.
  revert v. induction k as [|k IH]; intros v Hneeds.
  - exists [v]. split_and!; [done..|]. intros [|i] u; [|done]. intros [= <-].
    split; [done | lia].
  - destruct (needs_hop _ _ Hneeds) as (w & Hw & Hneedsw).
    destruct (IH w Hneedsw) as (nodes & Hlen & Hhead & Hall).
    exists (v :: nodes). split_and!; [cbn; lia | done |].
    intros [|i] u; cbn.
    + intros [= <-]. split; [done | lia].
    + intros Hu. destruct (Hall i u Hu) as [Hneedsu Hin]. split; [done|].
      intros _. destruct i as [|i]; [|apply Hin; lia].
      change (nodes !! 0 = Some u) in Hu. by assert (w = u) as <- by congruence.
Qed.

Lemma needs_bound (k : nat) (v : BuilderVar) :
  needs v (S k) →
  k ≤ length (Variables d) ∧ (v ∈ Variables d → S k ≤ length (Variables d)).
Proof.
  intros Hneeds. destruct (needs_nodes _ _ Hneeds) as (nodes & Hlen & Hhead & Hall).
  assert (Hnodup : NoDup nodes).
  { apply NoDup_alt. intros i j u Hi Hj.
    pose proof (lookup_lt_Some _ _ _ Hi). pose proof (lookup_lt_Some _ _ _ Hj).
    destruct (Hall i u Hi) as [Hni _]. destruct (Hall j u Hj) as [Hnj _].
    assert (S k - i = S k - j) by (apply (needs_functional u); [lia | lia | done | done]).
    lia. }
  split.
  - destruct nodes as [|v0 rest]; [done|]. cbn in Hlen.
    replace k with (length rest) by lia.
    apply submseteq_length, NoDup_submseteq; [by apply NoDup_cons in Hnodup as [_ ?]|].
    intros u [i Hi]%list_elem_of_lookup. apply (Hall (S i) u Hi). lia.
  - intros Hv. rewrite <- Hlen.
    apply submseteq_length, NoDup_submseteq; [done|].
    intros u [i Hi]%list_elem_of_lookup. destruct i as [|i].
    + rewrite Hhead in Hi. by injection Hi as <-.
    + apply (Hall (S i) u Hi). lia.
Qed.

Lemma needs_exists (fuel : nat) (v : BuilderVar) (r : result string) :
  recurseReferenceVars fuel d v variableCheck false = Some r →
  ∃ k, k < fuel ∧ needs v (S k).
Proof.
  revert r. induction fuel as [|fuel IH]; intros r Hr; [done|].
  destruct (recurseReferenceVars fuel d v variableCheck false) as [r'|] eqn:Hprev.
  - destruct (IH r' eq_refl) as (k & Hk & Hneeds). exists k. split; [lia | done].
  - exists fuel. split; [lia|]. split; [congruence|]. by replace (S fuel - 1) with fuel by lia.
Qed.

(** A call that returns at all returns with as much fuel as the config
    has variables, and one more. *)
Lemma recurseReferenceVars_bound (fuel : nat) (v : BuilderVar) (isFirst : bool)
    (r : result string) :
  recurseReferenceVars fuel d v variableCheck isFirst = Some r →
  recurseReferenceVars (length (Variables d) + 1) d v variableCheck isFirst = Some r.
Proof.
  assert (Hlater : ∀ fuel w r,
    recurseReferenceVars fuel d w variableCheck false = Some r →
    recurseReferenceVars (length (Variables d) + 1) d w variableCheck false = Some r
    ∧ (w ∈ Variables d →
       recurseReferenceVars (length (Variables d)) d w variableCheck false = Some r)).
  { intros fuel' w r' Hr. destruct (needs_exists _ _ _ Hr) as (k & Hk & Hneeds).
    destruct (needs_bound _ _ Hneeds) as [Hle Hin]. destruct Hneeds as [Hsome _].
    destruct (recurseReferenceVars (S k) d w variableCheck false) as [r''|] eqn:Hr''; [|done].
    assert (r'' = r') as -> by (by eapply recurseReferenceVars_deterministic).
    split.
    - eapply recurseReferenceVars_fuel_le; [|exact Hr'']. lia.
    - intros Hw. eapply recurseReferenceVars_fuel_le; [|exact Hr'']. by apply Hin. }
  destruct isFirst; [|intros Hr; by apply (Hlater fuel)].
  destruct fuel as [|fuel]; [done|].
  rewrite Nat.add_1_r. cbn [recurseReferenceVars negb andb].
  destruct (decide (Value v ≠ "")); [done|].
  destruct (decide (ReferenceVar (Default v) ≠ "")); [|done].
  unfold GetVariable.
  destruct (findVariable (Variables d) (ReferenceVar (Default v))) as [w|] eqn:Hw; [|done].
  intros Hr. apply (Hlater fuel); [done|]. by apply findVariable_Some in Hw as [_ ?].
Qed.
End WalkLength.

(** A loop whose body may be replaced, on configs of [N] variables, by
    another body with the same outcomes. *)
Lemma rangeVariables_body_ext (body1 body2 : DraftConfig → nat → BuilderVar → option outcome)
    (N n i : nat) (d : DraftConfig) (out : outcome) :
  ownValue body1 →
  (∀ d i variable out,
      length (Variables d) = N →
      body1 d i variable = Some out → body2 d i variable = Some out) →
  length (Variables d) = N →
  rangeVariables body1 n i d = Some out →
  rangeVariables body2 n i d = Some out.
Proof.
  intros Hown Hext. revert i d. induction n as [|n IH]; intros i d Hlen; cbn; [done|].
  destruct (Variables d !! i) as [variable|] eqn:Hi; [|done].
  destruct (body1 d i variable) as [[d1 oe]|] eqn:Hbody; [|done].
  rewrite (Hext _ _ _ _ Hlen Hbody).
  destruct oe as [err|]; [done|]. apply IH.
  destruct (Hown _ _ _ _ _ Hi Hbody) as [s ->]. by rewrite setVariableValue_length.
Qed.

Lemma resolveDefault_fuel (fuel fuel' : nat) (d : DraftConfig) (i : nat)
    (variable : BuilderVar) (out : outcome) :
  (∀ referenceVar r,
      recurseReferenceVars fuel d referenceVar referenceVar true = Some r →
      recurseReferenceVars fuel' d referenceVar referenceVar true = Some r) →
  resolveDefault fuel d i variable = Some out →
  resolveDefault fuel' d i variable = Some out.
Proof.
  intros Hrec. unfold resolveDefault. case_decide; [|done].
  destruct (GetVariable d _) as [referenceVar|err]; [|done].
  destruct (recurseReferenceVars fuel _ _ _ _) as [r|] eqn:Hr; [|done].
  by rewrite (Hrec _ _ Hr).
Qed.

Section FuelBound.
Context `{!Semver}.

(** X14. A chain walk that returns has made at most one call more than
    the config has variables. So each entry point returns exactly when
    its run with that much fuel returns, and then with the same
    outcome: a run with that much fuel that does not return tells that no
    run does. *)
Theorem X14_walk_depth_bound :
  (∀ fuel d referenceVar variableCheck isFirst r,
      recurseReferenceVars fuel d referenceVar variableCheck isFirst = Some r →
      recurseReferenceVars (length (Variables d) + 1) d referenceVar variableCheck isFirst
      = Some r)
  ∧ (∀ fuel d out,
        ApplyDefaultVariables fuel d = Some out →
        ApplyDefaultVariables (length (Variables d) + 1) d = Some out)
  ∧ (∀ fuel d version out,
        ApplyDefaultVariablesForVersion fuel d version = Some out →
        ApplyDefaultVariablesForVersion (length (Variables d) + 1) d version = Some out)
  ∧ (∀ d, ApplyDefaultVariables (length (Variables d) + 1) d = None
          ↔ ∀ fuel, ApplyDefaultVariables fuel d = None)
  ∧ (∀ d version,
        ApplyDefaultVariablesForVersion (length (Variables d) + 1) d version = None
        ↔ ∀ fuel, ApplyDefaultVariablesForVersion fuel d version = None).
Proof.
  assert (Hbody : ∀ fuel N d i variable out,
            length (Variables d) = N →
            applyDefaultBody fuel d i variable = Some out →
            applyDefaultBody (N + 1) d i variable = Some out).
  { intros fuel N d i variable out <-. unfold applyDefaultBody. case_decide; [|done].
    apply resolveDefault_fuel. intros rv r. apply recurseReferenceVars_bound. }
  assert (Hbodyv : ∀ fuel v N d i variable out,
            length (Variables d) = N →
            applyDefaultForVersionBody fuel v d i variable = Some out →
            applyDefaultForVersionBody (N + 1) v d i variable = Some out).
  { intros fuel v N d i variable out <-. unfold applyDefaultForVersionBody.
    case_decide; [|done]. destruct (semver_ParseRange _) as [r|]; [|done].
    destruct (negb (r v)); [done|].
    apply resolveDefault_fuel. intros rv r'. apply recurseReferenceVars_bound. }
  assert (Happly : ∀ fuel d out,
            ApplyDefaultVariables fuel d = Some out →
            ApplyDefaultVariables (length (Variables d) + 1) d = Some out).
  { intros fuel d out.
    apply (rangeVariables_body_ext _ _ (length (Variables d)));
      [apply applyDefaultBody_ownValue | apply Hbody | done]. }
  assert (Hversion : ∀ fuel d version out,
            ApplyDefaultVariablesForVersion fuel d version = Some out →
            ApplyDefaultVariablesForVersion (length (Variables d) + 1) d version = Some out).
  { intros fuel d version out. unfold ApplyDefaultVariablesForVersion.
    destruct (semver_Parse version) as [v|]; [|done].
    destruct (semver_ParseRange (ConfigVersions d)) as [r|]; [|done].
    destruct (negb (r v)); [done|].
    apply (rangeVariables_body_ext _ _ (length (Variables d)));
      [apply applyDefaultForVersionBody_ownValue | apply Hbodyv | done]. }
  split_and!; [intros; by eapply recurseReferenceVars_bound | done | done | |].
  - intros d. split; [|by intros Hall].
    intros Hnone fuel.
    destruct (ApplyDefaultVariables fuel d) as [out|] eqn:Hrun; [|done].
    by rewrite (Happly _ _ _ Hrun) in Hnone.
  - intros d version. split; [|by intros Hall].
    intros Hnone fuel.
    destruct (ApplyDefaultVariablesForVersion fuel d version) as [out|] eqn:Hrun; [|done].
    by rewrite (Hversion _ _ _ _ Hrun) in Hnone.
Qed.
End FuelBound.

(** ** Reading a copy *)

Lemma findVariable_copyOf (vars : list BuilderVar) (name : string) :
  findVariable (copyOf <$> vars) name = copyOf <$> findVariable vars name.
Proof.
  induction vars as [|v vars IH]; cbn; [done|].
  change (Name (copyOf v)) with (Name v). by case_decide.
Qed.

Lemma GetVariable_copyConfig (d : DraftConfig) (name : string) :
  GetVariable (copyConfig d) name
  = match GetVariable d name with Ok v => Ok (copyOf v) | Err err => Err err end.
Proof.
  unfold GetVariable. cbn [copyConfig Variables withVariables].
  rewrite findVariable_copyOf. by destruct (findVariable (Variables d) name).
Qed.

Section CopyRead.
Context `{!Builtins}.

(** X15. Through a copy one reads the config that the original read when
    it was copied, with the conditional references and the overrides of
    the caller gone; the original reads as before; and [GetVariableValue]
    on the copy is [GetVariableValue] on the original with the built-in
    validators and transformers alone. *)
Theorem X15_DeepCopy_read (h h' : store) (d c : DraftConfigP) (dv : DraftConfig) :
  readConfig h d = Some dv →
  DeepCopy h d = Some (c, h') →
  readConfig h' c = Some (copyConfig dv)
  ∧ readConfig h' d = Some dv
  ∧ ∀ name, GetVariableValue (copyConfig dv) name
            = GetVariableValue (withoutOverrides dv) name.
Proof.
  unfold readConfig at 1.
  destruct (mapM (λ p : ptr, h !! p) (Variables d)) as [vs|] eqn:Hvs; [|done].
  intros [= <-] Hcopy. rewrite (DeepCopy_spec _ _ _ Hvs) in Hcopy. injection Hcopy as <- <-.
  assert (Hold : ∀ p, p ∈ Variables d → (h ++ (copyOf <$> vs)) !! p = h !! p).
  { intros p [i Hi]%list_elem_of_lookup. apply lookup_app_l.
    destruct (Forall2_lookup_l _ _ _ _ _ (mapM_Some_1 _ _ _ Hvs) Hi) as (w & _ & Hw).
    by eapply lookup_lt_Some. }
  split_and!.
  - unfold readConfig, copyConfig. cbn [Variables withVariables withoutOverrides].
    apply fmap_Some. exists (copyOf <$> vs). split; [|done].
    apply mapM_Some, Forall2_same_length_lookup_2.
    { by rewrite length_seq, length_fmap, (length_mapM _ _ _ Hvs). }
    intros i p v [-> Hi]%lookup_seq Hv.
    rewrite lookup_app_r by lia. by replace (length h + i - length h) with i by lia.
  - unfold readConfig. by rewrite (mapM_lookup_ext h _ _ Hold), Hvs.
  - intros name. unfold GetVariableValue.
    rewrite !getVariableValueFrom_findVariable.
    cbn [copyConfig Variables withVariables withoutOverrides].
    rewrite findVariable_copyOf. by destruct (findVariable vs name).
Qed.
End CopyRead.

(** ** Defaults on a copy *)

Lemma recurseReferenceVars_copyConfig (fuel : nat) (d : DraftConfig)
    (referenceVar variableCheck : BuilderVar) (isFirst : bool) :
  recurseReferenceVars fuel (copyConfig d) (copyOf referenceVar) (copyOf variableCheck) isFirst
  = recurseReferenceVars fuel d referenceVar variableCheck isFirst.
Proof.
  revert referenceVar isFirst. induction fuel as [|fuel IH]; intros referenceVar isFirst; [done|].
  cbn [recurseReferenceVars]. rewrite GetVariable_copyConfig.
  change (Name (copyOf referenceVar)) with (Name referenceVar).
  change (Name (copyOf variableCheck)) with (Name variableCheck).
  change (Value (copyOf referenceVar)) with (Value referenceVar).
  change (Default (copyOf referenceVar)) with (Default referenceVar).
  destruct (negb isFirst && bool_decide (Name referenceVar = Name variableCheck)); [done|].
  destruct (decide (Value referenceVar ≠ "")); [done|].
  destruct (decide (ReferenceVar (Default referenceVar) ≠ "")); [|done].
  destruct (GetVariable d _) as [w|err]; [apply IH | done].
Qed.

Lemma setVariableValue_copyConfig (d : DraftConfig) (i : nat) (variable : BuilderVar)
    (s : string) :
  setVariableValue (copyConfig d) i (copyOf variable) s
  = copyConfig (setVariableValue d i variable s).
Proof.
  unfold setVariableValue, copyConfig. cbn [Variables withVariables withoutOverrides].
  by rewrite list_fmap_insert.
Qed.

Lemma resolveDefault_copyConfig (fuel : nat) (d : DraftConfig) (i : nat)
    (variable : BuilderVar) :
  resolveDefault fuel (copyConfig d) i (copyOf variable)
  = (λ out : outcome, (copyConfig out.1, out.2)) <$> resolveDefault fuel d i variable.
Proof.
  assert (Hinline : ∀ d v, inlineDefault (copyConfig d) i (copyOf v)
                           = (copyConfig (inlineDefault d i v).1, (inlineDefault d i v).2)).
  { intros d0 v. unfold inlineDefault.
    change (Value (copyOf v)) with (Value v). change (Default (copyOf v)) with (Default v).
    change (Name (copyOf v)) with (Name v).
    destruct (decide (Value v = "")); [|done].
    destruct (decide (DefaultValue (Default v) ≠ "")); [|done].
    by rewrite setVariableValue_copyConfig. }
  unfold resolveDefault. change (Default (copyOf variable)) with (Default variable).
  destruct (decide (ReferenceVar (Default variable) ≠ "")); [|by rewrite Hinline].
  rewrite GetVariable_copyConfig.
  destruct (GetVariable d _) as [referenceVar|err]; [|done].
  rewrite recurseReferenceVars_copyConfig.
  destruct (recurseReferenceVars fuel d referenceVar referenceVar true) as [[defaultVal|err]|];
    [|done..].
  rewrite setVariableValue_copyConfig.
  change (withValue (copyOf variable) defaultVal) with (copyOf (withValue variable defaultVal)).
  by rewrite Hinline.
Qed.

Lemma rangeVariables_copyConfig
    (body : DraftConfig → nat → BuilderVar → option outcome) (n i : nat) (d : DraftConfig) :
  (∀ d i variable,
      body (copyConfig d) i (copyOf variable)
      = (λ out : outcome, (copyConfig out.1, out.2)) <$> body d i variable) →
  rangeVariables body n i (copyConfig d)
  = (λ out : outcome, (copyConfig out.1, out.2)) <$> rangeVariables body n i d.
Proof.
  intros Hbody. revert i d. induction n as [|n IH]; intros i d; cbn [rangeVariables]; [done|].
  cbn [copyConfig Variables withVariables]. rewrite list_lookup_fmap.
  destruct (Variables d !! i) as [variable|]; cbn [fmap option_fmap option_map]; [|done].
  fold (copyConfig d). rewrite Hbody.
  destruct (body d i variable) as [[d1 [err|]]|]; cbn; [done | apply IH | done].
Qed.

Section CopyDefaults.
Context `{!Semver}.

(** X16. Default resolution reads nothing that a copy lacks: on the
    copy, each entry point returns the error it returns on the original,
    and leaves the copy of the config it leaves of the original. *)
Theorem X16_defaults_on_a_copy (fuel : nat) (d : DraftConfig) :
  ApplyDefaultVariables fuel (copyConfig d)
  = (λ out : outcome, (copyConfig out.1, out.2)) <$> ApplyDefaultVariables fuel d
  ∧ ∀ version,
      ApplyDefaultVariablesForVersion fuel (copyConfig d) version
      = (λ out : outcome, (copyConfig out.1, out.2))
          <$> ApplyDefaultVariablesForVersion fuel d version.
Proof.
  split.
  - unfold ApplyDefaultVariables.
    replace (length (Variables (copyConfig d))) with (length (Variables d))
      by (cbn; by rewrite length_fmap).
    apply rangeVariables_copyConfig. intros d0 i variable. unfold applyDefaultBody.
    change (Value (copyOf variable)) with (Value variable).
    destruct (decide (Value variable = "")); [apply resolveDefault_copyConfig | done].
  - intros version. unfold ApplyDefaultVariablesForVersion.
    destruct (semver_Parse version) as [v|err]; [|done].
    change (ConfigVersions (copyConfig d)) with (ConfigVersions d).
    destruct (semver_ParseRange (ConfigVersions d)) as [r|err]; [|done].
    destruct (negb (r v)); [done|].
    replace (length (Variables (copyConfig d))) with (length (Variables d))
      by (cbn; by rewrite length_fmap).
    apply rangeVariables_copyConfig. intros d0 i variable. unfold applyDefaultForVersionBody.
    change (Value (copyOf variable)) with (Value variable).
    change (Versions (copyOf variable)) with (Versions variable).
    destruct (decide (Value variable = "")); [|done].
    destruct (semver_ParseRange (Versions variable)) as [rg|err]; [|done].
    destruct (negb (rg v)); [done | apply resolveDefault_copyConfig].
Qed.
End CopyDefaults.

(** X26. [DeepCopy] panics exactly when an entry of the config is nil,
    whatever copies the loop has allocated when it comes to that entry. *)
Theorem X26_DeepCopy_nil_entry (h : store) (d : DraftConfigP) :
  DeepCopy h d = None ↔ ∃ i p, Variables d !! i = Some p ∧ h !! p = None.
Proof.
  rewrite DeepCopy_None. unfold allocated. split.
  - intros Hnot. apply not_Forall_Exists in Hnot; [|apply _].
    apply Exists_exists in Hnot as (p & Hin & Hp).
    apply list_elem_of_lookup in Hin as [i Hi]. exists i, p. split; [done|].
    apply lookup_ge_None. cbn in Hp. lia.
  - intros (i & p & Hi & Hp) Hall. rewrite Forall_lookup in Hall.
    specialize (Hall i p Hi). apply lookup_ge_None in Hp. cbn in Hall. lia.
Qed.

(** ** What [Generate] does before it writes *)

Section GenerateEdges.
Context `{!Semver, !TemplateWriter, !TemplateEngine}.

(** After a call of [ApplyDefaultVariablesForVersion] that returned nil,
    every variable has a value or is excluded by its own range. *)
Lemma ApplyDefaultVariablesForVersion_success (fuel : nat) (d d' : DraftConfig)
    (version : string) :
  ApplyDefaultVariablesForVersion fuel d version = Some (d', None) →
  ∃ v, semver_Parse version = Ok v
       ∧ ∀ i variable, Variables d' !! i = Some variable → settledFor v variable.
Proof.
  intros Hrun.
  destruct (ApplyDefaultVariablesForVersion_frame _ _ _ _ _ Hrun) as (_ & Hall).
  unfold ApplyDefaultVariablesForVersion in Hrun.
  destruct (semver_Parse version) as [v|err]; [|done].
  destruct (semver_ParseRange (ConfigVersions d)) as [r|err]; [|done].
  destruct (r v); cbn in Hrun; [|done].
  exists v. split; [done|]. intros i variable Hi.
  eapply (rangeVariables_success _ (settledFor v));
    [apply applyDefaultForVersionBody_ownValue | | exact Hrun | | exact Hi].
  - intros. by eapply applyDefaultForVersionBody_success.
  - apply lookup_lt_Some in Hi. apply Forall2_length in Hall. lia.
Qed.

(** X17. [Generate] gives the writer nothing unless the template is
    complete and every default resolves: a call after which the writer is
    not as it was has had a template with a config, a source, a
    destination, a file tree and a version, and defaults that applied
    without error. *)
Theorem X17_Generate_writes_only_when_ready (fuel : nat) (t t' : option Template)
    (w w' : writerState) (oe : option error) :
  Generate fuel t w = Returns (t', w', oe) →
  w' ≠ w →
  ∃ t0 d d',
    t = Some t0
    ∧ Config t0 = Some d
    ∧ src t0 ≠ "" ∧ dest t0 ≠ "" ∧ templateFiles t0 ≠ None ∧ version t0 ≠ ""
    ∧ ApplyDefaultVariablesForVersion fuel d (version t0) = Some (d', None)
    ∧ t' = Some (withConfig t0 d').
Proof.
  unfold Generate. destruct (validate t) as [err|] eqn:Hvalid.
  { intros [= <- <- <-] Hw. done. }
  destruct t as [t0|]; [|done]. cbn in Hvalid.
  destruct (decide (Config t0 = None)) as [|Hconfig]; [done|].
  destruct (decide (src t0 = "")) as [|Hsrc]; [done|].
  destruct (decide (dest t0 = "")) as [|Hdest]; [done|].
  destruct (decide (templateFiles t0 = None)) as [|Hfiles]; [done|].
  destruct (decide (version t0 = "")) as [|Hversion]; [done|].
  destruct (Config t0) as [d|] eqn:Hd; [|done].
  destruct (ApplyDefaultVariablesForVersion fuel d (version t0)) as [[d' [err|]]|] eqn:Happly;
    [by intros [= <- <- <-] | | done].
  cbv zeta. intros Hgen Hw. exists t0, d, d'. split_and!; [done..|].
  destruct (generateTemplate (withConfig t0 d') w) as [[w1 [err|]]|]; [| |done].
  - by injection Hgen as <- _ _.
  - destruct (generateTemplate (withConfig t0 d') w1) as [[w2 err]|]; [|done].
    by injection Hgen as <- _ _.
Qed.

(** X19. What a call that returned nil has achieved: after
    [ApplyDefaultVariables] every variable has a value; after
    [ApplyDefaultVariablesForVersion] every variable has a value or is
    excluded by its own range; and after [Generate] the template holds
    the config so resolved. *)
Theorem X19_success_postconditions :
  (∀ fuel d d',
      ApplyDefaultVariables fuel d = Some (d', None) →
      ∀ i variable, Variables d' !! i = Some variable → Value variable ≠ "")
  ∧ (∀ fuel d d' version,
        ApplyDefaultVariablesForVersion fuel d version = Some (d', None) →
        ∃ v, semver_Parse version = Ok v
             ∧ ∀ i variable, Variables d' !! i = Some variable → settledFor v variable)
  ∧ (∀ fuel t t' w w',
        Generate fuel (Some t) w = Returns (t', w', None) →
        ∃ d d' v,
          Config t = Some d
          ∧ t' = Some (withConfig t d')
          ∧ ApplyDefaultVariablesForVersion fuel d (version t) = Some (d', None)
          ∧ semver_Parse (version t) = Ok v
          ∧ ∀ i variable, Variables d' !! i = Some variable → settledFor v variable).
Proof.
  split_and!.
  - intros fuel d d' Hrun. by apply (ApplyDefaultVariables_success_fullySet fuel d).
  - apply ApplyDefaultVariablesForVersion_success.
  - intros fuel t t' w w' Hgen.
    destruct (Generate_success _ _ _ _ _ Hgen)
      as (d & d' & fsys & root & w1 & Hd & Happly & Ht' & _).
    destruct (ApplyDefaultVariablesForVersion_success _ _ _ _ Happly) as (v & Hv & Hall).
    by exists d, d', v.
Qed.
End GenerateEdges.

(** ** The panics of the renderer *)

Section NilWalk.
Context `{!TemplateEngine}.

(** Without a writer, [writeTemplate] returns an error or panics. *)
Lemma writeTemplateNil_not_nil (t : Template) (path : string) (contents : result string) :
  writeTemplateNil t path contents ≠ Some None.
Proof.
  destruct contents as [text|err]; cbn; [|done].
  destruct (tmpl_Parse text) as [tmpl|err]; [|done].
  by destruct (tmpl_Execute tmpl t).
Qed.

(** Without a writer, [writeTemplate] panics when the file has been read,
    parsed and executed. *)
Lemma writeTemplateNil_None (t : Template) (path : string) (contents : result string) :
  writeTemplateNil t path contents = None
  ↔ ∃ text tmpl buf,
      contents = Ok text ∧ tmpl_Parse text = Ok tmpl ∧ tmpl_Execute tmpl t = Ok buf.
Proof.
  destruct contents as [text|err]; cbn.
  - destruct (tmpl_Parse text) as [tmpl|err] eqn:Hparse.
    + destruct (tmpl_Execute tmpl t) as [buf|err] eqn:Hexec.
      * split; [by exists text, tmpl, buf | done].
      * split; [done|]. intros (text' & tmpl' & buf & [= <-] & Hp & He). congruence.
    + split; [done|]. intros (text' & tmpl' & buf & [= <-] & Hp & _). congruence.
  - split; [done|]. by intros (text & tmpl & buf & Hc & _).
Qed.

(** With a writer, the steps before the write are the same, and leave the
    writer as it is. *)
Lemma writeTemplateNil_error `{!TemplateWriter} (t : Template) (path : string)
    (contents : result string) (oe : option error) (w : writerState) :
  writeTemplateNil t path contents = Some oe →
  writeTemplate t path contents w = (w, oe).
Proof.
  destruct contents as [text|err]; cbn; [|by intros [= <-]].
  destruct (tmpl_Parse text) as [tmpl|err]; [|by intros [= <-]].
  destruct (tmpl_Execute tmpl t) as [buf|err]; [done | by intros [= <-]].
Qed.

Lemma walkDirNil_Dir (fn : string → DirEntry → option (option error))
    (name base : string) (dirs : list DirEntry) :
  walkDirNil fn name (Dir base dirs) =
  match fn name (Dir base dirs) with
  | None => None
  | Some (Some err) => Some (Some err)
  | Some None => walkEntriesNil fn name dirs
  end.
Proof. done. Qed.

(** Without a writer the walk is over at the first file to render. *)
Lemma walkDirNil_first (template : Template) (name : string) (d : DirEntry) :
  walkDirNil (walkFnNil template) name d
  = match filter (λ file, isRendered file) (filesUnder name d) with
    | [] => Some None
    | file :: _ => writeTemplateNil template file.1.1 file.2
    end.
Proof.
  revert name. induction d as [base contents | base dirs IH] using DirEntry_ind; intros name.
  - cbn [walkDirNil filesUnder]. unfold walkFnNil. cbn [IsDir DirEntry_Name].
    destruct (strings_EqualFold base "draft.yaml") eqn:Hfold.
    + rewrite filter_cons_False; [done|].
      unfold isRendered. cbn [fst snd]. rewrite Hfold. exact id.
    + rewrite filter_cons_True
        by (unfold isRendered; cbn [fst snd]; rewrite Hfold; exact I).
      cbn. pose proof (writeTemplateNil_not_nil template name contents) as Hnot.
      by destruct (writeTemplateNil template name contents) as [[err|]|].
  - rewrite walkDirNil_Dir, filesUnder_Dir. cbn [walkFnNil IsDir].
    induction IH as [|d1 rest Hd1 _ IHrest]; [done|].
    unfold filesOfEntries. cbn [walkEntriesNil fmap list_fmap concat].
    rewrite filter_app, Hd1.
    destruct (filter _ (filesUnder (path_Join name (DirEntry_Name d1)) d1))
      as [|file files]; [exact IHrest|].
    cbn [app]. pose proof (writeTemplateNil_not_nil template file.1.1 file.2) as Hnot.
    by destruct (writeTemplateNil template file.1.1 file.2) as [[err|]|].
Qed.
End NilWalk.

Section Panics.
Context `{!Semver, !TemplateWriter, !TemplateEngine}.

(** X18. The panics of the renderer. With a writer that is set,
    [generateTemplate] panics exactly when the file tree is nil or holds
    nothing at the source, which is no error; [Generate] then panics once
    the template has passed the validation and the defaults are applied.
    With a [templateWriter] that is nil, which [validate] lets pass,
    [generateTemplate] panics in these cases and, besides, exactly when
    the first file to render is read, parsed and executed, at the call of
    [WriteFile]; when it does not panic it returns what it returns with a
    writer, which is then given nothing; and [Generate] panics exactly
    when the template has passed the validation, the defaults are applied
    and [generateTemplate] panics. *)
Theorem X18_panics_of_the_renderer :
  (∀ t w, generateTemplate t w = None
          ↔ ∀ fsys, templateFiles t = Some fsys → fsys (src t) = None)
  ∧ (∀ fuel t d d' w,
        validate (Some t) = None →
        Config t = Some d →
        ApplyDefaultVariablesForVersion fuel d (version t) = Some (d', None) →
        (∀ fsys, templateFiles t = Some fsys → fsys (src t) = None) →
        Generate fuel (Some t) w = Panics)
  ∧ (∀ t, generateTemplateNil t = None
          ↔ (∀ fsys, templateFiles t = Some fsys → fsys (src t) = None)
            ∨ ∃ fsys root file rest text tmpl buf,
                templateFiles t = Some fsys
                ∧ fsys (src t) = Some root
                ∧ filter (λ file, isRendered file) (filesUnder (src t) root) = file :: rest
                ∧ file.2 = Ok text
                ∧ tmpl_Parse text = Ok tmpl
                ∧ tmpl_Execute tmpl t = Ok buf)
  ∧ (∀ t oe w, generateTemplateNil t = Some oe → generateTemplate t w = Some (w, oe))
  ∧ (∀ fuel t,
        GenerateNil fuel t = Panics
        ↔ ∃ t0 d d',
            t = Some t0
            ∧ validate t = None
            ∧ Config t0 = Some d
            ∧ ApplyDefaultVariablesForVersion fuel d (version t0) = Some (d', None)
            ∧ generateTemplateNil (withConfig t0 d') = None).
Proof.
  assert (Hwalk : ∀ t w, generateTemplate t w = None
                         ↔ ∀ fsys, templateFiles t = Some fsys → fsys (src t) = None).
  { intros t w. unfold generateTemplate.
    destruct (templateFiles t) as [fsys|]; cbn; [|by split].
    destruct (fsys (src t)) as [root|] eqn:Hroot; cbn.
    - split; [done|]. intros Hnone. specialize (Hnone fsys eq_refl). congruence.
    - split; [|done]. by intros _ fsys' [= <-]. }
  split_and!; [done | | | |].
  - intros fuel t d d' w Hvalid Hd Happly Hmissing. unfold Generate.
    rewrite Hvalid, Hd, Happly. cbv zeta.
    by rewrite (proj2 (Hwalk (withConfig t d') w)).
  - intros t. unfold generateTemplateNil.
    destruct (templateFiles t) as [fsys|] eqn:Hfs; cbn; [|split; [by left | done]].
    destruct (fsys (src t)) as [root|] eqn:Hroot; cbn;
      [|split; [left; by intros fsys' [= <-] | done]].
    rewrite walkDirNil_first.
    destruct (filter _ (filesUnder (src t) root)) as [|file rest] eqn:Hfiles.
    + split; [done|]. intros [Hnone | (fsys' & root' & file & rest & _ & _ & _ & Hf & Hr & Hl & _)].
      * specialize (Hnone fsys eq_refl). congruence.
      * injection Hf as <-. rewrite Hroot in Hr. injection Hr as <-. congruence.
    + rewrite writeTemplateNil_None. split.
      * intros (text & tmpl & buf & Hread & Hparse & Hexec). right.
        by exists fsys, root, file, rest, text, tmpl, buf.
      * intros [Hnone | (fsys' & root' & file' & rest' & text & tmpl & buf
                         & Hf & Hr & Hl & Hread & Hparse & Hexec)].
        -- specialize (Hnone fsys eq_refl). congruence.
        -- injection Hf as <-. rewrite Hroot in Hr. injection Hr as <-.
           rewrite Hfiles in Hl. injection Hl as <- <-. by exists text, tmpl, buf.
  - intros t oe w. unfold generateTemplateNil.
    destruct (templateFiles t) as [fsys|] eqn:Hfs; cbn; [|done].
    destruct (fsys (src t)) as [root|] eqn:Hroot; cbn; [|done].
    rewrite walkDirNil_first. intros Hnil.
    rewrite (generateTemplate_writeAll t fsys root w Hfs Hroot). f_equal.
    destruct (filter _ (filesUnder (src t) root)) as [|file rest]; [by injection Hnil as <-|].
    cbn. rewrite (writeTemplateNil_error _ _ _ _ _ Hnil).
    pose proof (writeTemplateNil_not_nil t file.1.1 file.2) as Hnot.
    destruct oe as [err|]; [done | congruence].
  - intros fuel t. unfold GenerateNil. split.
    + destruct (validate t) as [err|] eqn:Hvalid; [done|].
      destruct t as [t0|]; [|done].
      destruct (Config t0) as [d|] eqn:Hd;
        [|cbn in Hvalid; by rewrite decide_True in Hvalid by done].
      destruct (ApplyDefaultVariablesForVersion fuel d (version t0)) as [[d' [err|]]|]
        eqn:Happly; [done| |done].
      cbv zeta. destruct (generateTemplateNil (withConfig t0 d')) as [[err|]|] eqn:Hgen;
        [done|done|].
      intros _. by exists t0, d, d'.
    + intros (t0 & d & d' & -> & -> & -> & -> & Hgen). cbv zeta. by rewrite Hgen.
Qed.
End Panics.

(** ** [GetTemplate] and the catalogue *)

Section GetTemplateFacts.
Context `{!Handlers} {W : Type}.

(** X20. [GetTemplate] checks before it assigns: a call that returns an
    error leaves the catalogue as it was. A call that returns a template
    has overwritten the destination, the version and the writer of the
    one object the catalogue holds for the name in lower case, which all
    holders of that pointer share; the destination is not empty, the
    version is one that [IsValidVersion] accepts for the range of the
    config, and the config, the file tree and the source of the object,
    and the other entries of the catalogue, are as they were. *)
Theorem X20_GetTemplate_catalogue (templateConfigs templateConfigs' : gmap string (Template * option W))
    (name ver dst : string) (templateWriter : option W) (r : result string) :
  GetTemplate templateConfigs name ver dst templateWriter = Some (templateConfigs', r) →
  match r with
  | Err _ => templateConfigs' = templateConfigs
  | Ok key =>
      key = strings_ToLower name
      ∧ ∃ old oldWriter config t,
          templateConfigs !! key = Some (old, oldWriter)
          ∧ Config old = Some config
          ∧ templateConfigs' !! key = Some (t, templateWriter)
          ∧ (∀ other, other ≠ key → templateConfigs' !! other = templateConfigs !! other)
          ∧ Config t = Config old ∧ templateFiles t = templateFiles old ∧ src t = src old
          ∧ dest t = (if decide (dst = "") then "." else dst)
          ∧ dest t ≠ ""
          ∧ version t = (if decide (ver = "") then DefaultVersion config else ver)
          ∧ IsValidVersion (ConfigVersions config) (version t) = true
  end.
Proof.
  unfold GetTemplate.
  destruct (templateConfigs !! strings_ToLower name) as [[old oldWriter]|] eqn:Hold;
    [|by intros [= <- <-]].
  destruct (Config old) as [config|] eqn:Hconfig; cbn; [|done].
  destruct (IsValidVersion _ _) eqn:Hvalid; cbn; [|by intros [= <- <-]].
  destruct (filepath_Abs _) as [err|]; [by intros [= <- <-]|].
  intros [= <- <-]. split; [done|].
  exists old, oldWriter, config,
    (mkTemplate (Config old) (templateFiles old) (src old)
       (if decide (dst = "") then "." else dst)
       (if decide (ver = "") then DefaultVersion config else ver)).
  split_and!; try done.
  - by rewrite lookup_insert_eq, Hconfig.
  - intros other Hother. by rewrite lookup_insert_ne.
  - cbn. destruct (decide (dst = "")); [discriminate | done].
Qed.

(** X21. A template that [GetTemplate] returns never fails the checks of
    [validate] on the config and on the destination: it passes
    [validate] exactly when its source, its file tree and its version are
    set. *)
Theorem X21_GetTemplate_then_validate `{!TemplateWriter, !TemplateEngine}
    (templateConfigs templateConfigs' : gmap string (Template * option W))
    (name ver dst key : string) (templateWriter : option W) :
  GetTemplate templateConfigs name ver dst templateWriter
  = Some (templateConfigs', Ok key) →
  ∃ t w, templateConfigs' !! key = Some (t, w)
         ∧ validate (Some t) ≠ Some (ErrorNew "template draft config is nil")
         ∧ validate (Some t) ≠ Some (ErrorNew "template destination is empty")
         ∧ (validate (Some t) = None
            ↔ src t ≠ "" ∧ templateFiles t ≠ None ∧ version t ≠ "").
Proof.
  unfold GetTemplate.
  destruct (templateConfigs !! strings_ToLower name) as [[old oldWriter]|] eqn:Hold; [|done].
  destruct (Config old) as [config|] eqn:Hconfig; cbn; [|done].
  destruct (IsValidVersion _ _) eqn:Hvalid; cbn; [|done].
  destruct (filepath_Abs _) as [err|]; [done|].
  intros [= <- <-]. eexists _, templateWriter. split; [by rewrite lookup_insert_eq|].
  unfold validate. cbn.
  set (version' := if decide (ver = "") then _ else _).
  set (dest' := if decide (dst = "") then _ else _).
  assert (Hdest : dest' ≠ "") by (subst dest'; destruct (decide (dst = "")); [discriminate | done]).
  repeat (case_decide; try done); split_and!; try done; split; (done || tauto || naive_solver).
Qed.
End GetTemplateFacts.

(** ** The languages *)

Section LanguagesFacts.
Context `{!LanguagesEnv}.

Lemma populateConfig_nil (l : Languages) (lang : string) (vs : viperState) :
  configs l = None → populateConfig l lang vs = None.
Proof.
  intros Hnil. unfold populateConfig. destruct (loadConfig l lang vs) as [vs' loaded].
  by rewrite Hnil.
Qed.

Lemma populateConfig_map (ls : gmap string DirEntry) (m : gmap string LangConfig)
    (lang : string) (vs : viperState) :
  populateConfig (mkLanguages ls (Some m)) lang vs
  = Some (mkLanguages ls
            (Some (<[lang := match (loadConfig (mkLanguages ls (Some m)) lang vs).2 with
                             | Err _ => ConfigOfLanguage lang
                             | Ok config => config
                             end]> m)),
          (loadConfig (mkLanguages ls (Some m)) lang vs).1).
Proof.
  unfold populateConfig. by destruct (loadConfig _ lang vs) as [vs' loaded].
Qed.

(** [loadConfig] looks at the languages only, not at the configs. *)
Lemma loadConfig_langs (l l' : Languages) (lang : string) (vs : viperState) :
  langs l = langs l' → loadConfig l lang vs = loadConfig l' lang vs.
Proof. intros Hlangs. unfold loadConfig. by rewrite Hlangs. Qed.

(** X22. [CreateLanguages] builds the languages with no map of configs,
    and [PopulateConfigs] assigns to an entry of that map for each
    language: when [EmbedFStoMap] finds a language, whichever it is and in
    whatever order the map is ranged over, the call panics at the first
    one; it returns only when there is no language at all. *)
Theorem X22_CreateLanguages_nil_map (langMap : gmap string DirEntry)
    (order : list string) (vs : viperState) :
  embedutils_EmbedFStoMap parentDirName = Ok langMap →
  order ≡ₚ (map_to_list langMap).*1 →
  CreateLanguages order vs
  = if decide (langMap = ∅) then Created (mkLanguages langMap None) vs else Panicked.
Proof.
  intros Hembed Horder. unfold CreateLanguages. rewrite Hembed.
  destruct (decide (langMap = ∅)) as [->|Hne].
  - rewrite map_to_list_empty in Horder. apply Permutation_nil_r in Horder. by subst order.
  - destruct order as [|lang rest].
    + symmetry in Horder. apply Permutation_nil_r, fmap_nil_inv in Horder.
      by apply map_to_list_empty_iff in Horder.
    + cbn. by rewrite populateConfig_nil.
Qed.

(** X23. With a map of configs, [PopulateConfigs] does not panic, whatever
    the languages and the order: it leaves the languages as they are,
    gives every language it ranges over a config, leaves the configs of
    the other names as they were, and gives a language whose config file
    cannot be read the config that holds its name only. *)
Theorem X23_PopulateConfigs_total (order : list string) (ls : gmap string DirEntry)
    (m : gmap string LangConfig) (vs : viperState) :
  ∃ m' vs',
    PopulateConfigs order (mkLanguages ls (Some m)) vs
    = Some (mkLanguages ls (Some m'), vs')
    ∧ (∀ lang, lang ∈ order → is_Some (GetConfig (mkLanguages ls (Some m')) lang))
    ∧ (∀ lang, lang ∉ order → m' !! lang = m !! lang)
    ∧ (∀ lang val err,
          lang ∈ order →
          ls !! lang = Some val →
          builders_ReadFile (parentDirName +:+ "/" +:+ DirEntry_Name val +:+ "/config.yaml")
          = Err err →
          GetConfig (mkLanguages ls (Some m')) lang = Some (ConfigOfLanguage lang)).
Proof.
  revert m vs. induction order as [|lang0 rest IH]; intros m vs.
  - exists m, vs. split_and!; [done | | done |]; intros; set_solver.
  - cbn [PopulateConfigs]. rewrite populateConfig_map. cbn.
    set (config := match _ with Err _ => _ | Ok c => c end).
    set (vs1 := (loadConfig _ lang0 vs).1).
    destruct (IH (<[lang0 := config]> m) vs1) as (m' & vs' & Hrun & Hall & Hframe & Hfall).
    exists m', vs'. split_and!; [done | | |].
    + intros lang [->|Hin]%elem_of_cons; [|by apply Hall].
      destruct (decide (lang0 ∈ rest)) as [Hin|Hnotin]; [by apply Hall|].
      cbn. rewrite (Hframe _ Hnotin), lookup_insert_eq. by eexists.
    + intros lang [Hne Hnotin]%not_elem_of_cons.
      by rewrite (Hframe _ Hnotin), lookup_insert_ne.
    + intros lang val err [->|Hin]%elem_of_cons Hval Hread; [|by eapply Hfall].
      destruct (decide (lang0 ∈ rest)) as [Hin|Hnotin]; [by eapply Hfall|].
      cbn. rewrite (Hframe _ Hnotin), lookup_insert_eq. f_equal.
      subst config. unfold loadConfig. cbn. by rewrite Hval, Hread.
Qed.

(** The loop of the copy, one part of the files after the other. *)
Lemma copyFiles_app (dir : string) (pre post : list DirEntry) (os : osState) :
  copyFiles dir (pre ++ post) os
  = match copyFiles dir pre os with
    | (os1, Some err) => (os1, Some err)
    | (os1, None) => copyFiles dir post os1
    end.
Proof.
  revert os. induction pre as [|f pre IH]; intros os; [done|].
  cbn. destruct (builders_ReadFile _); [|done].
  destruct (os_WriteFile _ _ os) as [os1 [err|]]; [done|]. apply IH.
Qed.

(** X24. [CreateDockerfileForLanguage] writes nothing for a language it
    does not contain, nor when the directory of the language cannot be
    listed. Else it copies the listed files one after the other, each
    under its own name in the working directory; the first file that
    cannot be read, or written, ends the call with that error, and the
    files copied before it stay written. *)
Theorem X24_CreateDockerfileForLanguage (l : Languages) (lang : string) (os : osState) :
  (ContainsLanguage l lang = false →
   CreateDockerfileForLanguage l lang os
   = (os, Some (ErrorNew ("language " +:+ lang +:+ " is not supported"))))
  ∧ (∀ val err,
        langs l !! lang = Some val →
        builders_ReadDir (parentDirName +:+ "/" +:+ DirEntry_Name val) = Err err →
        CreateDockerfileForLanguage l lang os = (os, Some err))
  ∧ (∀ val pre f post os1,
        langs l !! lang = Some val →
        builders_ReadDir (parentDirName +:+ "/" +:+ DirEntry_Name val)
        = Ok (pre ++ f :: post) →
        copyFiles (parentDirName +:+ "/" +:+ DirEntry_Name val) pre os = (os1, None) →
        DirEntry_Name f ≠ "" → hasSlash (DirEntry_Name f) = false →
        CreateDockerfileForLanguage l lang os
        = match builders_ReadFile
                  (parentDirName +:+ "/" +:+ DirEntry_Name val +:+ "/" +:+ DirEntry_Name f) with
          | Err err => (os1, Some err)
          | Ok file =>
              match os_WriteFile (DirEntry_Name f) file os1 with
              | (os2, Some err) => (os2, Some err)
              | (os2, None) =>
                  copyFiles (parentDirName +:+ "/" +:+ DirEntry_Name val) post os2
              end
          end).
Proof.
  unfold CreateDockerfileForLanguage, ContainsLanguage. split_and!.
  - by destruct (langs l !! lang).
  - intros val err -> Hdir. cbn. by rewrite Hdir.
  - intros val pre f post os1 -> Hdir Hpre Hname Hslash. cbn. rewrite Hdir.
    rewrite copyFiles_app, Hpre. cbn.
    replace (path_Base (DirEntry_Name f)) with (DirEntry_Name f); [done|].
    symmetry. exact (filepath_Base_Join "." (DirEntry_Name f) Hname Hslash).
Qed.
End LanguagesFacts.

(** ** The two ways to apply the defaults *)

(** Two bodies that agree where an invariant of the config holds give the
    same loop. *)
Lemma rangeVariables_agree (I : DraftConfig → Prop)
    (body1 body2 : DraftConfig → nat → BuilderVar → option outcome)
    (n i : nat) (d : DraftConfig) :
  (∀ d i variable, I d → Variables d !! i = Some variable →
                   body1 d i variable = body2 d i variable) →
  (∀ d i variable d', I d → Variables d !! i = Some variable →
                      body2 d i variable = Some (d', None) → I d') →
  I d →
  rangeVariables body1 n i d = rangeVariables body2 n i d.
Proof.
  intros Hagree Hkeep. revert i d. induction n as [|n IH]; intros i d HI; cbn; [done|].
  destruct (Variables d !! i) as [variable|] eqn:Hi; [|done].
  rewrite (Hagree _ _ _ HI Hi).
  destruct (body2 d i variable) as [[d' [err|]]|] eqn:Hbody; [done| |done].
  apply IH. by eapply Hkeep.
Qed.

Section BothWays.
Context `{!Semver}.

(** X25. For a version that parses, that the range of the config admits,
    and that the range of every variable without a value admits,
    [ApplyDefaultVariablesForVersion] does what [ApplyDefaultVariables]
    does: the same config and the same error, or neither returns. *)
Theorem X25_version_that_every_variable_admits (fuel : nat) (d : DraftConfig)
    (version : string) (v : Version) (configRange : Version → bool) :
  semver_Parse version = Ok v →
  semver_ParseRange (ConfigVersions d) = Ok configRange →
  configRange v = true →
  (∀ i variable,
      Variables d !! i = Some variable → Value variable = "" →
      ∃ expectedRange, semver_ParseRange (Versions variable) = Ok expectedRange
                       ∧ expectedRange v = true) →
  ApplyDefaultVariablesForVersion fuel d version = ApplyDefaultVariables fuel d.
Proof.
  intros Hversion Hconfig Hin Hall.
  unfold ApplyDefaultVariablesForVersion, ApplyDefaultVariables.
  rewrite Hversion, Hconfig, Hin. cbn.
  apply (rangeVariables_agree
           (λ d, ∀ i variable,
                Variables d !! i = Some variable → Value variable = "" →
                ∃ expectedRange, semver_ParseRange (Versions variable) = Ok expectedRange
                                 ∧ expectedRange v = true)); [| |done].
  - intros d1 i variable HI Hi. unfold applyDefaultForVersionBody, applyDefaultBody.
    case_decide as Hv; [|done].
    destruct (HI _ _ Hi Hv) as (expectedRange & -> & ->). done.
  - intros d1 i variable d' HI Hi Hbody j w Hj Hw.
    destruct (applyDefaultBody_ownValue _ _ _ _ _ _ Hi Hbody) as [s ->].
    unfold applyDefaultBody in Hbody. case_decide as Hv.
    + cbn in Hj. apply list_lookup_insert_Some in Hj as [(-> & <- & _)|[_ Hj]].
      * by apply (HI _ _ Hi).
      * by apply (HI _ _ Hj).
    + injection Hbody as Hsame. rewrite <- Hsame in Hj. by apply (HI _ _ Hj).
Qed.
End BothWays.

(** ** The further properties at the sample inputs *)

(** X8 at the sample flags, in the order of the keys and against it: APP
    is set, DEBUG is added. *)
Lemma X8_witness :
  GetVariable (VariableMapToDraftConfig cfgApp [("DEBUG", "1"); ("APP", "api")]) "APP"
  = Ok (valued "APP" "" "api")
  ∧ GetVariable (VariableMapToDraftConfig cfgApp [("APP", "api"); ("DEBUG", "1")]) "DEBUG"
    = Ok (newBuilderVar "DEBUG" "1").
Proof.
  split.
  - apply (X8_VariableMapToDraftConfig cfgApp sampleFlags [("DEBUG", "1"); ("APP", "api")]).
    vm_compute. first [reflexivity | apply perm_swap].
  - apply (X8_VariableMapToDraftConfig cfgApp sampleFlags [("APP", "api"); ("DEBUG", "1")]).
    vm_compute. first [reflexivity | apply perm_swap].
Defined.

(** X9 at the sample config: APP keeps its value, PORT gets its
    default. *)
Lemma X9_witness :
  ∃ d' oe s,
    ApplyDefaultVariables 0 cfgApp = Some (d', oe)
    ∧ Variables d' !! 0 = Some (withValue (valued "APP" "" "web") s)
    ∧ s = "web".
Proof.
  destruct (ApplyDefaultVariables 0 cfgApp) as [[d' oe]|] eqn:Hrun; [|discriminate].
  destruct (@X9_defaults_keep_what_is_set sampleSemver) as [Hkeep _].
  destruct (Hkeep 0 cfgApp d' oe Hrun) as (_ & _ & Hvalues).
  destruct (Hvalues 0 (valued "APP" "" "web") eq_refl) as (s & Hs & Hsame).
  exists d', oe, s. split_and!; [reflexivity | exact Hs |].
  apply Hsame. discriminate.
Defined.

(** X10 at the config whose second variable refers to a missing one: the
    first variable has got its default, the third has not. *)
Lemma X10_witness :
  ∃ d' err i variable,
    ApplyDefaultVariables 0 cfgPartial = Some (d', Some err)
    ∧ Variables cfgPartial !! i = Some variable
    ∧ Value variable = ""
    ∧ (∀ j w, j < i → Variables d' !! j = Some w → Value w ≠ "")
    ∧ (∀ j, i ≤ j → Variables d' !! j = Variables cfgPartial !! j).
Proof.
  assert (Hrun : ApplyDefaultVariables 0 cfgPartial
                 = Some (withVariables cfgPartial
                           [ withValue (inlined "PORT" "80") "80";
                             referring "HOST" "MISSING"; inlined "TAG" "latest" ],
                         Some (errApplyDefault (errNotFound "MISSING"))))
    by (vm_compute; reflexivity).
  destruct (X10_defaults_fail_without_rollback 0 cfgPartial _ _ Hrun)
    as (i & variable & Hfail).
  by eexists _, _, i, variable.
Defined.

(** X11 at the config whose second variable refers to a missing one, and
    at the chain A -> B -> C whose last variable does. *)
Lemma X11_witness :
  ApplyDefaultVariables 0 (configOf [valued "APP" "" "web"; referring "HOST" "MISSING"])
  = Some (configOf [valued "APP" "" "web"; referring "HOST" "MISSING"],
          Some (errApplyDefault (errNotFound "MISSING")))
  ∧ ApplyDefaultVariables 2 cfgMissing
    = Some (cfgMissing, Some (errApplyDefault (errRecurse (errNotFound "MISSING")))).
Proof.
  destruct X11_missing_reference as (_ & _ & Hfirst & Hdeep). split.
  - apply (Hfirst 0 (configOf [valued "APP" "" "web"; referring "HOST" "MISSING"]) 1
             (referring "HOST" "MISSING")); try first [reflexivity | discriminate].
    + intros [|[|j]] w Hj; [|lia..]. intros [= <-]. discriminate.
    + intros v Hv. repeat (apply elem_of_cons in Hv as [->|Hv]; [discriminate|]).
      by apply elem_of_nil in Hv.
  - apply (Hdeep 2 cfgMissing 0 (referring "A" "B") (referring "B" "C")
             (referring "C" "MISSING") 1);
      try first [reflexivity | discriminate | lia].
    + apply (follows_hop _ _ _ (referring "C" "MISSING"));
        [split_and!; first [reflexivity | discriminate] | discriminate | apply follows_here].
    + intros v Hv. repeat (apply elem_of_cons in Hv as [->|Hv]; [discriminate|]).
      by apply elem_of_nil in Hv.
Defined.

(** X12 at a variable with a reference to a variable that has a value and
    with an inline default: the value of the reference is taken. *)
Lemma X12_witness :
  ∃ d' oe, ApplyDefaultVariables 1 cfgBoth = Some (d', oe)
           ∧ Value <$> Variables d' !! 0 = Some "web".
Proof.
  destruct (ApplyDefaultVariables 1 cfgBoth) as [[d' oe]|] eqn:Hrun; [|discriminate].
  exists d', oe. split; [reflexivity|].
  destruct X12_reference_before_inline_default as [_ Hvalue].
  rewrite (Hvalue 0 cfgBoth 0
             (mkBuilderVar "IMAGE" zeroConditionalRef (mkBuilderVarDefault false "APP" "scratch")
                "" [] "string" "" "" ">=0.0.1")
             (valued "APP" "" "web") d' oe); try first [reflexivity | discriminate | exact Hrun].
  intros j w Hj. lia.
Defined.

(** X13 at a variable whose range of versions is empty. *)
Lemma X13_witness :
  ∃ err, @ApplyDefaultVariablesForVersion sampleSemver 0 cfgBadRange "1.0.0"
         = Some (cfgBadRange, Some (errInvalidVariableVersions err)).
Proof.
  destruct (@X13_ranges_that_do_not_parse sampleSemver) as [_ Hvariable].
  exists (ErrorNew "empty range").
  apply (Hvariable 0 cfgBadRange "1.0.0" (1, 0, 0) (λ v, negb (versionLt v (0, 0, 1)) && true)
           0 (mkBuilderVar "PORT" zeroConditionalRef zeroDefault "" [] "string" "" "" ""));
    first [reflexivity | (intros j w Hj; lia)].
Defined.

(** X14 at the chain A -> B -> C: what returns with the fuel 100 returns
    with the fuel 4. *)
Lemma X14_witness :
  ∃ out, ApplyDefaultVariables 100 cfgChain = Some out
         ∧ ApplyDefaultVariables (length (Variables cfgChain) + 1) cfgChain = Some out.
Proof.
  destruct (ApplyDefaultVariables 100 cfgChain) as [out|] eqn:Hrun; [|discriminate].
  destruct (@X14_walk_depth_bound sampleSemver) as (_ & Happly & _).
  exists out. split; [reflexivity|]. exact (Happly 100 cfgChain out Hrun).
Defined.

(** X15 at the sample store. *)
Lemma X15_witness :
  ∃ c h',
    DeepCopy sampleStore cfgStore = Some (c, h')
    ∧ readConfig h' c = Some (copyConfig (withVariables cfgStore sampleStore))
    ∧ readConfig h' cfgStore = Some (withVariables cfgStore sampleStore).
Proof.
  assert (Hread : readConfig sampleStore cfgStore
                  = Some (withVariables cfgStore sampleStore)) by reflexivity.
  destruct (DeepCopy sampleStore cfgStore) as [[c h']|] eqn:Hcopy; [|discriminate].
  destruct (@X15_DeepCopy_read sampleBuiltins _ _ _ _ _ Hread Hcopy) as (Hc & Hd & _).
  by exists c, h'.
Defined.

(** X17 at the sample template, which [Generate] writes: its checks have
    passed and its defaults are applied. *)
Lemma X17_witness :
  ∃ t' w' oe d',
    @Generate sampleSemver recordingWriter sampleEngine 1 (Some sampleTemplate) []
    = Returns (t', w', oe)
    ∧ w' ≠ []
    ∧ @ApplyDefaultVariablesForVersion sampleSemver 1 cfgApp "1.0.0" = Some (d', None)
    ∧ t' = Some (withConfig sampleTemplate d').
Proof.
  destruct (@Generate sampleSemver recordingWriter sampleEngine 1 (Some sampleTemplate) [])
    as [[[t' w'] oe]| |] eqn:Hrun; [|discriminate..].
  assert (Hw : w' ≠ []).
  { vm_compute in Hrun. injection Hrun as _ <- _. discriminate. }
  destruct (@X17_Generate_writes_only_when_ready sampleSemver recordingWriter sampleEngine
              1 (Some sampleTemplate) t' [] w' oe Hrun Hw)
    as (t0 & d & d' & [= <-] & [= <-] & _ & _ & _ & _ & Hdefaults & Ht').
  by exists t', w', oe, d'.
Defined.

(** X18 at a template whose file system has nothing at the source root,
    and at the sample template without a writer. *)
Lemma X18_witness :
  @Generate sampleSemver recordingWriter sampleEngine 1 (Some rootlessTemplate) [] = Panics
  ∧ @generateTemplateNil sampleEngine sampleTemplate = None.
Proof.
  destruct (@X18_panics_of_the_renderer sampleSemver recordingWriter sampleEngine)
    as (_ & Hpanics & Hnil & _). split.
  - apply (Hpanics 1 rootlessTemplate cfgApp
             (withVariables cfgApp [valued "APP" "" "web"; withValue (inlined "PORT" "80") "80"]));
      try reflexivity.
    by intros fsys [= <-].
  - apply Hnil. right.
    exists sampleFS, sampleTree, ("dockerfiles/gradle/Dockerfile", "Dockerfile", Ok "FROM gradle"),
      [("dockerfiles/gradle/conf/app.conf", "app.conf", Ok "$APP")],
      "FROM gradle", "FROM gradle", "FROM gradle".
    split_and!; first [reflexivity | (vm_compute; reflexivity)].
Defined.

(** X19 at the sample template: the variables of the template that
    [Generate] leaves have their values. *)
Lemma X19_witness :
  ∃ t' w' d',
    @Generate sampleSemver recordingWriter sampleEngine 1 (Some sampleTemplate) []
    = Returns (t', w', None)
    ∧ t' = Some (withConfig sampleTemplate d')
    ∧ ∀ i variable, Variables d' !! i = Some variable →
                    @settledFor sampleSemver (1, 0, 0) variable.
Proof.
  destruct (@Generate sampleSemver recordingWriter sampleEngine 1 (Some sampleTemplate) [])
    as [[[t' w'] [err|]]| |] eqn:Hrun; [discriminate| |discriminate..].
  destruct (@X19_success_postconditions sampleSemver recordingWriter sampleEngine)
    as (_ & _ & Hgenerate).
  destruct (Hgenerate 1 sampleTemplate t' [] w' Hrun)
    as (d & d' & v & _ & Ht' & _ & [= <-] & Hsettled).
  by exists t', w', d'.
Defined.

(** X20 at the sample catalogue: the name is folded, the version is the
    default of the config and the destination the working directory. *)
Lemma X20_witness :
  ∃ c' t,
    @GetTemplate sampleHandlers string sampleCatalogue "Gradle" "" "" (Some "disk")
    = Some (c', Ok "gradle")
    ∧ c' !! "gradle" = Some (t, Some "disk")
    ∧ dest t = "."
    ∧ version t = "0.0.1".
Proof.
  destruct (@GetTemplate sampleHandlers string sampleCatalogue "Gradle" "" "" (Some "disk"))
    as [[c' [key|err]]|] eqn:Hget; [|discriminate..].
  assert (Hkey : key = "gradle") by (vm_compute in Hget; by injection Hget as _ <-).
  subst key.
  destruct (@X20_GetTemplate_catalogue sampleHandlers string _ _ _ _ _ _ _ Hget)
    as (_ & old & oldWriter & config & t & Hold & Hconfig & Hnew & _ & _ & _ & _
        & Hdest & _ & Hversion & _).
  exists c', t. split_and!; [done | exact Hnew | exact Hdest |].
  rewrite Hversion. vm_compute in Hold. injection Hold as <- _. by injection Hconfig as <-.
Defined.

(** X21 at the sample catalogue, for a version and a destination that
    the caller gives. *)
Lemma X21_witness :
  ∃ c' t w,
    @GetTemplate sampleHandlers string sampleCatalogue "gradle" "1.2.3" "out" None
    = Some (c', Ok "gradle")
    ∧ c' !! "gradle" = Some (t, w)
    ∧ (validate (Some t) = None
       ↔ src t ≠ "" ∧ templateFiles t ≠ None ∧ version t ≠ "").
Proof.
  destruct (@GetTemplate sampleHandlers string sampleCatalogue "gradle" "1.2.3" "out" None)
    as [[c' [key|err]]|] eqn:Hget; [|discriminate..].
  assert (Hkey : key = "gradle") by (vm_compute in Hget; by injection Hget as _ <-).
  subst key.
  destruct (@X21_GetTemplate_then_validate sampleHandlers string recordingWriter sampleEngine
              _ _ _ _ _ _ _ Hget) as (t & w & Hnew & _ & _ & Hvalidate).
  by exists c', t, w.
Defined.

(** X22 at the sample language: [CreateLanguages] panics. *)
Lemma X22_witness :
  @CreateLanguages sampleLanguagesEnv ["go"] "" = Panicked.
Proof.
  rewrite (@X22_CreateLanguages_nil_map sampleLanguagesEnv {[ "go" := Dir "go" [] ]} ["go"] "");
    [|reflexivity|vm_compute; reflexivity].
  destruct (decide _) as [Hempty|]; [|reflexivity].
  apply (f_equal (λ m, m !! "go")) in Hempty. discriminate.
Defined.

(** X24 at the sample language: the first file is copied, the second
    cannot be read, and the third is not looked at. *)
Lemma X24_witness :
  @CreateDockerfileForLanguage sampleLanguagesEnv
    (mkLanguages {[ "go" := Dir "go" [] ]} None) "go" []
  = ([("Dockerfile", "FROM golang")],
     Some (ErrorNew "open builders/go/LICENSE: permission denied")).
Proof.
  destruct (@X24_CreateDockerfileForLanguage sampleLanguagesEnv
              (mkLanguages {[ "go" := Dir "go" [] ]} None) "go" []) as (_ & _ & Hcopy).
  apply (Hcopy (Dir "go" []) [File "Dockerfile" (Ok "FROM golang")]
           (File "LICENSE" (Err (ErrorNew "permission denied")))
           [File "go.mod" (Ok "module app")] [("Dockerfile", "FROM golang")]);
    first [reflexivity | discriminate].
Defined.

(** X25 at the sample config, whose variables apply from 0.0.1 on. *)
Lemma X25_witness :
  @ApplyDefaultVariablesForVersion sampleSemver 0 cfgApp "1.0.0"
  = ApplyDefaultVariables 0 cfgApp.
Proof.
  apply (@X25_version_that_every_variable_admits sampleSemver 0 cfgApp "1.0.0" (1, 0, 0)
           (λ v, negb (versionLt v (0, 0, 1)) && true)); try reflexivity.
  intros [|[|i]] variable [= <-] Hvalue; [discriminate|].
  by eexists.
Defined.

(** X26 at the sample config over a store that holds the first of its two
    objects only. *)
Lemma X26_witness :
  DeepCopy (take 1 sampleStore) cfgStore = None.
Proof.
  apply X26_DeepCopy_nil_entry. exists 1, 1. split; reflexivity.
Defined.
